(** * Key/value caches of mindnlp.transformers.cache_utils

    A shallow embedding of [Cache], [DynamicCache], [SinkCache] and
    [StaticCache], with the properties of the generation-time cache
    subsystem stated and proved over it.

    Python objects are mutated in place and a raised exception keeps the
    mutations made before it, so every method is a function from the
    object's state to a new state and either a value or an exception. *)

From stdpp Require Import base list gmap.
From Stdlib Require Import ZArith Lia.

Local Open Scope Z_scope.

(** ** Python: exceptions, mutable objects, sequences *)

Module Py.

Inductive exn : Set :=
| AttributeError  (* attribute access on None *)
| IndexError      (* list or tensor index out of range *)
| KeyError        (* dict lookup of a missing key *)
| ValueError      (* raised by the caches themselves *)
| ZeroDivisionError
| ShapeError.     (* the tensor library's error on operands whose shapes do not agree *)

Inductive result (X : Type) : Type :=
| Ok (x : X)
| Raise (e : exn).
Arguments Ok {X} x.
Arguments Raise {X} e.

#[global] Instance result_ret : MRet result := λ X x, Ok x.
#[global] Instance result_bind : MBind result :=
  λ X Y f r, match r with Ok x => f x | Raise e => Raise e end.

(** A method on an object with state [S]. *)
Definition M (S X : Type) : Type := S → S * result X.

#[global] Instance M_ret {S} : MRet (M S) := λ X x s, (s, Ok x).
#[global] Instance M_bind {S} : MBind (M S) :=
  λ X Y f m s, match m s with
               | (s', Ok x) => f x s'
               | (s', Raise e) => (s', Raise e)
               end.

Definition get {S} : M S S := λ s, (s, Ok s).
Definition modify {S} (f : S → S) : M S unit := λ s, (f s, Ok tt).
Definition lift {S X} (r : result X) : M S X := λ s, (s, r).
Definition when {S} (b : bool) (m : M S unit) : M S unit :=
  if b then m else mret tt.

(** [for x in xs: body(x)] *)
Fixpoint for_ {S X} (xs : list X) (body : X → M S unit) : M S unit :=
  match xs with
  | [] => mret tt
  | x :: xs => body x;; for_ xs body
  end.

(** Calls made one after the other, the first exception ending the run. *)
Fixpoint seqM {S X} (ms : list (M S X)) : M S (list X) :=
  match ms with
  | [] => mret []
  | m :: ms => x ← m; xs ← seqM ms; mret (x :: xs)
  end.

(** Calls made one after the other by a caller that goes on after an
    exception: the state every call leaves is the next call's state. *)
Definition run_all {S X} (ms : list (M S X)) (s : S) : S :=
  fold_left (λ s m, (m s).1) ms s.

(** [l[i]] for a Python [int] index: a negative index counts from the end. *)
Definition norm_index (n : nat) (i : Z) : option nat :=
  if bool_decide (0 ≤ i < Z.of_nat n) then Some (Z.to_nat i)
  else if bool_decide (- Z.of_nat n ≤ i < 0) then Some (Z.to_nat (Z.of_nat n + i))
  else None.

Definition getitem {X} (l : list X) (i : Z) : result X :=
  match norm_index (length l) i with
  | Some k => match l !! k with Some x => Ok x | None => Raise IndexError end
  | None => Raise IndexError
  end.

(** [l[i] = x] *)
Definition setitem {X} (l : list X) (i : Z) (x : X) : result (list X) :=
  match norm_index (length l) i with
  | Some k => Ok (<[k:=x]> l)
  | None => Raise IndexError
  end.

(** [len(l)] *)
Definition len {X} (l : list X) : Z := Z.of_nat (length l).

(** [range(n)] *)
Definition range (n : Z) : list Z := Z.of_nat <$> seq 0 (Z.to_nat n).

(** A slice bound [i] on a sequence of length [n], as Python clamps it. *)
Definition clamp (n i : Z) : Z :=
  if bool_decide (i < 0) then Z.max (n + i) 0 else Z.min i n.

(** [l[a:b]]; a bound left out is [None]. *)
Definition slice {X} (a b : option Z) (l : list X) : list X :=
  let n := len l in
  let lo := from_option (clamp n) 0 a in
  let hi := from_option (clamp n) n b in
  take (Z.to_nat (hi - lo)) (drop (Z.to_nat lo) l).

(** [f(x, y)] over two sequences that must have one length. *)
Fixpoint zipM {X Y Z} (f : X → Y → result Z) (xs : list X) (ys : list Y)
  : result (list Z) :=
  match xs, ys with
  | [], [] => Ok []
  | x :: xs, y :: ys => z ← f x y; zs ← zipM f xs ys; Ok (z :: zs)
  | _, _ => Raise ShapeError
  end.

Fixpoint forM {X Z} (f : X → result Z) (xs : list X) : result (list Z) :=
  match xs with
  | [] => Ok []
  | x :: xs => z ← f x; zs ← forM f xs; Ok (z :: zs)
  end.

End Py.
Import Py.

(** ** The tensor library

    The caches use the tensor library for slicing, concatenation, index
    assignment and element-wise arithmetic with broadcasting. A tensor is
    modelled by nested lists, outermost axis first; a key or value tensor
    has the axes [batch, heads, sequence, head_dim]. Scalars are abstract:
    their arithmetic and the two dtype casts are operations without laws,
    so nothing about rounding is assumed. An axis inside an empty axis has
    no extent of its own in this representation. *)

Module Tensor.

Class Scalar (A : Type) := {
  zero : A;
  add : A → A → A;
  mul : A → A → A;
  neg : A → A;
  to_float32 : A → A;  (* [x.to(mindspore.float32)] *)
  to_dtype : A → A;    (* [x.to(key_states.dtype)] *)
}.

(** [seq, dim]: the cos and sin tables *)
Abbreviation table A := (list (list A)).
(** [1, seq, dim]: an unsqueezed table *)
Abbreviation tensor3 A := (list (list (list A))).
(** [batch, heads, seq, head_dim] *)
Abbreviation tensor A := (list (list (list (list A)))).

Section Ops.
Context {A : Type}.

(** [t.shape[-2]] *)
Definition shape_m2 (t : tensor A) : Z :=
  match t with
  | (m :: _) :: _ => len m
  | _ => 0
  end.

(** [t.shape[-1]] *)
Definition shape_m1 (t : tensor A) : Z :=
  match t with
  | ((r :: _) :: _) :: _ => len r
  | _ => 0
  end.

(** [t[0, 0]], the first [seq, dim] block, which the two shape queries read *)
Definition slab0 (t : tensor A) : option (table A) :=
  match t with
  | (m :: _) :: _ => Some m
  | _ => None
  end.

(** [t[b, h]], one [seq, dim] block *)
Definition slab (t : tensor A) (b h : nat) : option (table A) :=
  match t !! b with
  | Some th => th !! h
  | None => None
  end.

(** [t[b, h, p]], the row of one token *)
Definition tok (t : tensor A) (b h p : nat) : option (list A) :=
  match slab t b h with
  | Some m => m !! p
  | None => None
  end.

(** The first [s] tokens of every block of [t] are the first tokens of
    the same block of [t'], row for row. *)
Definition keeps_prefix (s : Z) (t t' : tensor A) : Prop :=
  ∀ b h p row, Z.of_nat p < s → tok t b h p = Some row → tok t' b h p = Some row.

(** Layer by layer, the tensors of [l'] keep the first [s] tokens of
    those of [l]. *)
Definition sinks_kept (s : Z) (l l' : list (tensor A)) : Prop :=
  ∀ i t, l !! i = Some t → ∃ t', l' !! i = Some t' ∧ keeps_prefix s t t'.

(** [t[:, :, a:b]] *)
Definition slice_seq (a b : option Z) (t : tensor A) : tensor A :=
  fmap (M := list) (fmap (M := list) (slice a b)) t.

(** [t[..., a:b]] *)
Definition slice_dim (a b : option Z) (t : tensor A) : tensor A :=
  fmap (M := list) (fmap (M := list) (fmap (M := list) (slice a b))) t.

(** [t.unsqueeze(0)] on a table A *)
Definition unsqueeze0 (t : table A) : tensor3 A := [t].

(** Concatenation along the sequence axis of two [seq, dim] blocks: the
    rows of both must have one width. *)
Definition cat_rows (x y : table A) : result (table A) :=
  match x, y with
  | r :: _, r' :: _ =>
      if bool_decide (length r = length r') then Ok (x ++ y) else Raise ShapeError
  | _, _ => Ok (x ++ y)
  end.

Definition cat2_m2 (a b : tensor A) : result (tensor A) := zipM (zipM cat_rows) a b.

Definition cat2_m1 (a b : tensor A) : result (tensor A) :=
  zipM (zipM (zipM (λ r r' : list A, Ok (r ++ r')))) a b.

Fixpoint cat_fold (cat2 : tensor A → tensor A → result (tensor A))
    (acc : tensor A) (ts : list (tensor A)) : result (tensor A) :=
  match ts with
  | [] => Ok acc
  | t :: ts => acc' ← cat2 acc t; cat_fold cat2 acc' ts
  end.

(** [ops.cat(ts, axis=-2)] and [ops.cat(ts, axis=-1)] *)
Definition cat_m2 (ts : list (tensor A)) : result (tensor A) :=
  match ts with
  | [] => Raise ValueError
  | t :: ts => cat_fold cat2_m2 t ts
  end.

Definition cat_m1 (ts : list (tensor A)) : result (tensor A) :=
  match ts with
  | [] => Raise ValueError
  | t :: ts => cat_fold cat2_m1 t ts
  end.

(** One axis of an element-wise operation: extents agree, or the axis of
    extent 1 is broadcast. *)
Definition bzip {X Y Z} (f : X → Y → result Z) (xs : list X) (ys : list Y)
  : result (list Z) :=
  if bool_decide (length xs = length ys) then zipM f xs ys
  else match xs, ys with
       | [x], _ => forM (f x) ys
       | _, [y] => forM (λ x, f x y) xs
       | _, _ => Raise ShapeError
       end.

(** The index read on an axis of extent [n] for position [i] of the
    result of [bzip]. *)
Definition bidx (n i : nat) : nat := if decide (n = 1%nat) then 0%nat else i.

Definition ew1 (op : A → A → A) : list A → list A → result (list A) :=
  bzip (λ x y, Ok (op x y)).
Definition ew2 (op : A → A → A) : table A → table A → result (table A) :=
  bzip (ew1 op).
Definition ew3 (op : A → A → A) : tensor3 A → tensor3 A → result (tensor3 A) :=
  bzip (ew2 op).
Definition ew4 (op : A → A → A) : tensor A → tensor A → result (tensor A) :=
  bzip (ew3 op).

(** A [1, seq, dim] operand against a [batch, heads, seq, dim] one: the
    missing leading axis is one more axis of extent 1. *)
Definition ew4_3 (op : A → A → A) (t : tensor A) (u : tensor3 A) : result (tensor A) :=
  ew4 op t [u].

Definition map2d (f : A → A) (t : table A) : table A :=
  fmap (M := list) (fmap (M := list) f) t.
Definition map4d (f : A → A) (t : tensor A) : tensor A :=
  fmap (M := list) (fmap (M := list) (map2d f)) t.

(** The extent [n] of an axis that a value of extent [n] or 1 is assigned to. *)
Definition expand {X} (n : nat) (xs : list X) : result (list X) :=
  if bool_decide (length xs = n) then Ok xs
  else match xs with
       | [x] => Ok (replicate n x)
       | _ => Raise ShapeError
       end.

(** Position [p] of an axis of extent [n] is named by one of the indices. *)
Definition names (n : nat) (positions : list Z) (p : nat) : Prop :=
  ∃ q, q ∈ positions ∧ norm_index n q = Some p.

(** [t.shape == (b, h, n, d)] *)
Definition has_shape (b h n d : nat) (t : tensor A) : Prop :=
  length t = b ∧
  Forall (λ th, length th = h ∧
                Forall (λ m, length m = n ∧
                             Forall (λ r : list A, length r = d) m) th) t.


(** [m[positions] = vals] on one [seq, dim] block, row by row, a later
    write to a position replacing an earlier one. *)
Fixpoint put_rows (m : table A) (positions : list Z) (vals : table A) : result (table A) :=
  match positions, vals with
  | p :: positions, v :: vals =>
      match norm_index (length m) p with
      | Some k =>
          v' ← expand (length (m !!! k)) v;
          put_rows (<[k:=v']> m) positions vals
      | None => Raise IndexError
      end
  | _, _ => Ok m
  end.

(** [t[:, :, positions] = v] *)
Definition index_put (t : tensor A) (positions : list Z) (v : tensor A) : result (tensor A) :=
  vb ← expand (length t) v;
  zipM (λ th vh,
          vh' ← expand (length th) vh;
          zipM (λ m vals,
                  vals' ← expand (length positions) vals;
                  put_rows m positions vals') th vh') t vb.

End Ops.

(** [t.index_select(0, index)]: the entries of axis 0 that [index] names,
    in the order of [index]. The library wants every index within
    [0, len(t)); the model raises on any other. *)
Definition index_select0 {X} (t : list X) (index : list Z) : result (list X) :=
  forM (λ i, if bool_decide (0 ≤ i < len t) then getitem t i else Raise IndexError)
       index.

(** [ops.zeros((b, h, n, d))] *)
Definition zeros `{Scalar A} (b h n d : nat) : tensor A :=
  replicate b (replicate h (replicate n (replicate d zero))).

End Tensor.
Import Tensor.

(** ** class Cache

    The abstract base: [get_seq_length] and [get_max_length] are supplied
    by each subclass, [get_usable_length] is written once over them. *)

Module Cache.

Class Cache (C : Type) := {
  get_seq_length : C → Z → result Z;
  get_max_length : C → option Z;
}.

Definition get_usable_length `{Cache C} (self : C) (new_seq_length layer_idx : Z)
  : result Z :=
  let max_length := get_max_length self in
  previous_seq_length ← get_seq_length self layer_idx;
  match max_length with
  | Some max_length =>
      if bool_decide (previous_seq_length + new_seq_length > max_length)
      then Ok (max_length - new_seq_length)
      else Ok previous_seq_length
  | None => Ok previous_seq_length
  end.

End Cache.

(** ** class DynamicCache *)

Module DynamicCache.
Section Defs.
Context {A : Type}.

Record t : Type := mk {
  key_cache : list (tensor A);
  value_cache : list (tensor A);
  seen_tokens : Z;
}.

Definition set_key_cache (kc : list (tensor A)) (self : t) : t :=
  mk kc (value_cache self) (seen_tokens self).
Definition set_value_cache (vc : list (tensor A)) (self : t) : t :=
  mk (key_cache self) vc (seen_tokens self).
Definition set_seen_tokens (n : Z) (self : t) : t :=
  mk (key_cache self) (value_cache self) n.

Definition __init__ : t := mk [] [] 0.

Definition __len__ (self : t) : Z := len (key_cache self).

Definition __getitem__ (self : t) (layer_idx : Z) : result (tensor A * tensor A) :=
  if bool_decide (layer_idx < __len__ self) then
    k ← getitem (key_cache self) layer_idx;
    v ← getitem (value_cache self) layer_idx;
    Ok (k, v)
  else Raise KeyError.

(** The items the generator yields when it is run to its end on a cache
    that is not changed meanwhile, as [list(cache)] does. *)
Definition __iter__ (self : t) : result (list (tensor A * tensor A)) :=
  forM (λ layer_idx,
          k ← getitem (key_cache self) layer_idx;
          v ← getitem (value_cache self) layer_idx;
          Ok (k, v))
       (range (__len__ self)).

(** The options map is not read; its type is left open. *)
Definition update {K} (key_states value_states : tensor A) (layer_idx : Z)
    (cache_kwargs : option K) : M t (tensor A * tensor A) :=
  when (bool_decide (layer_idx = 0))
    (modify (λ self, set_seen_tokens (seen_tokens self + shape_m2 key_states) self));;
  self ← get;
  (if bool_decide (len (key_cache self) ≤ layer_idx) then
     modify (λ self, set_key_cache (key_cache self ++ [key_states]) self);;
     modify (λ self, set_value_cache (value_cache self ++ [value_states]) self)
   else
     old ← lift (getitem (key_cache self) layer_idx);
     new ← lift (cat_m2 [old; key_states]);
     kc ← lift (setitem (key_cache self) layer_idx new);
     modify (set_key_cache kc);;
     old ← lift (getitem (value_cache self) layer_idx);
     new ← lift (cat_m2 [old; value_states]);
     vc ← lift (setitem (value_cache self) layer_idx new);
     modify (set_value_cache vc));;
  self ← get;
  k ← lift (getitem (key_cache self) layer_idx);
  v ← lift (getitem (value_cache self) layer_idx);
  mret (k, v).

Definition get_seq_length (self : t) (layer_idx : Z) : result Z :=
  if bool_decide (len (key_cache self) ≤ layer_idx) then Ok 0
  else k ← getitem (key_cache self) layer_idx; Ok (shape_m2 k).

Definition get_max_length (self : t) : option Z := None.

Definition reorder_cache (beam_idx : list Z) : M t unit :=
  self ← get;
  for_ (range (len (key_cache self))) (λ layer_idx,
    self ← get;
    k ← lift (getitem (key_cache self) layer_idx);
    k ← lift (index_select0 k beam_idx);
    kc ← lift (setitem (key_cache self) layer_idx k);
    modify (set_key_cache kc);;
    self ← get;
    v ← lift (getitem (value_cache self) layer_idx);
    v ← lift (index_select0 v beam_idx);
    vc ← lift (setitem (value_cache self) layer_idx v);
    modify (set_value_cache vc)).

Definition to_legacy_cache (self : t) : result (list (tensor A * tensor A)) :=
  forM (λ layer_idx,
          k ← getitem (key_cache self) layer_idx;
          v ← getitem (value_cache self) layer_idx;
          Ok (k, v))
       (range (__len__ self)).

Definition from_legacy_cache (past_key_values : option (list (tensor A * tensor A)))
  : result t :=
  let body : M t unit :=
    match past_key_values with
    | Some past_key_values =>
        for_ (range (len past_key_values)) (λ layer_idx,
          '(key_states, value_states) ← lift (getitem past_key_values layer_idx);
          update key_states value_states layer_idx (@None unit);;
          mret tt)
    | None => mret tt
    end in
  match body __init__ with
  | (cache, Ok _) => Ok cache
  | (_, Raise e) => Raise e
  end.

End Defs.
Arguments t : clear implicits.

#[global] Instance cache {A} : Cache.Cache (t A) :=
  {| Cache.get_seq_length := get_seq_length; Cache.get_max_length := get_max_length |}.

End DynamicCache.

(** ** class SinkCache *)

Module SinkCache.
Section Defs.
Context `{Scalar A}.

(** The options map [update] reads: each field is what [cache_kwargs.get]
    returns for its key, [None] when the key is absent. The cos and sin
    tables are indexed by position first, [seq, dim]. *)
Record kwargs : Type := {
  sin : option (table A);
  cos : option (table A);
  partial_rotation_size : option Z;
}.

Record t : Type := mk {
  key_cache : list (tensor A);
  value_cache : list (tensor A);
  window_length : Z;
  num_sink_tokens : Z;
  cos_sin_cache : gmap Z (tensor3 A * tensor3 A);
  seen_tokens : Z;
}.

Definition set_key_cache (kc : list (tensor A)) (self : t) : t :=
  mk kc (value_cache self) (window_length self) (num_sink_tokens self)
     (cos_sin_cache self) (seen_tokens self).
Definition set_value_cache (vc : list (tensor A)) (self : t) : t :=
  mk (key_cache self) vc (window_length self) (num_sink_tokens self)
     (cos_sin_cache self) (seen_tokens self).
Definition set_cos_sin_cache (m : gmap Z (tensor3 A * tensor3 A)) (self : t) : t :=
  mk (key_cache self) (value_cache self) (window_length self) (num_sink_tokens self)
     m (seen_tokens self).
Definition set_seen_tokens (n : Z) (self : t) : t :=
  mk (key_cache self) (value_cache self) (window_length self) (num_sink_tokens self)
     (cos_sin_cache self) n.

Definition __init__ (window_length num_sink_tokens : Z) : t :=
  mk [] [] window_length num_sink_tokens ∅ 0.

Definition _rotate_half (x : tensor A) : result (tensor A) :=
  let x1 := slice_dim None (Some (shape_m1 x `div` 2)) x in
  let x2 := slice_dim (Some (shape_m1 x `div` 2)) None x in
  cat_m1 [map4d neg x2; x1].

Definition _apply_key_rotary_pos_emb (key_states : tensor A) (cos sin : tensor3 A)
  : result (tensor A) :=
  kc ← ew4_3 mul key_states cos;
  rh ← _rotate_half key_states;
  rs ← ew4_3 mul rh sin;
  ew4 add kc rs.

Definition _get_rerotation_cos_sin (key_states : tensor A) (cos sin : table A)
  : M t (tensor3 A * tensor3 A) :=
  self ← get;
  match cos_sin_cache self !! shape_m2 key_states with
  | None =>
      (* Upcast to float32 temporarily for better accuracy *)
      let cos := map2d to_float32 cos in
      let sin := map2d to_float32 sin in
      let original_cos :=
        slice (Some (num_sink_tokens self + shape_m2 key_states)) None cos in
      let shifted_cos :=
        slice (Some (num_sink_tokens self)) (Some (- shape_m2 key_states)) cos in
      let original_sin :=
        slice (Some (num_sink_tokens self + shape_m2 key_states)) None sin in
      let shifted_sin :=
        slice (Some (num_sink_tokens self)) (Some (- shape_m2 key_states)) sin in
      rerotation_cos ← lift (a ← ew2 mul original_cos shifted_cos;
                             b ← ew2 mul original_sin shifted_sin;
                             ew2 add a b);
      rerotation_sin ← lift (a ← ew2 mul (map2d neg original_sin) shifted_cos;
                             b ← ew2 mul original_cos shifted_sin;
                             ew2 add a b);
      modify (λ self,
        set_cos_sin_cache
          (<[shape_m2 key_states :=
               (unsqueeze0 (map2d to_dtype rerotation_cos),
                unsqueeze0 (map2d to_dtype rerotation_sin))]> (cos_sin_cache self))
          self)
  | Some _ => mret tt
  end;;
  self ← get;
  match cos_sin_cache self !! shape_m2 key_states with
  | Some cs => mret cs
  | None => lift (Raise KeyError)
  end.

Definition get_seq_length (self : t) (layer_idx : Z) : result Z :=
  if bool_decide (len (key_cache self) ≤ layer_idx) then Ok 0
  else k ← getitem (key_cache self) layer_idx; Ok (shape_m2 k).

Definition get_max_length (self : t) : option Z := Some (window_length self).

Definition update (key_states value_states : tensor A) (layer_idx : Z)
    (cache_kwargs : option kwargs) : M t (tensor A * tensor A) :=
  kw ← lift (match cache_kwargs with
             | Some kw => Ok kw
             | None => Raise AttributeError
             end);
  let sin := sin kw in
  let cos := cos kw in
  let partial_rotation_size := partial_rotation_size kw in
  when (bool_decide (layer_idx = 0))
    (modify (λ self, set_seen_tokens (seen_tokens self + shape_m2 key_states) self));;
  self ← get;
  (if bool_decide (len (key_cache self) ≤ layer_idx) then
     (* Empty cache *)
     modify (λ self, set_key_cache (key_cache self ++ [key_states]) self);;
     modify (λ self, set_value_cache (value_cache self ++ [value_states]) self)
   else
     seq_length ← lift (get_seq_length self layer_idx);
     if bool_decide (shape_m2 key_states + seq_length < window_length self) then
       (* Growing cache *)
       old ← lift (getitem (key_cache self) layer_idx);
       new ← lift (cat_m2 [old; key_states]);
       kc ← lift (setitem (key_cache self) layer_idx new);
       modify (set_key_cache kc);;
       old ← lift (getitem (value_cache self) layer_idx);
       new ← lift (cat_m2 [old; value_states]);
       vc ← lift (setitem (value_cache self) layer_idx new);
       modify (set_value_cache vc)
     else
       (* Shifting cache *)
       old ← lift (getitem (key_cache self) layer_idx);
       let keys_to_keep :=
         slice_seq (Some (- window_length self + num_sink_tokens self
                          + shape_m2 key_states)) None old in
       keys_to_keep ←
         match cos, sin with
         | Some cos, Some sin =>
             (* using_rope *)
             '(rerotation_cos, rerotation_sin) ←
               _get_rerotation_cos_sin key_states
                 (slice None (Some (window_length self)) cos)
                 (slice None (Some (window_length self)) sin);
             match partial_rotation_size with
             | Some partial_rotation_size =>
                 let keys_pass :=
                   slice_dim (Some partial_rotation_size) None keys_to_keep in
                 let keys_to_keep :=
                   slice_dim None (Some partial_rotation_size) keys_to_keep in
                 keys_to_keep ← lift (_apply_key_rotary_pos_emb keys_to_keep
                                        rerotation_cos rerotation_sin);
                 lift (cat_m1 [keys_to_keep; keys_pass])
             | None =>
                 lift (_apply_key_rotary_pos_emb keys_to_keep
                         rerotation_cos rerotation_sin)
             end
         | _, _ => mret keys_to_keep
         end;
       self ← get;
       old ← lift (getitem (key_cache self) layer_idx);
       let sink_keys := slice_seq None (Some (num_sink_tokens self)) old in
       new ← lift (cat_m2 [sink_keys; keys_to_keep; key_states]);
       kc ← lift (setitem (key_cache self) layer_idx new);
       modify (set_key_cache kc);;
       old ← lift (getitem (value_cache self) layer_idx);
       let sink_values := slice_seq None (Some (num_sink_tokens self)) old in
       let values_to_keep :=
         slice_seq (Some (- window_length self + num_sink_tokens self
                          + shape_m2 value_states)) None old in
       new ← lift (cat_m2 [sink_values; values_to_keep; value_states]);
       vc ← lift (setitem (value_cache self) layer_idx new);
       modify (set_value_cache vc));;
  self ← get;
  k ← lift (getitem (key_cache self) layer_idx);
  v ← lift (getitem (value_cache self) layer_idx);
  mret (k, v).

Definition reorder_cache (beam_idx : list Z) : M t unit :=
  self ← get;
  for_ (range (len (key_cache self))) (λ layer_idx,
    self ← get;
    k ← lift (getitem (key_cache self) layer_idx);
    k ← lift (index_select0 k beam_idx);
    kc ← lift (setitem (key_cache self) layer_idx k);
    modify (set_key_cache kc);;
    self ← get;
    v ← lift (getitem (value_cache self) layer_idx);
    v ← lift (index_select0 v beam_idx);
    vc ← lift (setitem (value_cache self) layer_idx v);
    modify (set_value_cache vc)).

End Defs.
Arguments t A : clear implicits.
Arguments kwargs A : clear implicits.

#[global] Instance cache {A} : Cache.Cache (t A) :=
  {| Cache.get_seq_length := get_seq_length; Cache.get_max_length := get_max_length |}.

End SinkCache.

(** ** class StaticCache *)

Module PretrainedConfig.

(** Modelled from the spec: the model configuration object, of which
    [StaticCache.__init__] reads these attributes. A field of type
    [option] is an attribute that may be absent ([head_dim]) or [None]
    ([num_key_value_heads]). *)
Record t : Type := {
  max_position_embeddings : Z;
  hidden_size : Z;
  num_attention_heads : Z;
  head_dim : option Z;
  num_key_value_heads : option Z;
}.

End PretrainedConfig.

Module StaticCache.
Section Defs.
Context `{Scalar A}.

(** The options map [update] reads: [cache_position] is the index vector
    stored under that key, one position of the sequence axis for each
    incoming token. *)
Record kwargs : Type := {
  cache_position : list Z;
}.

Record t : Type := mk {
  max_batch_size : Z;
  max_cache_len : Z;
  head_dim : Z;
  num_key_value_heads : Z;
  key_cache : tensor A;
  value_cache : tensor A;
}.

Definition set_key_cache (k : tensor A) (self : t) : t :=
  mk (max_batch_size self) (max_cache_len self) (head_dim self)
     (num_key_value_heads self) k (value_cache self).
Definition set_value_cache (v : tensor A) (self : t) : t :=
  mk (max_batch_size self) (max_cache_len self) (head_dim self)
     (num_key_value_heads self) (key_cache self) v.

(** [ops.zeros(cache_shape)]: no extent may be negative. *)
Definition ops_zeros (b h n d : Z) : result (tensor A) :=
  if bool_decide (0 ≤ b ∧ 0 ≤ h ∧ 0 ≤ n ∧ 0 ≤ d)
  then Ok (zeros (Z.to_nat b) (Z.to_nat h) (Z.to_nat n) (Z.to_nat d))
  else Raise ValueError.

Definition __init__ (config : PretrainedConfig.t) (max_batch_size : Z)
    (max_cache_len : option Z) : result t :=
  let max_cache_len :=
    from_option id (PretrainedConfig.max_position_embeddings config) max_cache_len in
  head_dim ←
    match PretrainedConfig.head_dim config with
    | Some d => Ok d
    | None =>
        if bool_decide (PretrainedConfig.num_attention_heads config = 0)
        then Raise ZeroDivisionError
        else Ok (PretrainedConfig.hidden_size config
                   `div` PretrainedConfig.num_attention_heads config)
    end;
  let num_key_value_heads :=
    from_option id (PretrainedConfig.num_attention_heads config)
      (PretrainedConfig.num_key_value_heads config) in
  key_cache ← ops_zeros max_batch_size num_key_value_heads max_cache_len head_dim;
  value_cache ← ops_zeros max_batch_size num_key_value_heads max_cache_len head_dim;
  Ok (mk max_batch_size max_cache_len head_dim num_key_value_heads
         key_cache value_cache).

Definition update (key_states value_states : tensor A) (layer_idx : Z)
    (cache_kwargs : option kwargs) : M t (tensor A * tensor A) :=
  kw ← lift (match cache_kwargs with
             | Some kw => Ok kw
             | None => Raise AttributeError
             end);
  let new_cache_positions := cache_position kw in
  self ← get;
  k_out ← lift (index_put (key_cache self) new_cache_positions key_states);
  modify (set_key_cache k_out);;
  v_out ← lift (index_put (value_cache self) new_cache_positions value_states);
  modify (set_value_cache v_out);;
  mret (k_out, v_out).

Definition get_seq_length (self : t) (layer_idx : option Z) : result Z :=
  Raise ValueError.

Definition get_usable_length (self : t) (new_sequence_length layer_idx : option Z)
  : result Z :=
  Raise ValueError.

Definition get_max_length (self : t) : option Z := Some (max_cache_len self).

Definition reorder_cache (beam_idx : list Z) : M t unit :=
  self ← get;
  k ← lift (index_select0 (key_cache self) beam_idx);
  modify (set_key_cache k);;
  self ← get;
  v ← lift (index_select0 (value_cache self) beam_idx);
  modify (set_value_cache v).

Definition to_legacy_cache (self : t) : result (option (list (tensor A * tensor A))) :=
  Ok None.

End Defs.
Arguments t A : clear implicits.

#[global] Instance cache {A} : Cache.Cache (t A) :=
  {| Cache.get_seq_length := λ self layer_idx, get_seq_length self (Some layer_idx);
     Cache.get_max_length := get_max_length |}.

End StaticCache.

(** ** Method resolution

    A cache object is an instance of one of the three classes.
    [DynamicCache] and [SinkCache] inherit [get_usable_length] from
    [Cache]; [StaticCache] overrides it. *)

Inductive cache (A : Type) : Type :=
| Dynamic (self : DynamicCache.t A)
| Sink (self : SinkCache.t A)
| Static (self : StaticCache.t A).
Arguments Dynamic {A} self.
Arguments Sink {A} self.
Arguments Static {A} self.

Definition get_seq_length {A} (self : cache A) (layer_idx : Z) : result Z :=
  match self with
  | Dynamic self => DynamicCache.get_seq_length self layer_idx
  | Sink self => SinkCache.get_seq_length self layer_idx
  | Static self => StaticCache.get_seq_length self (Some layer_idx)
  end.

Definition get_max_length {A} (self : cache A) : option Z :=
  match self with
  | Dynamic self => DynamicCache.get_max_length self
  | Sink self => SinkCache.get_max_length self
  | Static self => StaticCache.get_max_length self
  end.

Definition get_usable_length {A} (self : cache A) (new_seq_length layer_idx : Z)
  : result Z :=
  match self with
  | Dynamic self => Cache.get_usable_length self new_seq_length layer_idx
  | Sink self => Cache.get_usable_length self new_seq_length layer_idx
  | Static self =>
      StaticCache.get_usable_length self (Some new_seq_length) (Some layer_idx)
  end.

(** [reorder_cache] is defined by each of the three classes. *)
Definition reorder_cache {A} (beam_idx : list Z) (self : cache A)
  : cache A * result unit :=
  match self with
  | Dynamic self =>
      let (self', r) := DynamicCache.reorder_cache beam_idx self in (Dynamic self', r)
  | Sink self =>
      let (self', r) := SinkCache.reorder_cache beam_idx self in (Sink self', r)
  | Static self =>
      let (self', r) := StaticCache.reorder_cache beam_idx self in (Static self', r)
  end.

(** Every key tensor of the cache has its value tensor. *)
Definition layers_paired {A} (self : cache A) : Prop :=
  match self with
  | Dynamic self =>
      length (DynamicCache.key_cache self) = length (DynamicCache.value_cache self)
  | Sink self =>
      length (SinkCache.key_cache self) = length (SinkCache.value_cache self)
  | Static _ => True
  end.

(** Every tensor of the cache has batch extent [n]. *)
Definition batch_extent {A} (n : nat) (self : cache A) : Prop :=
  match self with
  | Dynamic self =>
      Forall (λ t, length t = n) (DynamicCache.key_cache self) ∧
      Forall (λ t, length t = n) (DynamicCache.value_cache self)
  | Sink self =>
      Forall (λ t, length t = n) (SinkCache.key_cache self) ∧
      Forall (λ t, length t = n) (SinkCache.value_cache self)
  | Static self =>
      length (StaticCache.key_cache self) = n ∧
      length (StaticCache.value_cache self) = n
  end.

(** Integers as scalars, for running the model on concrete tensors; the
    casts change nothing. *)
#[global] Instance Z_scalar : Scalar Z :=
  {| zero := 0; add := Z.add; mul := Z.mul; neg := Z.opp;
     to_float32 := id; to_dtype := id |}.

(** ** The rotation as the specification words it

    Total element-wise operations on [seq, dim] blocks of one shape, and
    over them the correction tables and the rotation of the kept keys as
    the specification states them: [original] are the table rows from
    [s + c] on, [shifted] the rows from [s] up to [n - c], of tables of
    [n] rows; [rotate_half] is [concat(-second_half, first_half)]. *)

Section RotationSpec.
Context `{Scalar A}.

(** [m.shape == (n, d)] *)
Definition is_table (n d : nat) (m : table A) : Prop :=
  length m = n ∧ Forall (λ r, length r = d) m.

Definition tmul (x y : table A) : table A := zip_with (zip_with mul) x y.
Definition tadd (x y : table A) : table A := zip_with (zip_with add) x y.

Definition spec_original (s c : nat) (t : table A) : table A := drop (s + c) t.
Definition spec_shifted (s c : nat) (t : table A) : table A :=
  take (length t - c - s) (drop s t).

Definition spec_rerotation_cos (s c : nat) (cos sin : table A) : table A :=
  let cos := map2d to_float32 cos in
  let sin := map2d to_float32 sin in
  map2d to_dtype
    (tadd (tmul (spec_original s c cos) (spec_shifted s c cos))
          (tmul (spec_original s c sin) (spec_shifted s c sin))).

Definition spec_rerotation_sin (s c : nat) (cos sin : table A) : table A :=
  let cos := map2d to_float32 cos in
  let sin := map2d to_float32 sin in
  map2d to_dtype
    (tadd (tmul (map2d neg (spec_original s c sin)) (spec_shifted s c cos))
          (tmul (spec_original s c cos) (spec_shifted s c sin))).

Definition spec_rotate_half (x : list A) : list A :=
  (neg <$> drop (length x `div` 2) x) ++ take (length x `div` 2) x.

(** [key' = key*rerotation_cos + rotate_half(key)*rerotation_sin] *)
Definition spec_rotate (key rc rs : table A) : table A :=
  tadd (tmul key rc) (tmul (spec_rotate_half <$> key) rs).

(** Only the leading [p] entries of the head dimension are rotated, the
    remainder is put back unchanged. *)
Definition spec_rotate_partial (p : option nat) (key rc rs : table A) : table A :=
  match p with
  | Some p => zip_with app (spec_rotate (take p <$> key) rc rs) (drop p <$> key)
  | None => spec_rotate key rc rs
  end.

(** One block of a layer after a shift: the sink tokens, the last [kept]
    tokens rotated, the new tokens. *)
Definition spec_shift_keys (s kept : nat) (p : option nat) (rc rs : table A)
    (old new : table A) : table A :=
  take s old ++ spec_rotate_partial p (drop (length old - kept) old) rc rs ++ new.

Definition spec_shift_values (s kept : nat) (old new : table A) : table A :=
  take s old ++ drop (length old - kept) old ++ new.

End RotationSpec.

(** ** Chunks that fit the window of a SinkCache *)

Section Window.
Context {A : Type}.

(** The chunk of a call fits: it is no longer than the window on a layer
    the cache does not hold yet, and shorter than the window without the
    sink tokens on a layer it holds. *)
Definition chunk_fits (st : SinkCache.t A) (key_states : tensor A) (layer_idx : Z)
  : Prop :=
  if bool_decide (len (SinkCache.key_cache st) ≤ layer_idx)
  then shape_m2 key_states ≤ SinkCache.window_length st
  else shape_m2 key_states
       < SinkCache.window_length st - SinkCache.num_sink_tokens st.

(** Every call's chunk fits the cache as the calls before it left it. *)
Fixpoint calls_fit `{Scalar A} (st : SinkCache.t A)
    (calls : list (tensor A * tensor A * Z * option (SinkCache.kwargs A))) : Prop :=
  match calls with
  | [] => True
  | c :: calls =>
      chunk_fits st c.1.1.1 c.1.2 ∧
      calls_fit (SinkCache.update c.1.1.1 c.1.1.2 c.1.2 c.2 st).1 calls
  end.

(** The memoised correction tables for chunk length [c] have at most
    [w - s - c] rows. *)
Definition memo_bounded (w s : Z) (m : gmap Z (tensor3 A * tensor3 A)) : Prop :=
  ∀ c rc rs, m !! c = Some (rc, rs) →
    shape_m2 [rc] ≤ Z.max 0 (w - s - c) ∧ shape_m2 [rs] ≤ Z.max 0 (w - s - c).

(** No layer's keys are longer than the window. *)
Definition within_window (w s : Z) (st : SinkCache.t A) : Prop :=
  SinkCache.window_length st = w ∧
  SinkCache.num_sink_tokens st = s ∧
  Forall (λ t, shape_m2 t ≤ w) (SinkCache.key_cache st) ∧
  memo_bounded w s (SinkCache.cos_sin_cache st).

End Window.

(** ** Example data *)

(** One batch, one head, [c] tokens of head dimension 1 holding [n],
    [n + 1], ... *)
Definition chunk (n : Z) (c : nat) : tensor Z :=
  [[(λ i, [n + Z.of_nat i]) <$> seq 0 c]].

Definition two_layers : DynamicCache.t Z :=
  DynamicCache.mk [chunk 1 2; chunk 5 3] [chunk 11 2; chunk 15 3] 2.

Definition two_chunks : list (tensor Z * tensor Z) :=
  [(chunk 10 2, chunk 20 2); (chunk 12 3, chunk 22 3)].

(** One layer with two beams, of one head, one token and head dimension 1. *)
Definition two_beams : DynamicCache.t Z :=
  DynamicCache.mk [[[[[1]]]; [[[2]]]]] [[[[[11]]]; [[[12]]]]] 1.

(** A static cache of one batch, one head, eight positions and head
    dimension 1, as [__init__] leaves it, and the indices 5, 6, 7. *)
Definition eight_slots : StaticCache.t Z :=
  StaticCache.mk 1 8 1 1 (zeros 1 1 8 1) (zeros 1 1 8 1).

Definition at_5_6_7 : StaticCache.kwargs :=
  {| StaticCache.cache_position := [5; 6; 7] |}.

(** A sink cache of window 8 with 2 sink tokens that holds six tokens in
    layer 0, rotary tables for eight positions, and four one-token steps
    that carry them. *)
Definition six_of_eight : SinkCache.t Z :=
  SinkCache.mk [chunk 100 6] [chunk 200 6] 8 2 ∅ 6.

Definition with_rope : SinkCache.kwargs Z :=
  {| SinkCache.sin := Some ((λ i, [Z.of_nat i]) <$> seq 0 8);
     SinkCache.cos := Some ((λ i, [Z.of_nat i + 1]) <$> seq 0 8);
     SinkCache.partial_rotation_size := None |}.

Definition four_steps : list (tensor Z * tensor Z * Z * option (SinkCache.kwargs Z)) :=
  [(chunk 300 1, chunk 400 1, 0, Some with_rope);
   (chunk 301 1, chunk 401 1, 0, Some with_rope);
   (chunk 302 1, chunk 402 1, 0, Some with_rope);
   (chunk 303 1, chunk 403 1, 0, Some with_rope)].

(** The same cache with its window full: the next token evicts one. *)
Definition eight_of_eight : SinkCache.t Z :=
  SinkCache.mk [chunk 100 8] [chunk 200 8] 8 2 ∅ 8.

(** An options map without rotary tables, and a fresh sink cache fed six
    tokens and then four single tokens. *)
Definition no_rope : SinkCache.kwargs Z :=
  {| SinkCache.sin := None; SinkCache.cos := None;
     SinkCache.partial_rotation_size := None |}.

Definition six_then_four
  : list (tensor Z * tensor Z * Z * option (SinkCache.kwargs Z)) :=
  (chunk 100 6, chunk 200 6, 0, Some with_rope) :: four_steps.

(** * Properties *)

(** ** Reasoning about methods

    [wp m Q s]: run from state [s], the method [m] ends in a state and a
    result (a value or an exception) that satisfy [Q]. *)

Definition wp {S X} (m : M S X) (Q : result X → S → Prop) (s : S) : Prop :=
  Q (m s).2 (m s).1.

Section Wp.
Context {S : Type}.
Implicit Types s : S.

Lemma wp_ret {X} (x : X) (Q : result X → S → Prop) s :
  Q (Ok x) s → wp (mret x) Q s.
Proof. done. Qed.

Lemma wp_lift {X} (r : result X) (Q : result X → S → Prop) s :
  Q r s → wp (lift r) Q s.
Proof. done. Qed.

Lemma wp_get (Q : result S → S → Prop) s : Q (Ok s) s → wp get Q s.
Proof. done. Qed.

Lemma wp_modify (f : S → S) (Q : result unit → S → Prop) s :
  Q (Ok tt) (f s) → wp (modify f) Q s.
Proof. done. Qed.

Lemma wp_bind {X Y} (m : M S X) (f : X → M S Y) (Q : result Y → S → Prop) s :
  wp m (λ r s', match r with
                | Ok x => wp (f x) Q s'
                | Raise e => Q (Raise e) s'
                end) s →
  wp (m ≫= f) Q s.
Proof.
  unfold wp, mbind, M_bind. destruct (m s) as [s' [x|e]]; done.
Qed.

Lemma wp_when (b : bool) (m : M S unit) (Q : result unit → S → Prop) s :
  (if b then wp m Q s else Q (Ok tt) s) → wp (when b m) Q s.
Proof. by destruct b. Qed.

Lemma wp_mono {X} (m : M S X) (Q Q' : result X → S → Prop) s :
  wp m Q s → (∀ r s', Q r s' → Q' r s') → wp m Q' s.
Proof. unfold wp. auto. Qed.

End Wp.

(** One step of a method body. *)
Ltac wp_step :=
  lazymatch goal with
  | |- wp (mbind _ _) _ _ => apply wp_bind
  | |- wp (mret _) _ _ => apply wp_ret
  | |- wp (lift _) _ _ => apply wp_lift
  | |- wp get _ _ => apply wp_get
  | |- wp (modify _) _ _ => apply wp_modify
  | |- wp (when _ _) _ _ => apply wp_when
  end.

Ltac wp_go :=
  repeat (cbv beta;
    lazymatch goal with
    | |- wp (mbind _ _) _ _ => apply wp_bind
    | |- wp (mret _) _ _ => apply wp_ret
    | |- wp (lift _) _ _ => apply wp_lift
    | |- wp get _ _ => apply wp_get
    | |- wp (modify _) _ _ => apply wp_modify
    | |- wp (when _ _) _ _ => apply wp_when
    | |- wp (if bool_decide _ then _ else _) _ _ => case_bool_decide
    | |- wp (match ?o with _ => _ end) _ _ => destruct o eqn:?
    | |- if bool_decide _ then _ else _ => case_bool_decide
    | |- match ?r with Ok _ => _ | Raise _ => _ end => destruct r eqn:?
    end).

(** ** Python indexing *)

Section PyFacts.
Context {X : Type}.
Implicit Types l : list X.

Lemma norm_index_lt n i k : norm_index n i = Some k → (k < n)%nat.
Proof.
  unfold norm_index. repeat case_bool_decide; intros [= <-]; lia.
Qed.

Lemma norm_index_nat n k : (k < n)%nat → norm_index n (Z.of_nat k) = Some k.
Proof.
  intros. unfold norm_index. rewrite bool_decide_true by lia.
  by rewrite Nat2Z.id.
Qed.

Lemma norm_index_nonneg n i k :
  0 ≤ i → norm_index n i = Some k → i = Z.of_nat k.
Proof.
  unfold norm_index. repeat case_bool_decide; intros ? [= <-]; lia.
Qed.

Lemma norm_index_ge n i : Z.of_nat n ≤ i → norm_index n i = None.
Proof.
  intros. unfold norm_index. by rewrite !bool_decide_false by lia.
Qed.

Lemma getitem_Ok l i x :
  getitem l i = Ok x ↔ ∃ k, norm_index (length l) i = Some k ∧ l !! k = Some x.
Proof.
  unfold getitem. split.
  - destruct (norm_index _ _) as [k|]; [|done].
    destruct (l !! k) eqn:?; [|done]. intros [= <-]. eauto.
  - intros (k & -> & ->). done.
Qed.

Lemma getitem_nat l k x : l !! k = Some x → getitem l (Z.of_nat k) = Ok x.
Proof.
  intros Hk. apply getitem_Ok. exists k. split; [|done].
  apply norm_index_nat. by eapply lookup_lt_Some.
Qed.

Lemma setitem_Ok l i x l' :
  setitem l i x = Ok l' ↔
  ∃ k, norm_index (length l) i = Some k ∧ l' = <[k:=x]> l.
Proof.
  unfold setitem. split.
  - destruct (norm_index _ _) as [k|]; [|done]. intros [= <-]. eauto.
  - intros (k & -> & ->). done.
Qed.

Lemma getitem_setitem l i x l' : setitem l i x = Ok l' → getitem l' i = Ok x.
Proof.
  intros (k & Hk & ->)%setitem_Ok. apply getitem_Ok. exists k.
  rewrite length_insert. split; [done|].
  apply list_lookup_insert_eq. by eapply norm_index_lt.
Qed.

Lemma getitem_app_len l x : getitem (l ++ [x]) (len l) = Ok x.
Proof.
  unfold len. apply getitem_nat. by rewrite lookup_app_r, Nat.sub_diag.
Qed.

Lemma getitem_app_Ok l x i y :
  len l ≤ i → getitem (l ++ [x]) i = Ok y → i = len l ∧ y = x.
Proof.
  unfold len. intros Hi (k & Hk & Hy)%getitem_Ok.
  pose proof (norm_index_lt _ _ _ Hk) as Hlt.
  apply norm_index_nonneg in Hk; [|lia].
  rewrite length_app in Hlt. simpl in Hlt.
  assert (k = length l) as -> by lia.
  rewrite lookup_app_r, Nat.sub_diag in Hy by done.
  by injection Hy as <-.
Qed.

End PyFacts.

(** ** Queries a StaticCache does not support *)

Section StaticQueries.
Context `{Scalar A}.

(** C8. [StaticCache.get_seq_length] and [StaticCache.get_usable_length]
    raise for every argument, the defaults included, also when they are
    reached through the [Cache] interface; [StaticCache.to_legacy_cache]
    raises nothing and returns [None]. *)
Theorem static_cache_unsupported_queries (self : StaticCache.t A) :
  (∀ layer_idx, StaticCache.get_seq_length self layer_idx = Raise ValueError) ∧
  (∀ new_sequence_length layer_idx,
     StaticCache.get_usable_length self new_sequence_length layer_idx
     = Raise ValueError) ∧
  (∀ layer_idx, get_seq_length (Static self) layer_idx = Raise ValueError) ∧
  (∀ new_seq_length layer_idx,
     get_usable_length (Static self) new_seq_length layer_idx = Raise ValueError) ∧
  StaticCache.to_legacy_cache self = Ok None.
Proof. repeat split. Qed.

End StaticQueries.

(** ** The usable length *)

Section UsableLength.
Context {A : Type}.

(** C4. Where the queried layer has a current length [L], a bounded cache
    answers [max - c] if [L + c > max] and [L] otherwise, and an
    unbounded cache answers [L]. *)
Theorem usable_length_formula (self : cache A) (c layer_idx L : Z) :
  get_seq_length self layer_idx = Ok L →
  get_usable_length self c layer_idx =
    Ok (match get_max_length self with
        | Some max => if bool_decide (L + c > max) then max - c else L
        | None => L
        end).
Proof.
  destruct self as [self|self|self]; simpl; intros HL; [| |done].
  - unfold Cache.get_usable_length. simpl. by rewrite HL.
  - unfold Cache.get_usable_length. simpl. rewrite HL. simpl.
    by case_bool_decide.
Qed.

End UsableLength.

Lemma usable_length_formula_witness :
  get_usable_length
    (Sink (@SinkCache.mk Z [[[[[1]; [2]; [3]; [4]; [5]; [6]]]]]
             [[[[[1]; [2]; [3]; [4]; [5]; [6]]]]] 8 2 ∅ 6)) 3 0 = Ok 5.
Proof.
  exact (usable_length_formula
           (Sink (@SinkCache.mk Z [[[[[1]; [2]; [3]; [4]; [5]; [6]]]]]
                    [[[[[1]; [2]; [3]; [4]; [5]; [6]]]]] 8 2 ∅ 6)) 3 0 6 eq_refl).
Defined.

(** ** The seen-token counter and the options map *)

Section Counter.
Context `{Scalar A}.

Ltac counter :=
  wp_go; cbn; try done; try lia;
  try (rewrite bool_decide_true by done; done);
  try (rewrite bool_decide_false by done; lia).

Lemma dynamic_update_seen_tokens {K} (st : DynamicCache.t A) k v idx (kw : option K) :
  wp (DynamicCache.update k v idx kw)
     (λ _ st', DynamicCache.seen_tokens st' =
               DynamicCache.seen_tokens st
               + if bool_decide (idx = 0) then shape_m2 k else 0) st.
Proof. unfold DynamicCache.update. counter. Qed.

Lemma sink_update_seen_tokens (st : SinkCache.t A) k v idx kw :
  wp (SinkCache.update k v idx (Some kw))
     (λ _ st', SinkCache.seen_tokens st' =
               SinkCache.seen_tokens st
               + if bool_decide (idx = 0) then shape_m2 k else 0) st.
Proof.
  unfold SinkCache.update, SinkCache._get_rerotation_cos_sin. counter.
Qed.

(** C9. An [update] of [DynamicCache] or [SinkCache] adds the incoming
    chunk's sequence length to [seen_tokens] when [layer_idx] is 0 and
    leaves the counter as it was for every other layer, whether the call
    returns or raises later on. *)
Theorem seen_tokens_counts_layer_0 :
  (∀ K (st : DynamicCache.t A) k v idx (kw : option K),
     DynamicCache.seen_tokens (DynamicCache.update k v idx kw st).1 =
       if bool_decide (idx = 0)
       then DynamicCache.seen_tokens st + shape_m2 k
       else DynamicCache.seen_tokens st) ∧
  (∀ (st : SinkCache.t A) k v idx kw,
     SinkCache.seen_tokens (SinkCache.update k v idx (Some kw) st).1 =
       if bool_decide (idx = 0)
       then SinkCache.seen_tokens st + shape_m2 k
       else SinkCache.seen_tokens st).
Proof.
  split; intros.
  - pose proof (dynamic_update_seen_tokens st k v idx kw) as Hwp.
    unfold wp in Hwp. rewrite Hwp. case_bool_decide; lia.
  - pose proof (sink_update_seen_tokens st k v idx kw) as Hwp.
    unfold wp in Hwp. rewrite Hwp. case_bool_decide; lia.
Qed.

(** C10. With the options map left out, [SinkCache.update] and
    [StaticCache.update] raise before they touch the cache, whatever the
    other arguments are; [DynamicCache.update] never reads the map, so a
    call without it behaves as the same call with any map, and on a fresh
    cache it stores the chunk and returns it. *)
Theorem update_without_options_map :
  (∀ (st : SinkCache.t A) k v idx,
     SinkCache.update k v idx None st = (st, Raise AttributeError)) ∧
  (∀ (st : StaticCache.t A) k v idx,
     StaticCache.update k v idx None st = (st, Raise AttributeError)) ∧
  (∀ K (kw : K) (st : DynamicCache.t A) k v idx,
     DynamicCache.update k v idx (@None K) st
     = DynamicCache.update k v idx (Some kw) st) ∧
  (∀ (k v : tensor A),
     DynamicCache.update k v 0 (@None unit) DynamicCache.__init__
     = (DynamicCache.mk [k] [v] (shape_m2 k), Ok (k, v))).
Proof. repeat split. Qed.

End Counter.

(** ** Sequences of fallible computations *)

Section ListM.
Context {X Y Z : Type}.

Lemma zipM_Forall3 (f : X → Y → result Z) xs ys zs :
  zipM f xs ys = Ok zs ↔ Forall3 (λ x y z, f x y = Ok z) xs ys zs.
Proof.
  split.
  - revert ys zs. induction xs as [|x xs IH]; intros [|y ys] zs; simpl; try done.
    + intros [= <-]. constructor.
    + destruct (f x y) as [z|] eqn:Hf; simpl; [|done].
      destruct (zipM f xs ys) as [zs'|] eqn:Hz; simpl; [|done].
      intros [= <-]. constructor; auto.
  - induction 1 as [|x y z xs ys zs Hf _ IH]; simpl; [done|].
    by rewrite Hf, IH.
Qed.

Lemma forM_Forall2 (f : X → result Z) xs zs :
  forM f xs = Ok zs ↔ Forall2 (λ x z, f x = Ok z) xs zs.
Proof.
  split.
  - revert zs. induction xs as [|x xs IH]; intros zs; simpl.
    + intros [= <-]. constructor.
    + destruct (f x) as [z|] eqn:Hf; simpl; [|done].
      destruct (forM f xs) as [zs'|] eqn:Hz; simpl; [|done].
      intros [= <-]. constructor; auto.
  - induction 1 as [|x z xs zs Hf _ IH]; simpl; [done|].
    by rewrite Hf, IH.
Qed.

End ListM.

Section Broadcast.
Context {X Y Z : Type}.

Lemma bzip_singleton_r (f : X → Y → result Z) xs y :
  bzip f xs [y] = forM (λ x, f x y) xs.
Proof.
  unfold bzip. case_bool_decide as Hlen.
  - destruct xs as [|x [|??]]; done.
  - destruct xs as [|x [|??]]; done.
Qed.

Lemma bzip_lookup (f : X → Y → result Z) xs ys zs i z :
  bzip f xs ys = Ok zs → zs !! i = Some z →
  ∃ x y, xs !! bidx (length xs) i = Some x ∧ ys !! bidx (length ys) i = Some y
         ∧ f x y = Ok z.
Proof.
  unfold bzip. case_bool_decide as Hlen.
  - intros HF%zipM_Forall3 Hz.
    destruct (Forall3_lookup_r _ _ _ _ _ _ HF Hz) as (x & y & Hx & Hy & Hf).
    exists x, y. rewrite <-Hlen. unfold bidx. case_decide as H1; [|done].
    assert (i = 0%nat) as ->; [|done].
    apply lookup_lt_Some in Hx. lia.
  - destruct xs as [|x [|x' xs]].
    + destruct ys as [|y [|??]]; try done. intros [= <-]. done.
    + intros HF%forM_Forall2 Hz.
      destruct (Forall2_lookup_r _ _ _ _ _ HF Hz) as (y & Hy & Hf).
      exists x, y. unfold bidx. simpl in *. rewrite decide_False by lia. done.
    + destruct ys as [|y [|??]]; try done.
      intros HF%forM_Forall2 Hz.
      destruct (Forall2_lookup_r _ _ _ _ _ HF Hz) as (x0 & Hx & Hf).
      exists x0, y. unfold bidx. simpl. done.
Qed.

Lemma bzip_length (f : X → Y → result Z) xs ys zs :
  bzip f xs ys = Ok zs →
  (length zs = length xs ∧ (length ys = length xs ∨ length ys = 1%nat)) ∨
  (length zs = length ys ∧ length xs = 1%nat).
Proof.
  unfold bzip. case_bool_decide as Hlen.
  - intros HF%zipM_Forall3. left.
    pose proof (Forall3_length_lr _ _ _ _ HF). lia.
  - destruct xs as [|x [|x' xs]].
    + destruct ys as [|y [|??]]; try done. intros [= <-]. left. split; [done|by right].
    + intros HF%forM_Forall2. right. by apply Forall2_length in HF.
    + destruct ys as [|y [|??]]; try done.
      intros HF%forM_Forall2. left. apply Forall2_length in HF. auto.
Qed.

End Broadcast.

(** ** Slices *)

Section SliceFacts.
Context {X : Type}.
Implicit Types l : list X.

Lemma clamp_bounds n i : 0 ≤ n → 0 ≤ clamp n i ≤ n.
Proof. unfold clamp. case_bool_decide; lia. Qed.

Lemma slice_to l b : slice None (Some b) l = take (Z.to_nat (clamp (len l) b)) l.
Proof. unfold slice. simpl. by rewrite Z.sub_0_r, drop_0. Qed.

Lemma slice_from l a : slice (Some a) None l = drop (Z.to_nat (clamp (len l) a)) l.
Proof.
  unfold slice. simpl. apply take_ge. rewrite length_drop.
  unfold len. pose proof (clamp_bounds (Z.of_nat (length l)) a). lia.
Qed.

Lemma len_slice a b l :
  len (slice a b l) =
    Z.max 0 (from_option (clamp (len l)) (len l) b
             - from_option (clamp (len l)) 0 a).
Proof.
  unfold slice, len. rewrite length_take, length_drop.
  assert (0 ≤ from_option (clamp (Z.of_nat (length l))) 0 a ≤ Z.of_nat (length l)).
  { destruct a; simpl; [apply clamp_bounds|]; lia. }
  assert (0 ≤ from_option (clamp (Z.of_nat (length l))) (Z.of_nat (length l)) b
          ≤ Z.of_nat (length l)).
  { destruct b; simpl; [apply clamp_bounds|]; lia. }
  lia.
Qed.

Lemma len_nonneg l : 0 ≤ len l.
Proof. unfold len. lia. Qed.

Lemma slice_to_lookup l b (p : nat) :
  Z.of_nat p < b → slice None (Some b) l !! p = l !! p.
Proof.
  intros Hp. rewrite slice_to.
  destruct (decide (p < length l)%nat) as [Hlt|Hge].
  - apply lookup_take_lt. unfold clamp, len. case_bool_decide; lia.
  - rewrite (lookup_ge_None_2 l) by lia.
    apply lookup_ge_None_2. rewrite length_take. lia.
Qed.

End SliceFacts.

(** ** Shapes *)

Section ShapeFacts.
Context {A : Type}.
Implicit Types t a b c : tensor A.

Lemma shape_m2_slab0 t : shape_m2 t = from_option len 0 (slab0 t).
Proof. by destruct t as [|[|??]?]. Qed.

Lemma shape_m2_nonneg t : 0 ≤ shape_m2 t.
Proof. rewrite shape_m2_slab0. destruct (slab0 t); simpl; [apply len_nonneg|done]. Qed.

Lemma bidx_0 n : bidx n 0 = 0%nat.
Proof. unfold bidx. by case_decide. Qed.

Lemma cat_rows_Ok (x y z : table A) : cat_rows x y = Ok z → z = x ++ y.
Proof.
  unfold cat_rows. destruct x, y; try case_bool_decide; by intros [= <-].
Qed.

Lemma slab0_lookup t m :
  slab0 t = Some m ↔
  ∃ th, t !! 0%nat = Some th ∧ th !! 0%nat = Some m.
Proof.
  split.
  - destruct t as [|[|m' ?] ?]; simpl; try done. intros [= <-]. eauto.
  - intros (th & Ht & Hm). destruct t as [|th' ?]; simplify_eq/=.
    by destruct th; simplify_eq/=.
Qed.

Lemma cat2_m2_slab0 a b c :
  cat2_m2 a b = Ok c →
  slab0 c = x ← slab0 a; y ← slab0 b; Some (x ++ y).
Proof.
  intros HF%zipM_Forall3.
  destruct HF as [|ah bh ch a' b' c' Hh _]; [done|].
  apply zipM_Forall3 in Hh.
  destruct Hh as [|x y z ? ? ? Hxy _]; [done|]. simpl.
  by apply cat_rows_Ok in Hxy as ->.
Qed.

Lemma cat2_m2_slab0_None a b c :
  cat2_m2 a b = Ok c → slab0 a = None ↔ slab0 b = None.
Proof.
  intros HF%zipM_Forall3.
  destruct HF as [|ah bh ch a' b' c' Hh _]; [done|].
  apply zipM_Forall3 in Hh. by destruct Hh.
Qed.

Lemma shape_m2_cat2 a b c :
  cat2_m2 a b = Ok c → shape_m2 c = shape_m2 a + shape_m2 b.
Proof.
  intros Hc. rewrite !shape_m2_slab0, (cat2_m2_slab0 _ _ _ Hc).
  pose proof (cat2_m2_slab0_None _ _ _ Hc) as Hn.
  destruct (slab0 a) as [x|], (slab0 b) as [y|]; simpl.
  - unfold len. rewrite length_app. lia.
  - destruct Hn as [_ Hn]. by specialize (Hn eq_refl).
  - destruct Hn as [Hn _]. by specialize (Hn eq_refl).
  - done.
Qed.

Lemma shape_m2_cat_pair a b c : cat_m2 [a; b] = Ok c → shape_m2 c = shape_m2 a + shape_m2 b.
Proof.
  simpl. destruct (cat2_m2 a b) as [c'|] eqn:Hc; simpl; [|done].
  intros [= <-]. by apply shape_m2_cat2.
Qed.

Lemma shape_m2_cat_triple a b c d :
  cat_m2 [a; b; c] = Ok d → shape_m2 d = shape_m2 a + shape_m2 b + shape_m2 c.
Proof.
  simpl. destruct (cat2_m2 a b) as [ab|] eqn:Hab; simpl; [|done].
  destruct (cat2_m2 ab c) as [abc|] eqn:Habc; simpl; [|done].
  intros [= <-].
  by rewrite (shape_m2_cat2 _ _ _ Habc), (shape_m2_cat2 _ _ _ Hab).
Qed.

Lemma slab0_slice_seq lo hi t : slab0 (slice_seq lo hi t) = slice lo hi <$> slab0 t.
Proof. by destruct t as [|[|??]?]. Qed.

Lemma shape_m2_slice_seq lo hi t :
  shape_m2 (slice_seq lo hi t) = from_option (λ m, len (slice lo hi m)) 0 (slab0 t).
Proof. rewrite shape_m2_slab0, slab0_slice_seq. by destruct (slab0 t). Qed.

Lemma shape_m2_slice_dim lo hi t : shape_m2 (slice_dim lo hi t) = shape_m2 t.
Proof.
  destruct t as [|[|??]?]; simpl; try done. unfold len. by rewrite length_fmap.
Qed.

Lemma shape_m2_map4d f t : shape_m2 (map4d f t) = shape_m2 t.
Proof.
  destruct t as [|[|??]?]; simpl; try done. unfold map2d, len.
  by rewrite length_fmap.
Qed.

Lemma shape_m2_cat2_m1 a b c : cat2_m1 a b = Ok c → shape_m2 c = shape_m2 a.
Proof.
  intros HF%zipM_Forall3. rewrite !shape_m2_slab0.
  destruct HF as [|ah bh ch a' b' c' Hh _]; [done|].
  apply zipM_Forall3 in Hh.
  destruct Hh as [|x y z ? ? ? Hxy _]; [done|]. simpl.
  apply zipM_Forall3 in Hxy. unfold len.
  by rewrite (Forall3_length_lr _ _ _ _ Hxy).
Qed.

Lemma shape_m2_cat_m1_pair a b c : cat_m1 [a; b] = Ok c → shape_m2 c = shape_m2 a.
Proof.
  simpl. destruct (cat2_m1 a b) as [c'|] eqn:Hc; simpl; [|done].
  intros [= <-]. by eapply shape_m2_cat2_m1.
Qed.

(** The sequence extent of an element-wise result: that of an operand,
    the other agreeing with it or being broadcast from extent 1. *)
Lemma shape_m2_ew4 op a b c :
  ew4 op a b = Ok c →
  shape_m2 c = 0 ∨
  (shape_m2 c = shape_m2 a ∧ (shape_m2 b = shape_m2 a ∨ shape_m2 b = 1)) ∨
  (shape_m2 c = shape_m2 b ∧ shape_m2 a = 1).
Proof.
  intros Hc. rewrite (shape_m2_slab0 c).
  destruct (slab0 c) as [mc|] eqn:Hs; simpl; [|by left].
  right. apply slab0_lookup in Hs as (ch & Hc0 & Hmc).
  destruct (bzip_lookup _ _ _ _ _ _ Hc Hc0) as (ah & bh & Ha0 & Hb0 & H3).
  destruct (bzip_lookup _ _ _ _ _ _ H3 Hmc) as (ma & mb & Hma & Hmb & H2).
  rewrite bidx_0 in *.
  assert (slab0 a = Some ma) as Ha by (apply slab0_lookup; eauto).
  assert (slab0 b = Some mb) as Hb by (apply slab0_lookup; eauto).
  rewrite (shape_m2_slab0 a), (shape_m2_slab0 b), Ha, Hb. simpl.
  apply bzip_length in H2. unfold len. lia.
Qed.

End ShapeFacts.

(** ** DynamicCache *)

Arguments cat_m2 : simpl never.
Arguments cat_m1 : simpl never.

Section Dynamic.
Context {A : Type}.
Implicit Types st : DynamicCache.t A.
Implicit Types k v : tensor A.

Lemma setitem_length {X} (l l' : list X) i x :
  setitem l i x = Ok l' → len l' = len l.
Proof. intros (n & _ & ->)%setitem_Ok. unfold len. by rewrite length_insert. Qed.

(** What a call of [update] that returns has done. *)
Lemma dynamic_update_spec {K} st k v idx (kw : option K) :
  wp (DynamicCache.update k v idx kw)
     (λ r st',
        match r with
        | Ok (k', v') =>
            if bool_decide (len (DynamicCache.key_cache st) ≤ idx) then
              DynamicCache.key_cache st' = DynamicCache.key_cache st ++ [k] ∧
              DynamicCache.value_cache st' = DynamicCache.value_cache st ++ [v] ∧
              idx = len (DynamicCache.key_cache st) ∧ k' = k
            else
              ∃ old_k old_v,
                getitem (DynamicCache.key_cache st) idx = Ok old_k ∧
                getitem (DynamicCache.value_cache st) idx = Ok old_v ∧
                cat_m2 [old_k; k] = Ok k' ∧ cat_m2 [old_v; v] = Ok v' ∧
                setitem (DynamicCache.key_cache st) idx k'
                = Ok (DynamicCache.key_cache st') ∧
                setitem (DynamicCache.value_cache st) idx v'
                = Ok (DynamicCache.value_cache st')
        | Raise _ => True
        end) st.
Proof.
  unfold DynamicCache.update. wp_go; try done; simpl in *.
  all: try (match goal with
            | Hg : getitem (_ ++ [_]) _ = Ok _ |- _ ∧ _ =>
                apply getitem_app_Ok in Hg as [-> ->]; done
            end).
  all: repeat match goal with
         | Hs : setitem ?l ?i ?x = Ok ?l', Hg : getitem ?l' ?i = Ok ?y |- _ =>
             rewrite (getitem_setitem _ _ _ _ Hs) in Hg; injection Hg as <-
         end; eauto 10.
Qed.

Lemma dynamic_update_length {K} st k v idx (kw : option K) st' k' v' L :
  DynamicCache.update k v idx kw st = (st', Ok (k', v')) →
  DynamicCache.get_seq_length st idx = Ok L →
  DynamicCache.get_seq_length st' idx = Ok (L + shape_m2 k) ∧
  shape_m2 k' = L + shape_m2 k.
Proof.
  intros Hup. pose proof (dynamic_update_spec st k v idx kw) as Hwp.
  unfold wp in Hwp. rewrite Hup in Hwp. simpl in Hwp.
  unfold DynamicCache.get_seq_length. case_bool_decide as Hlen.
  - destruct Hwp as (Hk & _ & Hidx & ->). intros [= <-].
    rewrite Hk. rewrite bool_decide_false.
    2:{ unfold len in *. rewrite length_app. simpl. lia. }
    rewrite Hidx, getitem_app_len. simpl. split; [f_equal|]; lia.
  - destruct Hwp as (old_k & old_v & Hgk & _ & Hcat & _ & Hset & _).
    rewrite Hgk. simpl. intros [= <-].
    rewrite bool_decide_false by (by rewrite (setitem_length _ _ _ _ Hset)).
    rewrite (getitem_setitem _ _ _ _ Hset). simpl.
    rewrite (shape_m2_cat_pair _ _ _ Hcat). done.
Qed.

Lemma seqM_length {S X} (ms : list (M S X)) s s' xs :
  seqM ms s = (s', Ok xs) → length xs = length ms.
Proof.
  revert s xs. induction ms as [|m ms IH]; intros s xs; simpl.
  - by intros [= <- <-].
  - unfold mbind at 1, M_bind at 1. destruct (m s) as [s1 [x|]]; [|done].
    unfold mbind at 1, M_bind at 1.
    destruct (seqM ms s1) as [s2 [xs'|]] eqn:Hrest; [|done].
    intros [= <- <-]. simpl. f_equal. eauto.
Qed.

(** C5. Starting from a layer of length [L] (0 for a layer not yet
    initialised), [N] calls of [update] on that layer that all return
    leave [get_seq_length] at [L] plus the sum of the chunk lengths, the
    sequence extent of the key returned by the last call. A call on a
    layer not yet initialised appends the states as they are; a call on
    an initialised layer stores and returns the concatenation of the old
    tensor and the chunk along the sequence axis, nothing being dropped. *)
Theorem dynamic_cache_growth {K} st (layer_idx : Z)
    (chunks : list (tensor A * tensor A)) (kw : option K) L st' outs :
  DynamicCache.get_seq_length st layer_idx = Ok L →
  seqM ((λ kv, DynamicCache.update kv.1 kv.2 layer_idx kw) <$> chunks) st
  = (st', Ok outs) →
  DynamicCache.get_seq_length st' layer_idx
  = Ok (L + foldr Z.add 0 ((λ kv, shape_m2 kv.1) <$> chunks)) ∧
  length outs = length chunks ∧
  (∀ k' v', last outs = Some (k', v') →
     shape_m2 k' = L + foldr Z.add 0 ((λ kv, shape_m2 kv.1) <$> chunks)) ∧
  (∀ k v st1 k' v',
     DynamicCache.update k v layer_idx kw st = (st1, Ok (k', v')) →
     if bool_decide (len (DynamicCache.key_cache st) ≤ layer_idx) then
       DynamicCache.key_cache st1 = DynamicCache.key_cache st ++ [k] ∧
       DynamicCache.value_cache st1 = DynamicCache.value_cache st ++ [v] ∧
       k' = k
     else
       ∃ old_k old_v,
         getitem (DynamicCache.key_cache st) layer_idx = Ok old_k ∧
         getitem (DynamicCache.value_cache st) layer_idx = Ok old_v ∧
         cat_m2 [old_k; k] = Ok k' ∧ cat_m2 [old_v; v] = Ok v' ∧
         getitem (DynamicCache.key_cache st1) layer_idx = Ok k' ∧
         getitem (DynamicCache.value_cache st1) layer_idx = Ok v').
Proof.
  intros HL Hrun. split_and!.
  - revert st L outs HL Hrun.
    induction chunks as [|[k v] chunks IH]; intros st L outs HL;
      [|simpl in IH]; simpl.
    + intros [= <- <-]. by rewrite Z.add_0_r.
    + unfold mbind at 1, M_bind at 1.
      destruct (DynamicCache.update k v layer_idx kw st) as [st1 [[k' v']|]] eqn:Hup;
        [|done].
      destruct (dynamic_update_length _ _ _ _ _ _ _ _ _ Hup HL) as [HL1 _].
      unfold mbind at 1, M_bind at 1.
      destruct (seqM _ st1) as [st2 [outs'|]] eqn:Hrest; [|done].
      intros [= <- <-]. rewrite (IH _ _ _ HL1 Hrest). f_equal.
      symmetry. apply Z.add_assoc.
  - apply seqM_length in Hrun. by rewrite length_fmap in Hrun.
  - revert st L outs HL Hrun.
    induction chunks as [|[k v] chunks IH]; intros st L outs HL;
      [|simpl in IH]; simpl.
    + by intros [= <- <-].
    + unfold mbind at 1, M_bind at 1.
      destruct (DynamicCache.update k v layer_idx kw st) as [st1 [[k1 v1]|]] eqn:Hup;
        [|done].
      destruct (dynamic_update_length _ _ _ _ _ _ _ _ _ Hup HL) as [HL1 Hk1].
      unfold mbind at 1, M_bind at 1.
      destruct (seqM _ st1) as [st2 [outs'|]] eqn:Hrest; [|done].
      intros [= <- <-] k' v' Hlast.
      destruct outs' as [|o outs'].
      * simpl in Hlast. injection Hlast as <- <-.
        apply seqM_length in Hrest. rewrite length_fmap in Hrest.
        destruct chunks; [|done]. simpl. lia.
      * rewrite last_cons_cons in Hlast.
        rewrite (IH _ _ _ HL1 Hrest _ _ Hlast). symmetry. apply Z.add_assoc.
  - intros k v st1 k' v' Hup.
    pose proof (dynamic_update_spec st k v layer_idx kw) as Hwp.
    unfold wp in Hwp. rewrite Hup in Hwp. simpl in Hwp.
    case_bool_decide.
    + by destruct Hwp as (? & ? & ? & ?).
    + destruct Hwp as (old_k & old_v & ? & ? & ? & ? & Hsk & Hsv).
      exists old_k, old_v. split_and!; try done.
      * by apply (getitem_setitem _ _ _ _ Hsk).
      * by apply (getitem_setitem _ _ _ _ Hsv).
Qed.


Lemma dynamic_update_append {K} st k v (kw : option K) :
  length (DynamicCache.key_cache st) = length (DynamicCache.value_cache st) →
  DynamicCache.update k v (len (DynamicCache.key_cache st)) kw st
  = (DynamicCache.mk (DynamicCache.key_cache st ++ [k])
       (DynamicCache.value_cache st ++ [v])
       (if bool_decide (len (DynamicCache.key_cache st) = 0)
        then DynamicCache.seen_tokens st + shape_m2 k
        else DynamicCache.seen_tokens st),
     Ok (k, v)).
Proof.
  destruct st as [kc vc seen]. simpl. intros Hlen.
  unfold DynamicCache.update, when.
  case_bool_decide; unfold mbind, M_bind, mret, M_ret, get, modify, lift; simpl.
  all: rewrite bool_decide_true by done.
  all: simpl.
  all: rewrite (getitem_app_len kc k).
  all: unfold len; rewrite Hlen; fold (len vc); by rewrite getitem_app_len.
Qed.

Lemma range_len {X} (l : list X) : range (len l) = Z.of_nat <$> seq 0 (length l).
Proof. unfold range, len. by rewrite Nat2Z.id. Qed.

Lemma dynamic_to_legacy st :
  length (DynamicCache.key_cache st) = length (DynamicCache.value_cache st) →
  DynamicCache.to_legacy_cache st
  = Ok (zip (DynamicCache.key_cache st) (DynamicCache.value_cache st)).
Proof.
  intros Hlen. unfold DynamicCache.to_legacy_cache, DynamicCache.__len__.
  rewrite range_len. apply forM_Forall2, Forall2_same_length_lookup.
  split.
  - rewrite length_fmap, length_seq, length_zip. lia.
  - intros i z [k v] Hz Hkv.
    apply list_lookup_fmap_Some in Hz as (j & -> & Hj).
    apply lookup_seq in Hj as [-> _]. simpl in *.
    apply lookup_zip_with_Some in Hkv as (k' & v' & [= <- <-] & Hk & Hv).
    by rewrite (getitem_nat _ _ _ Hk), (getitem_nat _ _ _ Hv).
Qed.

Lemma dynamic_from_legacy_loop (pre rest : list (tensor A * tensor A)) st :
  DynamicCache.key_cache st = pre.*1 →
  DynamicCache.value_cache st = pre.*2 →
  ∃ n,
    for_ (Z.of_nat <$> seq (length pre) (length rest))
      (λ layer_idx,
         '(key_states, value_states) ← lift (getitem (pre ++ rest) layer_idx);
         DynamicCache.update key_states value_states layer_idx (@None unit);;
         mret tt) st
    = (DynamicCache.mk (pre ++ rest).*1 (pre ++ rest).*2 n, Ok tt).
Proof.
  revert pre st. induction rest as [|[k v] rest IH]; intros pre st Hk Hv.
  - exists (DynamicCache.seen_tokens st). simpl. rewrite app_nil_r.
    destruct st; simpl in *; by subst.
  - simpl. unfold mbind at 1, M_bind at 1. unfold mbind at 1, M_bind at 1.
    unfold lift at 1.
    rewrite (getitem_nat _ _ (k, v)) by (by rewrite lookup_app_r, Nat.sub_diag).
    unfold mbind at 1, M_bind at 1.
    assert (Z.of_nat (length pre) = len (DynamicCache.key_cache st)) as ->.
    { unfold len. by rewrite Hk, length_fmap. }
    rewrite dynamic_update_append by (by rewrite Hk, Hv, !length_fmap).
    unfold mret at 1, M_ret at 1.
    set (st1 := DynamicCache.mk _ _ _).
    destruct (IH (pre ++ [(k, v)]) st1) as [n Hn].
    { simpl. by rewrite Hk, fmap_app. }
    { simpl. by rewrite Hv, fmap_app. }
    exists n. rewrite length_app in Hn. simpl in Hn.
    rewrite Nat.add_1_r, <-app_assoc in Hn. simpl in Hn. exact Hn.
Qed.

(** C3. For a cache that holds a value tensor for every key tensor,
    [to_legacy_cache] returns the layers in order as (key, value) pairs,
    and [from_legacy_cache] of that tuple is a cache whose key and value
    lists are those of the original, layer by layer. *)
Theorem dynamic_legacy_round_trip st :
  length (DynamicCache.key_cache st) = length (DynamicCache.value_cache st) →
  ∃ legacy cache,
    DynamicCache.to_legacy_cache st = Ok legacy ∧
    legacy = zip (DynamicCache.key_cache st) (DynamicCache.value_cache st) ∧
    DynamicCache.from_legacy_cache (Some legacy) = Ok cache ∧
    DynamicCache.key_cache cache = DynamicCache.key_cache st ∧
    DynamicCache.value_cache cache = DynamicCache.value_cache st ∧
    ∀ layer_idx,
      getitem (DynamicCache.key_cache cache) layer_idx
      = getitem (DynamicCache.key_cache st) layer_idx ∧
      getitem (DynamicCache.value_cache cache) layer_idx
      = getitem (DynamicCache.value_cache st) layer_idx.
Proof.
  intros Hlen.
  set (legacy := zip (DynamicCache.key_cache st) (DynamicCache.value_cache st)).
  destruct (dynamic_from_legacy_loop [] legacy DynamicCache.__init__)
    as [n Hn]; [done..|].
  exists legacy, (DynamicCache.mk legacy.*1 legacy.*2 n).
  assert (legacy.*1 = DynamicCache.key_cache st) as Hk
    by (apply fst_zip; lia).
  assert (legacy.*2 = DynamicCache.value_cache st) as Hv
    by (apply snd_zip; lia).
  split_and!; try done.
  - by apply dynamic_to_legacy.
  - unfold DynamicCache.from_legacy_cache. rewrite range_len.
    simpl in Hn. by rewrite Hn.
  - intros. simpl. by rewrite Hk, Hv.
Qed.

End Dynamic.

Lemma dynamic_cache_growth_witness :
  DynamicCache.get_seq_length (A := Z) DynamicCache.__init__ 0 = Ok 0 ∧
  seqM ((λ kv, DynamicCache.update kv.1 kv.2 0 (@None unit)) <$> two_chunks)
    DynamicCache.__init__
  = (DynamicCache.mk [chunk 10 5] [chunk 20 5] 5,
     Ok [(chunk 10 2, chunk 20 2); (chunk 10 5, chunk 20 5)]) ∧
  DynamicCache.get_seq_length (DynamicCache.mk [chunk 10 5] [chunk 20 5] 5) 0
  = Ok 5.
Proof.
  split; [reflexivity|]. split; [reflexivity|].
  exact (proj1 (dynamic_cache_growth (K := unit) DynamicCache.__init__ 0
                  two_chunks None 0
                  (DynamicCache.mk [chunk 10 5] [chunk 20 5] 5)
                  [(chunk 10 2, chunk 20 2); (chunk 10 5, chunk 20 5)]
                  eq_refl eq_refl)).
Defined.

Lemma dynamic_legacy_round_trip_witness :
  length (DynamicCache.key_cache two_layers)
  = length (DynamicCache.value_cache two_layers) ∧
  ∃ legacy cache,
    DynamicCache.to_legacy_cache two_layers = Ok legacy ∧
    legacy = zip (DynamicCache.key_cache two_layers)
                 (DynamicCache.value_cache two_layers) ∧
    DynamicCache.from_legacy_cache (Some legacy) = Ok cache ∧
    DynamicCache.key_cache cache = DynamicCache.key_cache two_layers ∧
    DynamicCache.value_cache cache = DynamicCache.value_cache two_layers ∧
    ∀ layer_idx,
      getitem (DynamicCache.key_cache cache) layer_idx
      = getitem (DynamicCache.key_cache two_layers) layer_idx ∧
      getitem (DynamicCache.value_cache cache) layer_idx
      = getitem (DynamicCache.value_cache two_layers) layer_idx.
Proof.
  split; [reflexivity|]. apply dynamic_legacy_round_trip. reflexivity.
Defined.

(** ** Index assignment *)

Section IndexPut.
Context {A : Type}.
Implicit Types m : table A.
Implicit Types t : tensor A.

Lemma expand_Ok_length {X} n (xs ys : list X) :
  expand n xs = Ok ys → length ys = n.
Proof.
  unfold expand. case_bool_decide; [by intros [= <-]|].
  destruct xs as [|x [|??]]; try done. intros [= <-]. apply length_replicate.
Qed.

Lemma expand_exact {X} n (xs : list X) : length xs = n → expand n xs = Ok xs.
Proof. intros. unfold expand. by rewrite bool_decide_true. Qed.

Lemma names_cons n q positions p :
  names n (q :: positions) p ↔ norm_index n q = Some p ∨ names n positions p.
Proof.
  unfold names. split.
  - intros (q' & [->|Hq]%elem_of_cons & Hn); eauto.
  - intros [Hn|(q' & Hq & Hn)]; [exists q|exists q']; split; try done;
      apply elem_of_cons; auto.
Qed.

Lemma put_rows_length m positions vals m' :
  put_rows m positions vals = Ok m' → length m' = length m.
Proof.
  revert m vals. induction positions as [|q positions IH]; intros m vals; simpl.
  - by intros [= <-].
  - destruct vals as [|v vals]; [by intros [= <-]|].
    destruct (norm_index (length m) q) as [k|]; [|done].
    destruct (expand _ v) as [v'|]; simpl; [|done].
    intros Hm'%IH. by rewrite length_insert in Hm'.
Qed.

(** A position that no index names keeps its row. *)
Lemma put_rows_frame m positions vals m' p :
  put_rows m positions vals = Ok m' →
  ¬ names (length m) positions p → m' !! p = m !! p.
Proof.
  revert m vals. induction positions as [|q positions IH]; intros m vals; simpl.
  - by intros [= <-].
  - destruct vals as [|v vals]; [by intros [= <-]|].
    destruct (norm_index (length m) q) as [k|] eqn:Hk; [|done].
    destruct (expand _ v) as [v'|]; simpl; [|done].
    intros Hm' Hp. rewrite names_cons in Hp.
    rewrite (IH _ _ Hm').
    + apply list_lookup_insert_ne. intros ->. apply Hp. by left.
    + rewrite length_insert. intros Hn. apply Hp. by right.
Qed.

(** Rows keep their width. *)
Lemma put_rows_width m positions vals m' p :
  put_rows m positions vals = Ok m' → length (m' !!! p) = length (m !!! p).
Proof.
  revert m vals. induction positions as [|q positions IH]; intros m vals; simpl.
  - by intros [= <-].
  - destruct vals as [|v vals]; [by intros [= <-]|].
    destruct (norm_index (length m) q) as [k|] eqn:Hk; [|done].
    destruct (expand _ v) as [v'|] eqn:Hv; simpl; [|done].
    intros Hm'. rewrite (IH _ _ Hm').
    destruct (decide (k = p)) as [->|Hne].
    + rewrite list_lookup_total_insert_eq by (by eapply norm_index_lt).
      by apply expand_Ok_length in Hv.
    + by rewrite list_lookup_total_insert_ne.
Qed.

(** The position named by index [j], and by no later index, holds row [j]
    of the values, broadcast to the width of the row it replaces. *)
Lemma put_rows_written m positions vals m' j q p v :
  put_rows m positions vals = Ok m' →
  positions !! j = Some q → vals !! j = Some v →
  norm_index (length m) q = Some p →
  ¬ names (length m) (drop (S j) positions) p →
  expand (length (m !!! p)) v = Ok (m' !!! p) ∧ (p < length m')%nat.
Proof.
  revert m vals j. induction positions as [|q0 positions IH]; intros m vals j;
    [done|]. simpl.
  destruct vals as [|v0 vals]; [done|].
  destruct (norm_index (length m) q0) as [k|] eqn:Hk; [|done].
  destruct (expand _ v0) as [v'|] eqn:Hv; simpl; [|done].
  intros Hm' Hq Hvj Hp Hlater.
  destruct j as [|j]; simpl in *.
  - injection Hq as ->. injection Hvj as ->. rewrite Hk in Hp.
    injection Hp as ->.
    pose proof (norm_index_lt _ _ _ Hk) as Hlt.
    pose proof (put_rows_length _ _ _ _ Hm') as Hlen.
    rewrite length_insert in Hlen.
    split; [|lia].
    rewrite Hv. f_equal.
    pose proof (put_rows_frame _ _ _ _ p Hm') as Hfr.
    rewrite length_insert in Hfr. specialize (Hfr Hlater).
    rewrite list_lookup_insert_eq in Hfr by done.
    apply list_lookup_total_correct in Hfr. done.
  - edestruct (IH (<[k:=v']> m) vals j) as [He Hlt]; try done.
    + by rewrite length_insert.
    + by rewrite length_insert.
    + split; [|done]. rewrite <-He. f_equal.
      destruct (decide (k = p)) as [->|Hne].
      * rewrite list_lookup_total_insert_eq by (by eapply norm_index_lt).
        by apply expand_Ok_length in Hv.
      * by rewrite list_lookup_total_insert_ne.
Qed.

End IndexPut.

Section IndexPutTensor.
Context {A : Type}.
Implicit Types m : table A.
Implicit Types t v : tensor A.

Lemma zipM_ext {X Y Z} (f g : X → Y → result Z) xs ys :
  (∀ i x y, xs !! i = Some x → ys !! i = Some y → f x y = g x y) →
  zipM f xs ys = zipM g xs ys.
Proof.
  revert ys. induction xs as [|x xs IH]; intros [|y ys] Hfg; simpl; try done.
  rewrite (Hfg 0%nat x y) by done.
  rewrite IH; [done|]. intros i. apply (Hfg (S i)).
Qed.

Lemma zipM_total {X Y Z} (f : X → Y → result Z) xs ys :
  length xs = length ys →
  (∀ i x y, xs !! i = Some x → ys !! i = Some y → ∃ z, f x y = Ok z) →
  ∃ zs, zipM f xs ys = Ok zs.
Proof.
  revert ys. induction xs as [|x xs IH]; intros [|y ys] Hlen Hf; simpl; try done.
  - by exists [].
  - destruct (Hf 0%nat x y) as [z ->]; try done.
    destruct (IH ys) as [zs ->]; [by simplify_eq/=| |by eexists].
    intros i. apply (Hf (S i)).
Qed.

Lemma index_put_slab t positions v t' b h :
  index_put t positions v = Ok t' →
  match slab t b h, slab t' b h with
  | Some m, Some m' =>
      ∃ vals, put_rows m positions vals = Ok m' ∧ length vals = length positions
  | None, None => True
  | _, _ => False
  end.
Proof.
  unfold index_put, slab.
  destruct (expand (length t) v) as [vb|]; simpl; [|done].
  intros HF%zipM_Forall3.
  destruct (t !! b) as [th|] eqn:Hth.
  - destruct (Forall3_lookup_l _ _ _ _ _ _ HF Hth) as (vh & th' & Hvh & -> & Hh).
    destruct (expand (length th) vh) as [vh'|]; simpl in Hh; [|done].
    apply zipM_Forall3 in Hh.
    destruct (th !! h) as [m|] eqn:Hm.
    + destruct (Forall3_lookup_l _ _ _ _ _ _ Hh Hm) as (vals & m' & _ & -> & Hp).
      destruct (expand (length positions) vals) as [vals'|] eqn:He; simpl in Hp;
        [|done].
      exists vals'. split; [done|]. by eapply expand_Ok_length.
    + apply Forall3_length_lr in Hh.
      apply lookup_ge_None in Hm.
      rewrite (lookup_ge_None_2 th'); [done|lia].
  - apply Forall3_length_lr in HF. apply lookup_ge_None in Hth.
    rewrite (lookup_ge_None_2 t'); [done|lia].
Qed.

(** Index assignment leaves every position that no index names as it was. *)
Lemma index_put_frame t positions v t' b h p :
  index_put t positions v = Ok t' →
  (∀ m, slab t b h = Some m → ¬ names (length m) positions p) →
  tok t' b h p = tok t b h p.
Proof.
  intros Hput Hp. pose proof (index_put_slab _ _ _ _ b h Hput) as Hs.
  unfold tok. destruct (slab t b h) as [m|], (slab t' b h) as [m'|]; try done.
  destruct Hs as (vals & Hrows & _). eapply put_rows_frame; eauto.
Qed.

Lemma has_shape_slab bb hh n d t b h m :
  has_shape bb hh n d t → slab t b h = Some m →
  length m = n ∧ Forall (λ r, length r = d) m.
Proof.
  intros [_ Ht]. unfold slab. destruct (t !! b) as [th|] eqn:Hth; [|done].
  intros Hm. rewrite Forall_lookup in Ht. destruct (Ht _ _ Hth) as [_ Hh].
  rewrite Forall_lookup in Hh. by apply (Hh _ _ Hm).
Qed.

Lemma index_put_exact bb hh n d k t positions v :
  has_shape bb hh n d t → has_shape bb hh k d v → length positions = k →
  index_put t positions v
  = zipM (zipM (λ m vals, put_rows m positions vals)) t v.
Proof.
  intros [Hb Ht] [Hvb Hv] Hpos. unfold index_put.
  rewrite expand_exact by lia. simpl.
  apply zipM_ext. intros i th vh Hth Hvh.
  rewrite Forall_lookup in Ht. destruct (Ht _ _ Hth) as [Hth_len _].
  rewrite Forall_lookup in Hv. destruct (Hv _ _ Hvh) as [Hvh_len Hvh_all].
  rewrite expand_exact by lia. simpl.
  apply zipM_ext. intros j m vals _ Hvals.
  rewrite Forall_lookup in Hvh_all. destruct (Hvh_all _ _ Hvals) as [Hlen _].
  rewrite expand_exact by lia. done.
Qed.

Lemma put_rows_total d m positions vals :
  Forall (λ r, length r = d) m → Forall (λ r, length r = d) vals →
  Forall (λ q, is_Some (norm_index (length m) q)) positions →
  ∃ m', put_rows m positions vals = Ok m' ∧ Forall (λ r, length r = d) m'.
Proof.
  revert m vals. induction positions as [|q positions IH]; intros m vals Hm Hv Hq.
  - by exists m.
  - destruct vals as [|v vals]; [by exists m|]. simpl.
    apply Forall_cons in Hq as [[k Hk] Hq]. rewrite Hk.
    apply Forall_cons in Hv as [Hv0 Hv].
    pose proof (norm_index_lt _ _ _ Hk) as Hlt.
    assert (length (m !!! k) = d) as ->.
    { rewrite Forall_lookup in Hm. eapply Hm, list_lookup_lookup_total_lt. lia. }
    rewrite expand_exact by done. simpl. apply IH; try done.
    + by apply Forall_insert.
    + by rewrite length_insert.
Qed.



End IndexPutTensor.

(** ** StaticCache *)

Section Static.
Context `{Scalar A}.
Implicit Types m : table A.
Implicit Types t v : tensor A.

Lemma has_shape_slab_None bb hh n d k t v b h :
  has_shape bb hh n d t → has_shape bb hh k d v →
  slab t b h = None → slab v b h = None.
Proof.
  intros [Hb Ht] [Hvb Hv]. unfold slab.
  destruct (t !! b) as [th|] eqn:Hth.
  - intros Hh. destruct (v !! b) as [vh|] eqn:Hvh; [|done].
    rewrite Forall_lookup in Ht. destruct (Ht _ _ Hth) as [Hl _].
    rewrite Forall_lookup in Hv. destruct (Hv _ _ Hvh) as [Hl' _].
    apply lookup_ge_None in Hh. apply lookup_ge_None. lia.
  - intros _. apply lookup_ge_None in Hth.
    rewrite (lookup_ge_None_2 v); [done|lia].
Qed.

(** On a buffer and a value of matching shapes, with every index in
    range, index assignment succeeds and works block by block. *)
Lemma index_put_ok bb hh n d k t positions v :
  has_shape bb hh n d t → has_shape bb hh k d v → length positions = k →
  Forall (λ q, is_Some (norm_index n q)) positions →
  ∃ t', index_put t positions v = Ok t' ∧ has_shape bb hh n d t' ∧
        ∀ b h m, slab t b h = Some m →
          ∃ m' vals, slab t' b h = Some m' ∧ slab v b h = Some vals ∧
                     put_rows m positions vals = Ok m'.
Proof.
  intros Ht Hv Hpos Hq.
  rewrite (index_put_exact _ _ _ _ _ _ _ _ Ht Hv Hpos).
  destruct Ht as [Hb Ht], Hv as [Hvb Hv].
  rewrite Forall_lookup in Ht. rewrite Forall_lookup in Hv.
  destruct (zipM_total (zipM (λ m vals, put_rows m positions vals)) t v)
    as [t' Ht']; [lia| |].
  { intros i th vh Hth Hvh.
    destruct (Ht _ _ Hth) as [Hl Hth_all], (Hv _ _ Hvh) as [Hl' Hvh_all].
    apply zipM_total; [lia|]. intros j m vals Hm Hvals.
    rewrite Forall_lookup in Hth_all. destruct (Hth_all _ _ Hm) as [Hn Hm_all].
    rewrite Forall_lookup in Hvh_all. destruct (Hvh_all _ _ Hvals) as [_ Hv_all].
    destruct (put_rows_total d m positions vals) as [m' [Hm' _]]; try done.
    - by rewrite Hn.
    - by exists m'. }
  exists t'. split; [done|].
  pose proof Ht' as HF. apply zipM_Forall3 in HF. split.
  - split; [apply Forall3_length_lr in HF; lia|].
    apply Forall_lookup. intros i th' Hth'.
    destruct (Forall3_lookup_r _ _ _ _ _ _ HF Hth') as (th & vh & Hth & Hvh & Hh).
    destruct (Ht _ _ Hth) as [Hl Hth_all], (Hv _ _ Hvh) as [Hl' Hvh_all].
    apply zipM_Forall3 in Hh. split; [apply Forall3_length_lr in Hh; lia|].
    apply Forall_lookup. intros j m' Hm'.
    destruct (Forall3_lookup_r _ _ _ _ _ _ Hh Hm') as (m & vals & Hm & Hvals & Hp).
    rewrite Forall_lookup in Hth_all. destruct (Hth_all _ _ Hm) as [Hn Hm_all].
    rewrite Forall_lookup in Hvh_all. destruct (Hvh_all _ _ Hvals) as [_ Hv_all].
    destruct (put_rows_total d m positions vals) as [m'' [Hm'' Hw]]; try done.
    { by rewrite Hn. }
    rewrite Hp in Hm''. injection Hm'' as <-.
    split; [|done]. by rewrite (put_rows_length _ _ _ _ Hp).
  - intros b h m. unfold slab.
    destruct (t !! b) as [th|] eqn:Hth; [|done]. intros Hm.
    destruct (Forall3_lookup_l _ _ _ _ _ _ HF Hth) as (vh & th' & Hvh & Hth' & Hh).
    apply zipM_Forall3 in Hh.
    destruct (Forall3_lookup_l _ _ _ _ _ _ Hh Hm) as (vals & m' & Hvals & Hm' & Hp).
    exists m', vals. by rewrite Hth', Hvh.
Qed.

Lemma index_put_written bb hh n d k t positions v t' b h j q p :
  has_shape bb hh n d t → has_shape bb hh k d v → length positions = k →
  Forall (λ q, is_Some (norm_index n q)) positions →
  index_put t positions v = Ok t' →
  positions !! j = Some q → norm_index n q = Some p →
  ¬ names n (drop (S j) positions) p →
  tok t' b h p = tok v b h j.
Proof.
  intros Ht Hv Hpos Hq Hput Hj Hp Hlater.
  destruct (index_put_ok _ _ _ _ _ _ _ _ Ht Hv Hpos Hq) as (t'' & Hput' & _ & Hs).
  rewrite Hput in Hput'. injection Hput' as <-.
  unfold tok. destruct (slab t b h) as [m|] eqn:Hm.
  - destruct (Hs _ _ _ Hm) as (m' & vals & Hm' & Hvals & Hrows).
    rewrite Hm', Hvals.
    destruct (has_shape_slab _ _ _ _ _ _ _ _ Ht Hm) as [Hn Hw].
    destruct (has_shape_slab _ _ _ _ _ _ _ _ Hv Hvals) as [Hk Hvw].
    subst n.
    destruct (lookup_lt_is_Some_2 vals j) as [vj Hvj].
    { apply lookup_lt_Some in Hj. lia. }
    destruct (put_rows_written _ _ _ _ _ _ _ _ Hrows Hj Hvj Hp Hlater)
      as [He Hlt].
    rewrite Hvj. rewrite expand_exact in He.
    + injection He as He. rewrite He. by apply list_lookup_lookup_total_lt.
    + rewrite Forall_lookup in Hw, Hvw.
      rewrite (Hvw _ _ Hvj). symmetry. eapply Hw.
      apply list_lookup_lookup_total_lt. by eapply norm_index_lt.
  - pose proof (index_put_slab _ _ _ _ b h Hput) as Hs'. rewrite Hm in Hs'.
    destruct (slab t' b h); [done|].
    by rewrite (has_shape_slab_None _ _ _ _ _ _ _ _ _ Ht Hv Hm).
Qed.





(** C7. On a buffer of shape [(bb, hh, n, d)], with key and value states
    of shape [(bb, hh, k, d)] and [k] indices in range, [update] returns
    the two whole buffers as they are after the call, whatever
    [layer_idx] is. In both buffers a position that no index names holds
    the row it held before, and the position named by index [j] (and by
    no later index) holds row [j] of the incoming states. *)
Theorem static_update_addressing (self : StaticCache.t A) (key_states value_states : tensor A)
    (layer_idx : Z) (kw : StaticCache.kwargs) (bb hh n d k : nat) :
  has_shape bb hh n d (StaticCache.key_cache self) →
  has_shape bb hh n d (StaticCache.value_cache self) →
  has_shape bb hh k d key_states →
  has_shape bb hh k d value_states →
  length (StaticCache.cache_position kw) = k →
  Forall (λ q, is_Some (norm_index n q)) (StaticCache.cache_position kw) →
  ∃ self',
    StaticCache.update key_states value_states layer_idx (Some kw) self
    = (self', Ok (StaticCache.key_cache self', StaticCache.value_cache self')) ∧
    (∀ layer_idx',
       StaticCache.update key_states value_states layer_idx' (Some kw) self
       = StaticCache.update key_states value_states layer_idx (Some kw) self) ∧
    has_shape bb hh n d (StaticCache.key_cache self') ∧
    has_shape bb hh n d (StaticCache.value_cache self') ∧
    (∀ b h p,
       ¬ names n (StaticCache.cache_position kw) p →
       tok (StaticCache.key_cache self') b h p
       = tok (StaticCache.key_cache self) b h p ∧
       tok (StaticCache.value_cache self') b h p
       = tok (StaticCache.value_cache self) b h p) ∧
    (∀ b h j q p,
       StaticCache.cache_position kw !! j = Some q →
       norm_index n q = Some p →
       ¬ names n (drop (S j) (StaticCache.cache_position kw)) p →
       tok (StaticCache.key_cache self') b h p = tok key_states b h j ∧
       tok (StaticCache.value_cache self') b h p = tok value_states b h j).
Proof.
  intros Hk Hv Hks Hvs Hpos Hq.
  destruct (index_put_ok _ _ _ _ _ _ _ _ Hk Hks Hpos Hq) as (k_out & Hko & Hksh & _).
  destruct (index_put_ok _ _ _ _ _ _ _ _ Hv Hvs Hpos Hq) as (v_out & Hvo & Hvsh & _).
  exists (StaticCache.set_value_cache v_out (StaticCache.set_key_cache k_out self)).
  split_and!; try done.
  - unfold StaticCache.update, mbind, M_bind, lift, get, modify, mret, M_ret.
    simpl. rewrite Hko. simpl. by rewrite Hvo.
  - intros b h p Hp. simpl. split.
    + eapply index_put_frame; [done|]. intros m Hm.
      by destruct (has_shape_slab _ _ _ _ _ _ _ _ Hk Hm) as [-> _].
    + eapply index_put_frame; [done|]. intros m Hm.
      by destruct (has_shape_slab _ _ _ _ _ _ _ _ Hv Hm) as [-> _].
  - intros b h j q p Hj Hp Hlater. simpl. split.
    + by eapply (index_put_written bb hh n d k (StaticCache.key_cache self)).
    + by eapply (index_put_written bb hh n d k (StaticCache.value_cache self)).
Qed.



End Static.

Example static_update_5_6_7 :
  StaticCache.update (chunk 10 3) (chunk 20 3) 4 (Some at_5_6_7) eight_slots
  = (StaticCache.mk 1 8 1 1
       [[[[0]; [0]; [0]; [0]; [0]; [10]; [11]; [12]]]]
       [[[[0]; [0]; [0]; [0]; [0]; [20]; [21]; [22]]]],
     Ok ([[[[0]; [0]; [0]; [0]; [0]; [10]; [11]; [12]]]],
         [[[[0]; [0]; [0]; [0]; [0]; [20]; [21]; [22]]]])).
Proof. reflexivity. Qed.

Lemma static_update_addressing_witness :
  ∃ self',
    StaticCache.update (chunk 10 3) (chunk 20 3) 4 (Some at_5_6_7) eight_slots
    = (self', Ok (StaticCache.key_cache self', StaticCache.value_cache self')) ∧
    (∀ layer_idx',
       StaticCache.update (chunk 10 3) (chunk 20 3) layer_idx' (Some at_5_6_7)
         eight_slots
       = StaticCache.update (chunk 10 3) (chunk 20 3) 4 (Some at_5_6_7)
           eight_slots) ∧
    has_shape 1 1 8 1 (StaticCache.key_cache self') ∧
    has_shape 1 1 8 1 (StaticCache.value_cache self') ∧
    (∀ b h p,
       ¬ names 8 (StaticCache.cache_position at_5_6_7) p →
       tok (StaticCache.key_cache self') b h p
       = tok (StaticCache.key_cache eight_slots) b h p ∧
       tok (StaticCache.value_cache self') b h p
       = tok (StaticCache.value_cache eight_slots) b h p) ∧
    (∀ b h j q p,
       StaticCache.cache_position at_5_6_7 !! j = Some q →
       norm_index 8 q = Some p →
       ¬ names 8 (drop (S j) (StaticCache.cache_position at_5_6_7)) p →
       tok (StaticCache.key_cache self') b h p = tok (chunk 10 3) b h j ∧
       tok (StaticCache.value_cache self') b h p = tok (chunk 20 3) b h j).
Proof.
  apply (static_update_addressing eight_slots (chunk 10 3) (chunk 20 3) 4
           at_5_6_7 1 1 8 1 3).
  - repeat (split || constructor).
  - repeat (split || constructor).
  - repeat (split || constructor).
  - repeat (split || constructor).
  - reflexivity.
  - repeat constructor; by eexists.
Defined.

Example static_init_eight_slots :
  StaticCache.__init__
    {| PretrainedConfig.max_position_embeddings := 8;
       PretrainedConfig.hidden_size := 4;
       PretrainedConfig.num_attention_heads := 4;
       PretrainedConfig.head_dim := None;
       PretrainedConfig.num_key_value_heads := Some 1 |} 1 None
  = Ok eight_slots.
Proof. reflexivity. Qed.

(** ** Sink tokens *)

Section Prefix.
Context {A : Type}.
Implicit Types t a b c : tensor A.

Lemma keeps_prefix_refl s t : keeps_prefix s t t.
Proof. by intros b h p row _. Qed.

Lemma keeps_prefix_trans s a b c :
  keeps_prefix s a b → keeps_prefix s b c → keeps_prefix s a c.
Proof. intros Hab Hbc ? ? p row Hp Ha. eauto. Qed.

Lemma slab_slice_seq lo hi t i j :
  slab (slice_seq lo hi t) i j = slice lo hi <$> slab t i j.
Proof.
  unfold slab, slice_seq. rewrite list_lookup_fmap.
  destruct (t !! i) as [th|]; simpl; [|done]. by rewrite list_lookup_fmap.
Qed.

Lemma cat2_m2_slab a b c i j ma :
  cat2_m2 a b = Ok c → slab a i j = Some ma →
  ∃ mb, slab b i j = Some mb ∧ slab c i j = Some (ma ++ mb).
Proof.
  intros HF%zipM_Forall3. unfold slab.
  destruct (a !! i) as [ah|] eqn:Hah; [|done]. intros Hma.
  destruct (Forall3_lookup_l _ _ _ _ _ _ HF Hah) as (bh & ch & -> & -> & Hh).
  apply zipM_Forall3 in Hh.
  destruct (Forall3_lookup_l _ _ _ _ _ _ Hh Hma) as (mb & mc & -> & -> & Hc).
  apply cat_rows_Ok in Hc as ->. eauto.
Qed.

(** Concatenation along the sequence axis keeps its first operand in front. *)
Lemma keeps_prefix_cat2 s a b c : cat2_m2 a b = Ok c → keeps_prefix s a c.
Proof.
  intros Hc i j p row _. unfold tok.
  destruct (slab a i j) as [ma|] eqn:Hma; [|done]. intros Hrow.
  destruct (cat2_m2_slab _ _ _ _ _ _ Hc Hma) as (mb & _ & ->).
  by apply lookup_app_l_Some.
Qed.

Lemma keeps_prefix_cat_pair s a b c : cat_m2 [a; b] = Ok c → keeps_prefix s a c.
Proof.
  unfold cat_m2. simpl. destruct (cat2_m2 a b) as [c'|] eqn:Hc; simpl; [|done].
  intros [= <-]. by eapply keeps_prefix_cat2.
Qed.

(** The tokens before the slice bound [s] are the first tokens of [t[:, :, :s]]. *)
Lemma keeps_prefix_slice s t : keeps_prefix s t (slice_seq None (Some s) t).
Proof.
  intros i j p row Hp. unfold tok. rewrite slab_slice_seq.
  destruct (slab t i j) as [m|]; simpl; [|done].
  by rewrite slice_to_lookup.
Qed.

Lemma keeps_prefix_cat_triple s t b c d :
  cat_m2 [slice_seq None (Some s) t; b; c] = Ok d → keeps_prefix s t d.
Proof.
  unfold cat_m2. simpl.
  destruct (cat2_m2 _ b) as [ab|] eqn:Hab; simpl; [|done].
  destruct (cat2_m2 ab c) as [abc|] eqn:Habc; simpl; [|done].
  intros [= <-].
  eapply keeps_prefix_trans; [apply keeps_prefix_slice|].
  eapply keeps_prefix_trans; by eapply keeps_prefix_cat2.
Qed.

Implicit Types l : list (tensor A).

Lemma sinks_kept_refl s l : sinks_kept s l l.
Proof. intros i t Ht. eauto using keeps_prefix_refl. Qed.

Lemma sinks_kept_trans s l1 l2 l3 :
  sinks_kept s l1 l2 → sinks_kept s l2 l3 → sinks_kept s l1 l3.
Proof.
  intros H12 H23 i t Ht.
  destruct (H12 _ _ Ht) as (t2 & Ht2 & Hp2).
  destruct (H23 _ _ Ht2) as (t3 & Ht3 & Hp3).
  eauto using keeps_prefix_trans.
Qed.

Lemma sinks_kept_app s l t : sinks_kept s l (l ++ [t]).
Proof.
  intros i t0 Ht0. exists t0. split; [|apply keeps_prefix_refl].
  by apply lookup_app_l_Some.
Qed.

Lemma sinks_kept_setitem s l idx t t' l' :
  getitem l idx = Ok t → setitem l idx t' = Ok l' → keeps_prefix s t t' →
  sinks_kept s l l'.
Proof.
  intros (k & Hk & Ht)%getitem_Ok (k' & Hk' & ->)%setitem_Ok Hp i t0 Ht0.
  rewrite Hk in Hk'. injection Hk' as <-.
  destruct (decide (i = k)) as [->|Hne].
  - rewrite Ht in Ht0. injection Ht0 as <-. exists t'. split; [|done].
    apply list_lookup_insert_eq. by eapply lookup_lt_Some.
  - exists t0. split; [|apply keeps_prefix_refl].
    by rewrite list_lookup_insert_ne.
Qed.

End Prefix.

Section SinkPreserved.
Context `{Scalar A}.
Implicit Types st : SinkCache.t A.

(** The counter update touches [seen_tokens] only. *)
Lemma sink_count_tokens st (b : bool) n :
  wp (when b (modify (λ self,
        SinkCache.set_seen_tokens (SinkCache.seen_tokens self + n) self)))
     (λ r st', r = Ok tt ∧ ∃ m, st' = SinkCache.set_seen_tokens m st) st.
Proof.
  apply wp_when. destruct b.
  - apply wp_modify. eauto.
  - split; [done|]. exists (SinkCache.seen_tokens st). by destruct st.
Qed.

Lemma sink_memo_id st : ∃ m, st = SinkCache.set_cos_sin_cache m st.
Proof. exists (SinkCache.cos_sin_cache st). by destruct st. Qed.

(** [_get_rerotation_cos_sin] touches [cos_sin_cache] only. *)
Lemma sink_rerotation_memo_only st k cos sin :
  wp (SinkCache._get_rerotation_cos_sin k cos sin)
     (λ _ st', ∃ m, st' = SinkCache.set_cos_sin_cache m st) st.
Proof.
  pose proof (sink_memo_id st) as Hst.
  unfold SinkCache._get_rerotation_cos_sin. wp_go; simpl; eauto.
Qed.

Ltac sinks_done :=
  simpl;
  try (split_and!; try done; try apply sinks_kept_refl; try apply sinks_kept_app;
       try (eapply sinks_kept_setitem; [eassumption..|]);
       try (by eapply keeps_prefix_cat_pair);
       try (by eapply keeps_prefix_cat_triple)).

Lemma sink_update_keeps_sinks st k v idx kw :
  wp (SinkCache.update k v idx kw)
     (λ _ st',
        sinks_kept (SinkCache.num_sink_tokens st)
          (SinkCache.key_cache st) (SinkCache.key_cache st') ∧
        sinks_kept (SinkCache.num_sink_tokens st)
          (SinkCache.value_cache st) (SinkCache.value_cache st') ∧
        SinkCache.num_sink_tokens st' = SinkCache.num_sink_tokens st ∧
        SinkCache.window_length st' = SinkCache.window_length st) st.
Proof.
  unfold SinkCache.update.
  destruct kw as [kw|]; [|by repeat split; try apply sinks_kept_refl].
  apply wp_bind, wp_lift, wp_bind.
  eapply wp_mono; [apply sink_count_tokens|].
  intros r st1 [-> [n ->]].
  apply wp_bind, wp_get. cbv beta. simpl. apply wp_bind.
  case_bool_decide.
  { (* Empty cache *) wp_go; sinks_done. }
  apply wp_bind, wp_lift.
  destruct (SinkCache.get_seq_length _ idx) as [seq_length|]; [|sinks_done].
  case_bool_decide.
  { (* Growing cache *) wp_go; sinks_done. }
  (* Shifting cache *)
  apply wp_bind, wp_lift.
  destruct (getitem _ idx) as [old|] eqn:Hold; [|sinks_done].
  apply wp_bind.
  eapply (wp_mono _ (λ _ st', ∃ m,
    st' = SinkCache.set_cos_sin_cache m (SinkCache.set_seen_tokens n st))).
  { destruct (SinkCache.cos kw), (SinkCache.sin kw);
      try (apply wp_ret; cbv beta; apply sink_memo_id).
    apply wp_bind. eapply wp_mono; [apply sink_rerotation_memo_only|].
    intros [[rc rs]|] st2 [m ->]; [|eauto].
    destruct (SinkCache.partial_rotation_size kw); wp_go; eauto. }
  intros [keys_to_keep|] st2 [m ->]; [|sinks_done].
  wp_go; sinks_done.
Qed.


Lemma sink_run_keeps_sinks st
    (calls : list (tensor A * tensor A * Z * option (SinkCache.kwargs A))) :
  let st' := run_all ((λ c, SinkCache.update c.1.1.1 c.1.1.2 c.1.2 c.2) <$> calls) st in
  sinks_kept (SinkCache.num_sink_tokens st)
    (SinkCache.key_cache st) (SinkCache.key_cache st') ∧
  sinks_kept (SinkCache.num_sink_tokens st)
    (SinkCache.value_cache st) (SinkCache.value_cache st') ∧
  SinkCache.num_sink_tokens st' = SinkCache.num_sink_tokens st.
Proof.
  simpl. unfold run_all. revert st.
  induction calls as [|c calls IH]; intros st; simpl.
  - split_and!; try done; apply sinks_kept_refl.
  - pose proof (sink_update_keeps_sinks st c.1.1.1 c.1.1.2 c.1.2 c.2) as Hwp.
    unfold wp in Hwp. destruct Hwp as (Hk & Hv & HS & _).
    destruct (IH (SinkCache.update c.1.1.1 c.1.1.2 c.1.2 c.2 st).1)
      as (Hk' & Hv' & HS').
    rewrite HS in Hk', Hv', HS'.
    split_and!; [by eapply sinks_kept_trans..|done].
Qed.

(** C6. Through any calls of [update] on a [SinkCache], on any layers,
    with or without rotary tables, returning or raising, a token stored
    at one of the first [num_sink_tokens] positions of a layer's key
    tensor or value tensor stays at that position with the same row. *)
Theorem sink_tokens_preserved st
    (calls : list (tensor A * tensor A * Z * option (SinkCache.kwargs A)))
    (i b h p : nat) :
  Z.of_nat p < SinkCache.num_sink_tokens st →
  let st' := run_all ((λ c, SinkCache.update c.1.1.1 c.1.1.2 c.1.2 c.2) <$> calls) st in
  (∀ t row,
     SinkCache.key_cache st !! i = Some t → tok t b h p = Some row →
     ∃ t', SinkCache.key_cache st' !! i = Some t' ∧ tok t' b h p = Some row) ∧
  (∀ t row,
     SinkCache.value_cache st !! i = Some t → tok t b h p = Some row →
     ∃ t', SinkCache.value_cache st' !! i = Some t' ∧ tok t' b h p = Some row).
Proof.
  intros Hp. destruct (sink_run_keeps_sinks st calls) as (Hk & Hv & _).
  simpl. split; intros t row Ht Hrow.
  - destruct (Hk _ _ Ht) as (t' & Ht' & Hpre). eauto.
  - destruct (Hv _ _ Ht) as (t' & Ht' & Hpre). eauto.
Qed.

End SinkPreserved.

Example sink_four_steps :
  let st := run_all ((λ c, SinkCache.update c.1.1.1 c.1.1.2 c.1.2 c.2) <$> four_steps)
              six_of_eight in
  SinkCache.key_cache st
  = [[[[[100]; [101]; [3325608]; [12900195]; [110573100]; [2175327];
        [29898]; [303]]]]] ∧
  SinkCache.value_cache st
  = [[[[[200]; [201]; [204]; [205]; [400]; [401]; [402]; [403]]]]].
Proof. split; reflexivity. Qed.

Lemma sink_tokens_preserved_witness :
  Z.of_nat 1 < SinkCache.num_sink_tokens six_of_eight ∧
  let st' := run_all ((λ c, SinkCache.update c.1.1.1 c.1.1.2 c.1.2 c.2) <$> four_steps)
               six_of_eight in
  (∀ t row,
     SinkCache.key_cache six_of_eight !! 0%nat = Some t →
     tok t 0 0 1 = Some row →
     ∃ t', SinkCache.key_cache st' !! 0%nat = Some t' ∧ tok t' 0 0 1 = Some row) ∧
  (∀ t row,
     SinkCache.value_cache six_of_eight !! 0%nat = Some t →
     tok t 0 0 1 = Some row →
     ∃ t', SinkCache.value_cache st' !! 0%nat = Some t' ∧ tok t' 0 0 1 = Some row).
Proof.
  split; [reflexivity|].
  apply (sink_tokens_preserved six_of_eight four_steps 0 0 0 1). reflexivity.
Defined.

(** ** The window of a SinkCache *)

Section Rotation.
Context `{Scalar A}.
Implicit Types t k : tensor A.

Lemma len_ew2 op (x y z : table A) :
  ew2 op x y = Ok z → len z ≤ Z.max (len x) (len y).
Proof. intros Hz%bzip_length. unfold len. lia. Qed.

Lemma len_map2d f (x : table A) : len (map2d f x) = len x.
Proof. unfold len, map2d. by rewrite length_fmap. Qed.

Lemma shape_m2_ew4_le op (a b c : tensor A) :
  ew4 op a b = Ok c → shape_m2 c ≤ Z.max (shape_m2 a) (shape_m2 b).
Proof.
  intros Hc%shape_m2_ew4.
  pose proof (shape_m2_nonneg a). pose proof (shape_m2_nonneg b). lia.
Qed.

Lemma shape_m2_rotate_half t t' :
  SinkCache._rotate_half t = Ok t' → shape_m2 t' = shape_m2 t.
Proof.
  unfold SinkCache._rotate_half. intros Hc%shape_m2_cat_m1_pair.
  by rewrite Hc, shape_m2_map4d, shape_m2_slice_dim.
Qed.

(** Rotated keys have at most the sequence extent of the keys or of the
    correction tables. *)
Lemma shape_m2_apply_key_rotary t (rc rs : tensor3 A) t' :
  SinkCache._apply_key_rotary_pos_emb t rc rs = Ok t' →
  shape_m2 t' ≤ Z.max (shape_m2 t) (Z.max (shape_m2 [rc]) (shape_m2 [rs])).
Proof.
  unfold SinkCache._apply_key_rotary_pos_emb, ew4_3.
  destruct (ew4 mul t [rc]) as [kc|] eqn:Hkc; simpl; [|done].
  destruct (SinkCache._rotate_half t) as [rh|] eqn:Hrh; simpl; [|done].
  destruct (ew4 mul rh [rs]) as [rr|] eqn:Hrr; simpl; [|done].
  intros Hsum%shape_m2_ew4_le.
  apply shape_m2_ew4_le in Hkc, Hrr.
  apply shape_m2_rotate_half in Hrh. simpl in *. lia.
Qed.

Lemma len_slice_from_le (m : table A) a n :
  0 ≤ a → len m ≤ n → len (slice (Some a) None m) ≤ Z.max 0 (n - a).
Proof.
  intros. rewrite len_slice. simpl. unfold clamp.
  pose proof (len_nonneg m). case_bool_decide; lia.
Qed.

Lemma len_slice_between_le (m : table A) s c n :
  0 ≤ s → 0 ≤ c → len m ≤ n →
  len (slice (Some s) (Some (- c)) m) ≤ Z.max 0 (n - s - c).
Proof.
  intros. rewrite len_slice. simpl. unfold clamp.
  pose proof (len_nonneg m). repeat case_bool_decide; lia.
Qed.

Lemma len_slice_to_le (m : list (list A)) w : 0 ≤ w → len (slice None (Some w) m) ≤ w.
Proof.
  intros. rewrite len_slice. simpl. unfold clamp.
  pose proof (len_nonneg m). case_bool_decide; lia.
Qed.

Lemma shape_m2_sink s (t : tensor A) : 0 ≤ s → shape_m2 (slice_seq None (Some s) t) ≤ s.
Proof.
  intros. rewrite shape_m2_slice_seq. destruct (slab0 t); simpl; [|done].
  by apply len_slice_to_le.
Qed.

Lemma shape_m2_keys_to_keep a (t : tensor A) :
  a < 0 → 0 ≤ shape_m2 (slice_seq (Some a) None t) ≤ - a.
Proof.
  intros. split; [apply shape_m2_nonneg|].
  rewrite shape_m2_slice_seq. destruct (slab0 t) as [m|]; simpl; [|lia].
  rewrite len_slice. simpl. unfold clamp. pose proof (len_nonneg m).
  case_bool_decide; lia.
Qed.

End Rotation.

Arguments shape_m2 : simpl never.

Section Bounded.
Context `{Scalar A}.
Implicit Types st : SinkCache.t A.
Implicit Types k v : tensor A.

Lemma len_rerotation op1 op2 op3 (x1 y1 x2 y2 z : table A) :
  (a ← ew2 op1 x1 y1; b ← ew2 op2 x2 y2; ew2 op3 a b) = Ok z →
  len z ≤ Z.max (Z.max (len x1) (len y1)) (Z.max (len x2) (len y2)).
Proof.
  destruct (ew2 op1 x1 y1) as [a|] eqn:Ha; simpl; [|done].
  destruct (ew2 op2 x2 y2) as [b|] eqn:Hb; simpl; [|done].
  intros Hz%len_ew2. apply len_ew2 in Ha, Hb. lia.
Qed.

Lemma shape_m2_unsqueeze0 (x : table A) : shape_m2 [unsqueeze0 x] = len x.
Proof. done. Qed.

Lemma sink_rerotation_bounded st k (cos sin : table A) w s :
  0 ≤ s → SinkCache.num_sink_tokens st = s →
  len cos ≤ w → len sin ≤ w →
  memo_bounded w s (SinkCache.cos_sin_cache st) →
  wp (SinkCache._get_rerotation_cos_sin k cos sin)
     (λ r st',
        ∃ m, st' = SinkCache.set_cos_sin_cache m st ∧ memo_bounded w s m ∧
             match r with
             | Ok (rc, rs) =>
                 shape_m2 [rc] ≤ Z.max 0 (w - s - shape_m2 k) ∧
                 shape_m2 [rs] ≤ Z.max 0 (w - s - shape_m2 k)
             | Raise _ => True
             end) st.
Proof.
  intros Hs HS Hcos Hsin Hmemo.
  destruct (sink_memo_id st) as [m0 Hst].
  subst s. set (s := SinkCache.num_sink_tokens st) in *.
  set (bound := Z.max 0 (w - s - shape_m2 k)).
  pose proof (shape_m2_nonneg k) as Hc.
  pose proof (len_slice_from_le (map2d to_float32 cos) (s + shape_m2 k) w) as Hoc.
  pose proof (len_slice_from_le (map2d to_float32 sin) (s + shape_m2 k) w) as Hos.
  pose proof (len_slice_between_le (map2d to_float32 cos) s (shape_m2 k) w) as Hsc.
  pose proof (len_slice_between_le (map2d to_float32 sin) s (shape_m2 k) w) as Hss.
  rewrite !len_map2d in *.
  specialize (Hoc ltac:(lia) Hcos). specialize (Hos ltac:(lia) Hsin).
  specialize (Hsc Hs Hc Hcos). specialize (Hss Hs Hc Hsin).
  unfold SinkCache._get_rerotation_cos_sin. wp_go; simpl in *.
  all: try (exists (SinkCache.cos_sin_cache st); split; [by destruct st|];
            split; [done|]; try done;
            match goal with
            | Heq : Some ?p0 = Some _ |- _ =>
                injection Heq as <-; destruct p0; by apply Hmemo
            end).
  all: eexists; (split; [reflexivity|]).
  all: match goal with
       | |- memo_bounded _ _ ?m ∧ _ => assert (memo_bounded w s m) as Hnew
       end.
  1,3: intros c rc rs; rewrite lookup_insert; case_decide;
       [|by apply Hmemo]; intros [= <- <-]; subst c;
       rewrite !shape_m2_unsqueeze0, !len_map2d;
       apply len_rerotation in Heqr, Heqr0;
       rewrite ?len_map2d in *; subst s bound; lia.
  all: split; [done|]; try done.
  match goal with
  | Heq : <[_:=_]> _ !! _ = Some _ |- _ =>
      rewrite lookup_insert_eq in Heq; injection Heq as <-
  end.
  apply (Hnew (shape_m2 k)). apply lookup_insert_eq.
Qed.

Lemma Forall_setitem {X} (P : X → Prop) (l l' : list X) i x :
  Forall P l → P x → setitem l i x = Ok l' → Forall P l'.
Proof. intros Hl Hx (n & _ & ->)%setitem_Ok. by apply Forall_insert. Qed.

Lemma Forall_getitem {X} (P : X → Prop) (l : list X) i x :
  Forall P l → getitem l i = Ok x → P x.
Proof.
  intros Hl (n & _ & Hx)%getitem_Ok. rewrite Forall_lookup in Hl. eauto.
Qed.

Ltac window_done :=
  simpl; unfold within_window; simpl; try (split_and!; try done);
  try (apply Forall_app; split; [done|apply Forall_singleton]);
  try (eapply Forall_setitem; [eassumption| |eassumption]).

(** A call whose chunk fits keeps every layer within the window. *)
Lemma sink_update_within_window st k v idx kw w s :
  0 ≤ s → within_window w s st → chunk_fits st k idx →
  wp (SinkCache.update k v idx kw) (λ _ st', within_window w s st') st.
Proof.
  intros Hs Hin Hfit. pose proof Hin as (HW & HS & Hkc & Hmemo).
  pose proof (shape_m2_nonneg k) as Hc.
  unfold SinkCache.update.
  destruct kw as [kw|]; [|done].
  apply wp_bind, wp_lift, wp_bind.
  eapply wp_mono; [apply sink_count_tokens|].
  intros r st1 [-> [n ->]].
  apply wp_bind, wp_get. cbv beta. simpl. apply wp_bind.
  unfold chunk_fits in Hfit. case_bool_decide.
  { (* Empty cache *) wp_go; window_done; lia. }
  apply wp_bind, wp_lift. unfold SinkCache.get_seq_length at 1. simpl.
  rewrite bool_decide_false by done.
  destruct (getitem (SinkCache.key_cache st) idx) as [old|] eqn:Hold; simpl;
    [|done].
  pose proof (Forall_getitem _ _ _ _ Hkc Hold) as Hold_le. simpl in Hold_le.
  case_bool_decide.
  { (* Growing cache *)
    wp_go; window_done.
    all: match goal with
         | Hcat : cat_m2 [_; _] = Ok _ |- _ =>
             rewrite (shape_m2_cat_pair _ _ _ Hcat)
         end; simplify_eq; lia. }
  (* Shifting cache *)
  apply wp_bind, wp_lift. simpl. apply wp_bind.
  eapply (wp_mono _ (λ r st', ∃ m,
    st' = SinkCache.set_cos_sin_cache m (SinkCache.set_seen_tokens n st) ∧
    memo_bounded w s m ∧
    match r with
    | Ok keys_to_keep => shape_m2 keys_to_keep ≤ w - s - shape_m2 k
    | Raise _ => True
    end)).
  { assert (shape_m2 (slice_seq (Some (- SinkCache.window_length st
                                       + SinkCache.num_sink_tokens st
                                       + shape_m2 k)) None old)
            ≤ w - s - shape_m2 k) as Hkeep.
    { pose proof (shape_m2_keys_to_keep
                    (- SinkCache.window_length st + SinkCache.num_sink_tokens st
                     + shape_m2 k) old). lia. }
    destruct (SinkCache.cos kw) as [cos|], (SinkCache.sin kw) as [sin|];
      try (apply wp_ret; exists (SinkCache.cos_sin_cache st);
           split; [by destruct st|done]).
    apply wp_bind.
    eapply wp_mono;
      [apply (sink_rerotation_bounded _ _ _ _ w s);
       try done; simpl; try (rewrite HW; apply len_slice_to_le; lia)|].
    intros [[rc rs]|] st2 (m & -> & Hm & Hb); [|eauto].
    destruct (SinkCache.partial_rotation_size kw); wp_go; eauto.
    all: exists m; split; [done|]; split; [done|].
    all: case_match; [|done].
    all: repeat match goal with
           | Hcat : cat_m1 [_; _] = Ok _ |- _ =>
               rewrite (shape_m2_cat_m1_pair _ _ _ Hcat); clear Hcat
           | Hrot : SinkCache._apply_key_rotary_pos_emb _ _ _ = Ok _ |- _ =>
               apply shape_m2_apply_key_rotary in Hrot
           end; rewrite ?shape_m2_slice_dim in *; lia. }
  intros [keys_to_keep|] st2 (m & -> & Hm & Hkeys); [|done].
  wp_go; window_done.
  all: simpl in *; rewrite ?Hold in *; simplify_eq.
  all: match goal with
       | Hcat : cat_m2 [slice_seq None (Some ?s0) ?o; _; _] = Ok _ |- _ =>
           rewrite (shape_m2_cat_triple _ _ _ _ Hcat);
           pose proof (shape_m2_sink s0 o)
       end; lia.
Qed.

End Bounded.

Section BoundedRuns.
Context `{Scalar A}.

Lemma sink_init_within_window w s :
  within_window (A := A) w s (SinkCache.__init__ w s).
Proof. by split_and!. Qed.

Lemma sink_run_within_window (st : SinkCache.t A) calls w s :
  0 ≤ s → within_window w s st → calls_fit st calls →
  within_window w s
    (run_all ((λ c, SinkCache.update c.1.1.1 c.1.1.2 c.1.2 c.2) <$> calls) st).
Proof.
  intros Hs. unfold run_all. revert st.
  induction calls as [|c calls IH]; intros st Hin Hfit; simpl; [done|].
  destruct Hfit as [Hc Hfit]. apply IH; [|done].
  exact (sink_update_within_window st c.1.1.1 c.1.1.2 c.1.2 c.2 w s Hs Hin Hc).
Qed.

(** C1, as amended. A [SinkCache] with window [w >= 0] and [s >= 0] sink
    tokens, fed by calls of [update] in which the first chunk of a layer
    is no longer than [w] and every later chunk is shorter than [w - s],
    reports a sequence length of at most [w] for every layer, and [w] as
    its maximum length. *)
Theorem sink_cache_within_window (w s : Z)
    (calls : list (tensor A * tensor A * Z * option (SinkCache.kwargs A)))
    (layer_idx L : Z) :
  0 ≤ s → 0 ≤ w →
  calls_fit (SinkCache.__init__ w s) calls →
  let st := run_all ((λ c, SinkCache.update c.1.1.1 c.1.1.2 c.1.2 c.2) <$> calls)
              (SinkCache.__init__ w s) in
  SinkCache.get_seq_length st layer_idx = Ok L →
  L ≤ w ∧ SinkCache.get_max_length st = Some w.
Proof.
  intros Hs Hw Hfit st.
  destruct (sink_run_within_window (SinkCache.__init__ w s) calls w s Hs
              (sink_init_within_window w s) Hfit) as (HW & _ & Hkc & _).
  fold st in HW, Hkc. unfold SinkCache.get_seq_length, SinkCache.get_max_length.
  rewrite HW. case_bool_decide.
  - intros [= <-]. done.
  - destruct (getitem _ layer_idx) as [k|] eqn:Hk; simpl; [|done].
    intros [= <-]. split; [|done]. by apply (Forall_getitem _ _ _ _ Hkc Hk).
Qed.

End BoundedRuns.

(** C1, as stated, fails: the first chunk of a layer is stored whole. *)
Lemma sink_first_chunk_exceeds_window :
  ¬ ∀ L,
      SinkCache.get_seq_length
        (run_all ((λ c, SinkCache.update c.1.1.1 c.1.1.2 c.1.2 c.2)
                    <$> [(chunk 100 10, chunk 200 10, 0, Some no_rope)])
           (SinkCache.__init__ 8 2)) 0 = Ok L →
      L ≤ 8.
Proof. intros Hle. specialize (Hle 10 eq_refl). lia. Qed.

(** A chunk of exactly [w - s] tokens on a layer that is there keeps the
    whole layer: the slice that starts at [-w + s + c = 0] drops nothing. *)
Example sink_chunk_of_window_less_sinks :
  SinkCache.get_seq_length
    (run_all ((λ c, SinkCache.update c.1.1.1 c.1.1.2 c.1.2 c.2)
                <$> [(chunk 100 4, chunk 200 4, 0, Some no_rope);
                     (chunk 104 6, chunk 204 6, 0, Some no_rope)])
       (SinkCache.__init__ 8 2)) 0 = Ok 12.
Proof. reflexivity. Qed.

Lemma sink_cache_within_window_witness :
  0 ≤ 2 ∧ 0 ≤ 8 ∧
  calls_fit (SinkCache.__init__ 8 2) six_then_four ∧
  SinkCache.get_seq_length
    (run_all ((λ c, SinkCache.update c.1.1.1 c.1.1.2 c.1.2 c.2) <$> six_then_four)
       (SinkCache.__init__ 8 2)) 0 = Ok 8 ∧
  8 ≤ 8 ∧
  SinkCache.get_max_length
    (run_all ((λ c, SinkCache.update c.1.1.1 c.1.1.2 c.1.2 c.2) <$> six_then_four)
       (SinkCache.__init__ 8 2)) = Some 8.
Proof.
  assert (0 ≤ 2) as Hs by lia. assert (0 ≤ 8) as Hw by lia.
  assert (calls_fit (SinkCache.__init__ 8 2) six_then_four) as Hfit.
  { vm_compute. repeat split; by intros. }
  split; [exact Hs|]. split; [exact Hw|]. split; [exact Hfit|].
  split; [reflexivity|].
  exact (sink_cache_within_window 8 2 six_then_four 0 8 Hs Hw Hfit eq_refl).
Defined.

(** ** Element-wise operations on operands of one shape *)

Section Exact.
Context {X Y Z : Type}.

Lemma zipM_zip_with (f : X → Y → result Z) (g : X → Y → Z) xs ys :
  length xs = length ys →
  (∀ i x y, xs !! i = Some x → ys !! i = Some y → f x y = Ok (g x y)) →
  zipM f xs ys = Ok (zip_with g xs ys).
Proof.
  revert ys. induction xs as [|x xs IH]; intros [|y ys] Hlen Hf; simpl; try done.
  rewrite (Hf 0%nat x y) by done. simpl.
  rewrite IH; [done|by simplify_eq/=|]. intros i. apply (Hf (S i)).
Qed.

Lemma forM_fmap (f : X → result Z) (g : X → Z) xs :
  (∀ i x, xs !! i = Some x → f x = Ok (g x)) → forM f xs = Ok (g <$> xs).
Proof.
  induction xs as [|x xs IH]; intros Hf; simpl; [done|].
  rewrite (Hf 0%nat x) by done. simpl.
  rewrite IH; [done|]. intros i. apply (Hf (S i)).
Qed.

Lemma bzip_zip_with (f : X → Y → result Z) (g : X → Y → Z) xs ys :
  length xs = length ys →
  (∀ i x y, xs !! i = Some x → ys !! i = Some y → f x y = Ok (g x y)) →
  bzip f xs ys = Ok (zip_with g xs ys).
Proof.
  intros Hlen Hf. unfold bzip. rewrite bool_decide_true by done.
  by apply zipM_zip_with.
Qed.

End Exact.

Section ExactTensor.
Context `{Scalar A}.
Implicit Types m : table A.
Implicit Types t : tensor A.

Lemma ew1_exact op (r r' : list A) :
  length r = length r' → ew1 op r r' = Ok (zip_with op r r').
Proof. intros. by apply bzip_zip_with. Qed.

Lemma is_table_lookup n d m i r : is_table n d m → m !! i = Some r → length r = d.
Proof. intros [_ Hm] Hr. rewrite Forall_lookup in Hm. eauto. Qed.

Lemma ew2_exact op n d m m' :
  is_table n d m → is_table n d m' →
  ew2 op m m' = Ok (zip_with (zip_with op) m m').
Proof.
  intros Hm Hm'. apply bzip_zip_with.
  - destruct Hm, Hm'. congruence.
  - intros i r r' Hr Hr'. apply ew1_exact.
    rewrite (is_table_lookup _ _ _ _ _ Hm Hr).
    by rewrite (is_table_lookup _ _ _ _ _ Hm' Hr').
Qed.

Lemma is_table_zip_with (op : A → A → A) n d m m' :
  is_table n d m → is_table n d m' → is_table n d (zip_with (zip_with op) m m').
Proof.
  intros Hm Hm'. split.
  - destruct Hm, Hm'. rewrite length_zip_with. lia.
  - apply Forall_lookup. intros i r Hr.
    apply lookup_zip_with_Some in Hr as (x & y & -> & Hx & Hy).
    rewrite length_zip_with, (is_table_lookup _ _ _ _ _ Hm Hx),
      (is_table_lookup _ _ _ _ _ Hm' Hy). lia.
Qed.

Lemma is_table_map2d f n d m : is_table n d m → is_table n d (map2d f m).
Proof.
  intros [Hn Hd]. unfold map2d. split; [by rewrite length_fmap|].
  apply Forall_fmap. eapply Forall_impl; [done|]. intros r Hr. simpl.
  by rewrite length_fmap.
Qed.

Lemma has_shape_lookup b h n d t i j m :
  has_shape b h n d t → slab t i j = Some m → is_table n d m.
Proof. intros Ht Hm. by apply (has_shape_slab _ _ _ _ _ _ _ _ Ht Hm). Qed.

Lemma has_shape_lookup2 b h n d t i (th : list (table A)) j m :
  has_shape b h n d t → t !! i = Some th → th !! j = Some m → is_table n d m.
Proof.
  intros Ht Hth Hm. apply (has_shape_lookup b h n d t i j); [done|].
  unfold slab. by rewrite Hth.
Qed.

(** An operand of shape [(b, h, n, d)] against tables unsqueezed to
    [(1, n, d)]. *)
Lemma ew4_3_exact op b h n d t tc :
  has_shape b h n d t → is_table n d tc →
  ew4_3 op t [tc]
  = Ok (fmap (M := list) (fmap (M := list) (λ m, zip_with (zip_with op) m tc)) t).
Proof.
  intros Ht Htc. unfold ew4_3, ew4. rewrite bzip_singleton_r.
  apply forM_fmap. intros i th Hth. unfold ew3. rewrite bzip_singleton_r.
  apply forM_fmap. intros j m Hm. eapply ew2_exact; [|done].
  by eapply has_shape_lookup2.
Qed.

Lemma ew4_exact op b h n d t t' :
  has_shape b h n d t → has_shape b h n d t' →
  ew4 op t t' = Ok (zip_with (zip_with (zip_with (zip_with op))) t t').
Proof.
  intros Ht Ht'. unfold ew4. apply bzip_zip_with.
  { destruct Ht, Ht'. congruence. }
  intros i th th' Hth Hth'. unfold ew3. apply bzip_zip_with.
  { destruct Ht as [_ Ht], Ht' as [_ Ht']. rewrite Forall_lookup in Ht, Ht'.
    destruct (Ht _ _ Hth) as [Hl _]. destruct (Ht' _ _ Hth') as [Hl' _].
    congruence. }
  intros j m m' Hm Hm'.
  exact (ew2_exact op n d m m'
           (has_shape_lookup2 _ _ _ _ _ _ _ _ _ Ht Hth Hm)
           (has_shape_lookup2 _ _ _ _ _ _ _ _ _ Ht' Hth' Hm')).
Qed.

End ExactTensor.

(** ** Slices as [take] and [drop] *)

Section SliceExact.
Context {X : Type}.
Implicit Types l : list X.

Lemma slice_to_nonneg l b : 0 ≤ b → slice None (Some b) l = take (Z.to_nat b) l.
Proof.
  intros Hb. rewrite slice_to. unfold clamp, len.
  rewrite bool_decide_false by lia.
  destruct (decide (b ≤ Z.of_nat (length l))).
  - by rewrite Z.min_l.
  - rewrite Z.min_r, Nat2Z.id by lia. rewrite !take_ge; [done|lia..].
Qed.

Lemma slice_from_nonneg l a : 0 ≤ a → slice (Some a) None l = drop (Z.to_nat a) l.
Proof.
  intros Ha. rewrite slice_from. unfold clamp, len.
  rewrite bool_decide_false by lia.
  destruct (decide (a ≤ Z.of_nat (length l))).
  - by rewrite Z.min_l.
  - rewrite Z.min_r, Nat2Z.id by lia. rewrite !drop_ge; [done|lia..].
Qed.

Lemma slice_from_neg l a :
  a < 0 → slice (Some a) None l = drop (length l - Z.to_nat (- a)) l.
Proof.
  intros Ha. rewrite slice_from. unfold clamp, len.
  rewrite bool_decide_true by lia. f_equal. lia.
Qed.

Lemma slice_between l s c :
  0 ≤ s → 0 < c →
  slice (Some s) (Some (- c)) l
  = take (length l - Z.to_nat c - Z.to_nat s) (drop (Z.to_nat s) l).
Proof.
  intros Hs Hc. unfold slice, clamp, len. simpl.
  rewrite (bool_decide_false (s < 0)), (bool_decide_true (- c < 0)) by lia.
  destruct (decide (s ≤ Z.of_nat (length l))).
  - rewrite Z.min_l by lia. f_equal. lia.
  - rewrite Z.min_r, Nat2Z.id by lia.
    rewrite !drop_ge by lia. by rewrite !take_nil.
Qed.

End SliceExact.

(** ** Operations on two views of one tensor *)

Section SameSource.
Context {X Y1 Y2 Z : Type}.

Lemma zipM_fmap_same (f : Y1 → Y2 → result Z) (g1 : X → Y1) (g2 : X → Y2) l :
  zipM f (g1 <$> l) (g2 <$> l) = forM (λ x, f (g1 x) (g2 x)) l.
Proof.
  induction l as [|x l IH]; [done|].
  rewrite !fmap_cons. cbn [zipM forM]. by rewrite IH.
Qed.

End SameSource.

Section RotateHalf.
Context `{Scalar A}.
Implicit Types t : tensor A.

Lemma shape_m2_has_shape b h n d t :
  (0 < b)%nat → (0 < h)%nat → has_shape b h n d t → shape_m2 t = Z.of_nat n.
Proof.
  intros Hb Hh [Hlen Ht]. destruct t as [|th t]; simpl in *; [lia|].
  apply Forall_cons in Ht as [[Hth Hm] _].
  destruct th as [|m th]; simpl in *; [lia|].
  apply Forall_cons in Hm as [[Hn _] _]. unfold shape_m2, len. by rewrite Hn.
Qed.

Lemma shape_m1_has_shape b h n d t :
  (0 < b)%nat → (0 < h)%nat → (0 < n)%nat → has_shape b h n d t →
  shape_m1 t = Z.of_nat d.
Proof.
  intros Hb Hh Hn [Hlen Ht]. destruct t as [|th t]; simpl in *; [lia|].
  apply Forall_cons in Ht as [[Hth Hm] _].
  destruct th as [|m th]; simpl in *; [lia|].
  apply Forall_cons in Hm as [[Hnm Hr] _].
  destruct m as [|r m]; simpl in *; [lia|].
  apply Forall_cons in Hr as [Hd _]. unfold len. by rewrite Hd.
Qed.

(** Concatenating two row-wise views of one tensor along the last axis. *)
Lemma cat2_m1_same (g1 g2 : list A → list A) t :
  cat2_m1 (fmap (M := list) (fmap (M := list) (fmap (M := list) g1)) t)
          (fmap (M := list) (fmap (M := list) (fmap (M := list) g2)) t)
  = Ok (fmap (M := list) (fmap (M := list) (fmap (M := list)
          (λ r, g1 r ++ g2 r))) t).
Proof.
  unfold cat2_m1. rewrite zipM_fmap_same. apply forM_fmap. intros i th _.
  rewrite zipM_fmap_same. apply forM_fmap. intros j m _.
  rewrite zipM_fmap_same. by apply forM_fmap.
Qed.

Lemma rotate_half_row (r : list A) d :
  length r = d →
  (neg <$> slice (Some (Z.of_nat d `div` 2)) None r)
    ++ slice None (Some (Z.of_nat d `div` 2)) r
  = spec_rotate_half r.
Proof.
  intros <-. unfold spec_rotate_half.
  assert (0 ≤ Z.of_nat (length r) `div` 2) by (apply Z.div_pos; lia).
  rewrite slice_from_nonneg, slice_to_nonneg by done.
  replace (Z.to_nat (Z.of_nat (length r) `div` 2)) with (length r `div` 2)%nat;
    [done|].
  change 2 with (Z.of_nat 2). by rewrite <-Nat2Z.inj_div, Nat2Z.id.
Qed.

Lemma map4d_fmap (f : A → A) (g : list A → list A) t :
  map4d f (fmap (M := list) (fmap (M := list) (fmap (M := list) g)) t)
  = fmap (M := list) (fmap (M := list) (fmap (M := list) (λ r, f <$> g r))) t.
Proof.
  unfold map4d, map2d. rewrite <-list_fmap_compose.
  apply list_fmap_ext. intros i th _. simpl. rewrite <-list_fmap_compose.
  apply list_fmap_ext. intros j m _. simpl. by rewrite <-list_fmap_compose.
Qed.

Lemma rotate_half_exact b h n d t :
  (0 < b)%nat → (0 < h)%nat → (0 < n)%nat → has_shape b h n d t →
  SinkCache._rotate_half t
  = Ok (fmap (M := list) (fmap (M := list) (fmap (M := list) spec_rotate_half)) t).
Proof.
  intros Hb Hh Hn Ht. unfold SinkCache._rotate_half.
  rewrite (shape_m1_has_shape b h n d) by done.
  unfold slice_dim, cat_m1, cat_fold.
  rewrite map4d_fmap, cat2_m1_same. simpl. f_equal.
  apply list_fmap_ext. intros i th Hth.
  apply list_fmap_ext. intros j m Hm.
  apply list_fmap_ext. intros k r Hr.
  apply rotate_half_row.
  eapply is_table_lookup; [|done]. by eapply has_shape_lookup2.
Qed.

End RotateHalf.

(** ** The rotation of the kept keys *)

Section Rotate.
Context `{Scalar A}.
Implicit Types t : tensor A.
Implicit Types m rc rs : table A.

Lemma zip_with_fmap_same {X Y1 Y2 Z} (f : Y1 → Y2 → Z) (g1 : X → Y1) (g2 : X → Y2) l :
  zip_with f (g1 <$> l) (g2 <$> l) = (λ x, f (g1 x) (g2 x)) <$> l.
Proof. by rewrite zip_with_fmap_l, zip_with_fmap_r, zip_with_diag. Qed.

Lemma is_table_fmap (g : list A → list A) n d d' m :
  (∀ r, length r = d → length (g r) = d') →
  is_table n d m → is_table n d' (g <$> m).
Proof.
  intros Hg [Hn Hd]. split; [by rewrite length_fmap|].
  apply Forall_fmap. eapply Forall_impl; [done|]. intros r Hr. by apply Hg.
Qed.

Lemma has_shape_fmap (F : table A → table A) b h n d n' d' t :
  (∀ m, is_table n d m → is_table n' d' (F m)) →
  has_shape b h n d t →
  has_shape b h n' d' (fmap (M := list) (fmap (M := list) F) t).
Proof.
  intros HF [Hb Ht]. split; [by rewrite length_fmap|].
  apply Forall_fmap. eapply Forall_impl; [done|]. intros th [Hh Hth]. simpl.
  split; [by rewrite length_fmap|].
  apply Forall_fmap. eapply Forall_impl; [done|]. intros m Hm. by apply HF.
Qed.

Lemma length_spec_rotate_half (r : list A) : length (spec_rotate_half r) = length r.
Proof.
  unfold spec_rotate_half.
  rewrite length_app, length_fmap, length_drop, length_take.
  pose proof (Nat.Div0.div_le_upper_bound (length r) 2 (length r)). lia.
Qed.

Lemma is_table_spec_rotate n d m rc rs :
  is_table n d m → is_table n d rc → is_table n d rs →
  is_table n d (spec_rotate m rc rs).
Proof.
  intros Hm Hrc Hrs. unfold spec_rotate, tadd, tmul.
  repeat apply is_table_zip_with; try done.
  eapply is_table_fmap; [|done]. intros r <-. apply length_spec_rotate_half.
Qed.

(** [_apply_key_rotary_pos_emb] on keys of shape [(b, h, n, d)] and
    correction tables of shape [(n, d)] is the specification's rotation
    of every block. *)
Lemma apply_key_rotary_exact b h n d t rc rs :
  (0 < b)%nat → (0 < h)%nat → (0 < n)%nat →
  has_shape b h n d t → is_table n d rc → is_table n d rs →
  SinkCache._apply_key_rotary_pos_emb t [rc] [rs]
  = Ok (fmap (M := list) (fmap (M := list) (λ m, spec_rotate m rc rs)) t).
Proof.
  intros Hb Hh Hn Ht Hrc Hrs. unfold SinkCache._apply_key_rotary_pos_emb.
  rewrite (ew4_3_exact mul b h n d) by done. simpl.
  rewrite (rotate_half_exact b h n d) by done. simpl.
  assert (has_shape b h n d
            (fmap (M := list) (fmap (M := list) (fmap (M := list) spec_rotate_half)) t))
    as Hrh.
  { eapply has_shape_fmap; [|done]. intros m Hm.
    eapply is_table_fmap; [|done]. intros r <-. apply length_spec_rotate_half. }
  rewrite (ew4_3_exact mul b h n d) by done. simpl.
  rewrite (ew4_exact add b h n d).
  2:{ eapply has_shape_fmap; [|done]. intros m Hm. by apply is_table_zip_with. }
  2:{ eapply has_shape_fmap; [|done]. intros m Hm. by apply is_table_zip_with. }
  f_equal. rewrite <-!list_fmap_compose. rewrite zip_with_fmap_same.
  apply list_fmap_ext. intros i th _. simpl.
  rewrite <-!list_fmap_compose. by rewrite zip_with_fmap_same.
Qed.

End Rotate.

(** ** The correction tables *)

Section Rerotation.
Context `{Scalar A}.
Implicit Types m : table A.

Lemma is_table_drop n d k m : is_table n d m → is_table (n - k) d (drop k m).
Proof.
  intros [Hn Hd]. split; [rewrite length_drop; lia|]. by apply Forall_drop.
Qed.

Lemma is_table_take n d k m : is_table n d m → is_table (k `min` n) d (take k m).
Proof.
  intros [Hn Hd]. split; [rewrite length_take; lia|]. by apply Forall_take.
Qed.

Lemma is_table_original n d s c m :
  is_table n d m → is_table (n - s - c) d (spec_original s c m).
Proof.
  intros Hm. unfold spec_original.
  replace (n - s - c)%nat with (n - (s + c))%nat by lia. by apply is_table_drop.
Qed.

Lemma is_table_shifted n d s c m :
  is_table n d m → is_table (n - s - c) d (spec_shifted s c m).
Proof.
  intros Hm. unfold spec_shifted. destruct Hm as [Hn Hd]. rewrite Hn.
  split.
  - rewrite length_take, length_drop. lia.
  - by apply Forall_take, Forall_drop.
Qed.

Lemma is_table_spec_rerotation n d s c (cos sin : table A) :
  is_table n d cos → is_table n d sin →
  is_table (n - s - c) d (spec_rerotation_cos s c cos sin) ∧
  is_table (n - s - c) d (spec_rerotation_sin s c cos sin).
Proof.
  intros Hcos Hsin. unfold spec_rerotation_cos, spec_rerotation_sin, tadd, tmul.
  split; apply is_table_map2d; repeat apply is_table_zip_with;
    try apply is_table_map2d;
    first [apply is_table_original|apply is_table_shifted];
    by apply is_table_map2d.
Qed.

(** On a chunk length it has not seen, [_get_rerotation_cos_sin] computes
    and memoises the tables of the specification, unsqueezed. *)
Lemma rerotation_exact (st : SinkCache.t A) (k : tensor A) (cos sin : table A)
    (n d s c : nat) :
  SinkCache.cos_sin_cache st !! shape_m2 k = None →
  SinkCache.num_sink_tokens st = Z.of_nat s →
  shape_m2 k = Z.of_nat c → (0 < c)%nat →
  is_table n d cos → is_table n d sin →
  SinkCache._get_rerotation_cos_sin k cos sin st
  = (SinkCache.set_cos_sin_cache
       (<[Z.of_nat c := ([spec_rerotation_cos s c cos sin],
                         [spec_rerotation_sin s c cos sin])]>
          (SinkCache.cos_sin_cache st)) st,
     Ok ([spec_rerotation_cos s c cos sin], [spec_rerotation_sin s c cos sin])).
Proof.
  intros Hmiss HS Hc Hpos Hcos Hsin.
  unfold SinkCache._get_rerotation_cos_sin.
  unfold mbind at 1, M_bind at 1, get at 1.
  unfold mbind at 1, M_bind at 1. rewrite Hmiss, HS, Hc.
  rewrite !slice_from_nonneg, !slice_between by lia.
  rewrite <-Nat2Z.inj_add, !Nat2Z.id.
  pose proof (is_table_map2d to_float32 _ _ _ Hcos) as Hcos'.
  pose proof (is_table_map2d to_float32 _ _ _ Hsin) as Hsin'.
  fold (spec_original s c (map2d to_float32 cos)).
  fold (spec_original s c (map2d to_float32 sin)).
  fold (spec_shifted s c (map2d to_float32 cos)).
  fold (spec_shifted s c (map2d to_float32 sin)).
  pose proof (is_table_original _ _ s c _ Hcos') as Hoc.
  pose proof (is_table_original _ _ s c _ Hsin') as Hos.
  pose proof (is_table_shifted _ _ s c _ Hcos') as Hsc.
  pose proof (is_table_shifted _ _ s c _ Hsin') as Hss.
  rewrite !(ew2_exact mul (n - s - c) d) by (try apply is_table_map2d; done).
  cbn [mbind result_bind lift].
  rewrite !(ew2_exact add (n - s - c) d) by (by apply is_table_zip_with;
    try apply is_table_zip_with; try apply is_table_map2d).
  unfold mbind, M_bind, lift, modify, get, mret, M_ret. simpl.
  rewrite lookup_insert_eq. done.
Qed.

End Rerotation.

(** ** The shifted layer *)

Section Shift.
Context `{Scalar A}.
Implicit Types t : tensor A.
Implicit Types m rc rs : table A.

Lemma zipM_fmap_l {X X' Y Z} (f : X' → Y → result Z) (g : X → X') xs ys :
  zipM f (g <$> xs) ys = zipM (λ x y, f (g x) y) xs ys.
Proof.
  revert ys. induction xs as [|x xs IH]; intros [|y ys]; try done.
  rewrite fmap_cons. cbn [zipM]. by rewrite IH.
Qed.

Lemma cat_rows_exact d (x y : table A) :
  Forall (λ r, length r = d) x → Forall (λ r, length r = d) y →
  cat_rows x y = Ok (x ++ y).
Proof.
  intros Hx Hy. unfold cat_rows. destruct x as [|r x], y as [|r' y]; try done.
  apply Forall_cons in Hx as [-> _]. apply Forall_cons in Hy as [<- _].
  by rewrite bool_decide_true.
Qed.

(** Concatenating two block-wise views of one tensor along the sequence
    axis. *)
Lemma cat2_m2_same d (F1 F2 : table A → table A) b h n t :
  has_shape b h n d t →
  (∀ m, is_table n d m → Forall (λ r, length r = d) (F1 m)) →
  (∀ m, is_table n d m → Forall (λ r, length r = d) (F2 m)) →
  cat2_m2 (fmap (M := list) (fmap (M := list) F1) t)
          (fmap (M := list) (fmap (M := list) F2) t)
  = Ok (fmap (M := list) (fmap (M := list) (λ m, F1 m ++ F2 m)) t).
Proof.
  intros Ht H1 H2. unfold cat2_m2. rewrite zipM_fmap_same.
  apply forM_fmap. intros i th Hth. rewrite zipM_fmap_same.
  apply forM_fmap. intros j m Hm.
  pose proof (has_shape_lookup2 _ _ _ _ _ _ _ _ _ Ht Hth Hm).
  apply (cat_rows_exact d); auto.
Qed.

(** Concatenating a block-wise view of one tensor and a second tensor. *)
Lemma cat2_m2_with d (F : table A → table A) b h n n' t t' :
  has_shape b h n d t → has_shape b h n' d t' →
  (∀ m, is_table n d m → Forall (λ r, length r = d) (F m)) →
  cat2_m2 (fmap (M := list) (fmap (M := list) F) t) t'
  = Ok (zip_with (zip_with (λ m m', F m ++ m')) t t').
Proof.
  intros Ht Ht' HF. unfold cat2_m2. rewrite zipM_fmap_l.
  apply zipM_zip_with.
  { destruct Ht, Ht'. congruence. }
  intros i th th' Hth Hth'. rewrite zipM_fmap_l.
  apply zipM_zip_with.
  { destruct Ht as [_ Ht], Ht' as [_ Ht']. rewrite Forall_lookup in Ht, Ht'.
    destruct (Ht _ _ Hth) as [Hl _]. destruct (Ht' _ _ Hth') as [Hl' _].
    congruence. }
  intros j m m' Hm Hm'.
  pose proof (has_shape_lookup2 _ _ _ _ _ _ _ _ _ Ht Hth Hm).
  destruct (has_shape_lookup2 _ _ _ _ _ _ _ _ _ Ht' Hth' Hm') as [_ Hw].
  apply (cat_rows_exact d); auto.
Qed.

Lemma slice_seq_to s t :
  slice_seq None (Some (Z.of_nat s)) t
  = fmap (M := list) (fmap (M := list) (take s)) t.
Proof.
  unfold slice_seq. apply list_fmap_ext. intros i th _.
  apply list_fmap_ext. intros j m _.
  by rewrite slice_to_nonneg, Nat2Z.id by lia.
Qed.

Lemma slice_seq_last (w s c : nat) t :
  (s + c < w)%nat →
  slice_seq (Some (- Z.of_nat w + Z.of_nat s + Z.of_nat c)) None t
  = fmap (M := list) (fmap (M := list) (λ m, drop (length m - (w - s - c)) m)) t.
Proof.
  intros Hlt. unfold slice_seq. apply list_fmap_ext. intros i th Hth.
  apply list_fmap_ext. intros j m Hm.
  rewrite slice_from_neg by lia. f_equal. lia.
Qed.

Lemma is_table_spec_rotate_partial n d (p : option nat) m rc rs :
  from_option (λ p, p ≤ d)%nat True p →
  is_table n d m →
  is_table n (default d p) rc → is_table n (default d p) rs →
  is_table n d (spec_rotate_partial p m rc rs).
Proof.
  intros Hp Hm Hrc Hrs. destruct p as [p|]; simpl in *.
  - assert (is_table n p (spec_rotate (take p <$> m) rc rs)) as Hrot.
    { apply is_table_spec_rotate; try done.
      eapply is_table_fmap; [|done]. intros r Hr. rewrite length_take. lia. }
    assert (is_table n (d - p) (drop p <$> m)) as Hpass.
    { eapply is_table_fmap; [|done]. intros r Hr. rewrite length_drop. lia. }
    split.
    + destruct Hrot as [Hn _], Hpass as [Hn' _]. rewrite length_zip_with. lia.
    + apply Forall_lookup. intros i r Hr.
      apply lookup_zip_with_Some in Hr as (x & y & -> & Hx & Hy).
      rewrite length_app, (is_table_lookup _ _ _ _ _ Hrot Hx),
        (is_table_lookup _ _ _ _ _ Hpass Hy). lia.
  - by apply is_table_spec_rotate.
Qed.

End Shift.

Section ShiftExact.
Context `{Scalar A}.
Implicit Types st : SinkCache.t A.
Implicit Types m : table A.

Lemma wp_eq {S X} (m : M S X) (s : S) p : wp m (λ r s', (s', r) = p) s → m s = p.
Proof. unfold wp. by destruct (m s). Qed.

Lemma wp_when_modify {S} (b : bool) (f : S → S) (Q : result unit → S → Prop) s :
  Q (Ok tt) (if b then f s else s) → wp (when b (modify f)) Q s.
Proof. by destruct b. Qed.

Lemma setitem_nat {X} (l : list X) (i : nat) x :
  (i < length l)%nat → setitem l (Z.of_nat i) x = Ok (<[i:=x]> l).
Proof. intros Hi. unfold setitem. by rewrite norm_index_nat. Qed.

Lemma sink_shift_with (kc vc : list (tensor A)) memo seen
    (k v old oldv : tensor A) (l : nat) kw
    (b h len_ c d s w : nat) (D K : table A → table A) memo' :
  (0 < b)%nat → (0 < h)%nat → (0 < c)%nat →
  (w ≤ c + len_)%nat →
  (∀ t : tensor A,
     slice_seq (Some (- Z.of_nat w + Z.of_nat s + Z.of_nat c)) None t
     = fmap (M := list) (fmap (M := list) D) t) →
  (∀ m, is_table len_ d m → Forall (λ r, length r = d) (D m)) →
  kc !! l = Some old → vc !! l = Some oldv →
  has_shape b h len_ d old → has_shape b h len_ d oldv →
  has_shape b h c d k → has_shape b h c d v →
  (∀ m, is_table len_ d m → Forall (λ r, length r = d) (K m)) →
  (∀ n,
     let self := SinkCache.mk kc vc (Z.of_nat w) (Z.of_nat s) memo n in
     let keys_to_keep :=
       slice_seq (Some (- SinkCache.window_length self + SinkCache.num_sink_tokens self
                        + shape_m2 k)) None old in
     wp (match SinkCache.cos kw, SinkCache.sin kw with
         | Some cos, Some sin =>
             '(rerotation_cos, rerotation_sin) ←
               SinkCache._get_rerotation_cos_sin k
                 (slice None (Some (SinkCache.window_length self)) cos)
                 (slice None (Some (SinkCache.window_length self)) sin);
             match SinkCache.partial_rotation_size kw with
             | Some partial_rotation_size =>
                 let keys_pass :=
                   slice_dim (Some partial_rotation_size) None keys_to_keep in
                 let keys_to_keep :=
                   slice_dim None (Some partial_rotation_size) keys_to_keep in
                 keys_to_keep ← lift (SinkCache._apply_key_rotary_pos_emb keys_to_keep
                                        rerotation_cos rerotation_sin);
                 lift (cat_m1 [keys_to_keep; keys_pass])
             | None =>
                 lift (SinkCache._apply_key_rotary_pos_emb keys_to_keep
                         rerotation_cos rerotation_sin)
             end
         | _, _ => mret keys_to_keep
         end)
        (λ r self', (self', r)
                    = (SinkCache.mk kc vc (Z.of_nat w) (Z.of_nat s) memo' n,
                       Ok (fmap (M := list) (fmap (M := list) K) old)))
        self) →
  let new_k := zip_with (zip_with (λ m m', take s m ++ K m ++ m')) old k in
  let new_v := zip_with (zip_with (λ m m', take s m ++ D m ++ m')) oldv v in
  SinkCache.update k v (Z.of_nat l) (Some kw)
    (SinkCache.mk kc vc (Z.of_nat w) (Z.of_nat s) memo seen)
  = (SinkCache.mk (<[l:=new_k]> kc) (<[l:=new_v]> vc) (Z.of_nat w) (Z.of_nat s) memo'
       (if bool_decide (Z.of_nat l = 0) then seen + Z.of_nat c else seen),
     Ok (new_k, new_v)).
Proof.
  intros Hb Hh Hc Hfull HD HDw Hold Holdv Hso Hsov Hsk Hsv HK Hblock new_k new_v.
  pose proof (lookup_lt_Some _ _ _ Hold) as Hl.
  pose proof (lookup_lt_Some _ _ _ Holdv) as Hlv.
  pose proof (shape_m2_has_shape _ _ _ _ _ Hb Hh Hsk) as Hck.
  pose proof (shape_m2_has_shape _ _ _ _ _ Hb Hh Hsv) as Hcv.
  pose proof (shape_m2_has_shape _ _ _ _ _ Hb Hh Hso) as Hlo.
  apply wp_eq. unfold SinkCache.update.
  apply wp_bind, wp_lift. cbv beta iota.
  apply wp_bind, wp_when_modify.
  set (seen' := if bool_decide (Z.of_nat l = 0) then seen + Z.of_nat c else seen).
  assert ((if bool_decide (Z.of_nat l = 0)
           then SinkCache.set_seen_tokens
                  (SinkCache.seen_tokens (SinkCache.mk kc vc (Z.of_nat w) (Z.of_nat s) memo seen)
                   + shape_m2 k)
                  (SinkCache.mk kc vc (Z.of_nat w) (Z.of_nat s) memo seen)
           else SinkCache.mk kc vc (Z.of_nat w) (Z.of_nat s) memo seen)
          = SinkCache.mk kc vc (Z.of_nat w) (Z.of_nat s) memo seen') as ->.
  { subst seen'. rewrite Hck. by case_bool_decide. }
  apply wp_bind, wp_get. cbv beta iota.
  apply wp_bind.
  cbn [SinkCache.key_cache SinkCache.value_cache SinkCache.window_length
       SinkCache.num_sink_tokens].
  rewrite bool_decide_false by (unfold len; lia).
  apply wp_bind, wp_lift.
  unfold SinkCache.get_seq_length. cbn [SinkCache.key_cache].
  rewrite bool_decide_false by (unfold len; lia).
  rewrite (getitem_nat _ _ _ Hold). cbn [mbind result_bind]. cbv beta iota.
  rewrite bool_decide_false by (rewrite Hck, Hlo; lia).
  apply wp_bind, wp_lift. cbv beta iota.
  apply wp_bind.
  match goal with
  | |- wp ?blk _ ?st0 =>
      assert (blk st0 = (SinkCache.mk kc vc (Z.of_nat w) (Z.of_nat s) memo' seen',
                       Ok (fmap (M := list) (fmap (M := list) K) old))) as Hblk
        by (apply wp_eq; exact (Hblock seen'))
  end.
  unfold wp at 1. rewrite Hblk. clear Hblk Hblock. cbn [fst snd].
  assert (cat_m2 [slice_seq None (Some (Z.of_nat s)) old;
                  fmap (M := list) (fmap (M := list) K) old; k] = Ok new_k) as Hnk.
  { unfold cat_m2, cat_fold. rewrite slice_seq_to.
    rewrite (cat2_m2_same d (take s) K b h len_ old Hso);
      [|intros m [_ Hm]; by apply Forall_take|exact HK].
    cbn [mbind result_bind].
    rewrite (cat2_m2_with d (λ m, take s m ++ K m) b h len_ c old k Hso Hsk);
      [|intros m Hm; apply Forall_app; split;
        [destruct Hm; by apply Forall_take|by apply HK]].
    cbn [mbind result_bind]. f_equal. subst new_k.
    apply zip_with_ext; [|done..]. intros th th'.
    apply zip_with_ext; [|done..]. intros m m'. by rewrite app_assoc. }
  assert (cat_m2 [slice_seq None (Some (Z.of_nat s)) oldv;
                  slice_seq (Some (- Z.of_nat w + Z.of_nat s + shape_m2 v)) None oldv;
                  v] = Ok new_v) as Hnv.
  { unfold cat_m2, cat_fold. rewrite Hcv, slice_seq_to, HD.
    rewrite (cat2_m2_same d (take s) D b h len_ oldv Hsov);
      [|intros m [_ Hm]; by apply Forall_take|exact HDw].
    cbn [mbind result_bind].
    rewrite (cat2_m2_with d (λ m, take s m ++ D m) b h len_ c oldv v Hsov Hsv);
      [|intros m Hm; apply Forall_app; split;
        [destruct Hm; by apply Forall_take|by apply HDw]].
    cbn [mbind result_bind]. f_equal. subst new_v.
    apply zip_with_ext; [|done..]. intros th th'.
    apply zip_with_ext; [|done..]. intros m m'. by rewrite app_assoc. }
  apply wp_bind, wp_get. cbv beta iota.
  cbn [SinkCache.key_cache SinkCache.value_cache SinkCache.window_length
       SinkCache.num_sink_tokens].
  apply wp_bind, wp_lift. rewrite (getitem_nat _ _ _ Hold). cbv beta iota.
  apply wp_bind, wp_lift. rewrite Hnk. cbv beta iota.
  apply wp_bind, wp_lift. rewrite setitem_nat by done. cbv beta iota.
  apply wp_bind, wp_modify. cbv beta iota.
  apply wp_bind, wp_lift. rewrite (getitem_nat _ _ _ Holdv). cbv beta iota.
  apply wp_bind, wp_lift. rewrite Hnv. cbv beta iota.
  apply wp_bind, wp_lift. rewrite setitem_nat by done. cbv beta iota.
  apply wp_modify. cbv beta iota.
  apply wp_bind, wp_get. cbv beta iota.
  cbn [SinkCache.key_cache SinkCache.value_cache SinkCache.set_key_cache
       SinkCache.set_value_cache SinkCache.window_length
       SinkCache.num_sink_tokens SinkCache.cos_sin_cache SinkCache.seen_tokens].
  apply wp_bind, wp_lift.
  rewrite (getitem_nat _ l new_k) by (by apply list_lookup_insert_eq).
  cbv beta iota.
  apply wp_bind, wp_lift.
  rewrite (getitem_nat _ l new_v) by (by apply list_lookup_insert_eq).
  cbv beta iota. by apply wp_ret.
Qed.

Lemma slice_dim_to (p : nat) (t : tensor A) :
  slice_dim None (Some (Z.of_nat p)) t
  = fmap (M := list) (fmap (M := list) (fmap (M := list) (take p))) t.
Proof.
  unfold slice_dim. apply list_fmap_ext. intros i th _.
  apply list_fmap_ext. intros j m _. apply list_fmap_ext. intros q r _.
  by rewrite slice_to_nonneg, Nat2Z.id by lia.
Qed.

Lemma slice_dim_from (p : nat) (t : tensor A) :
  slice_dim (Some (Z.of_nat p)) None t
  = fmap (M := list) (fmap (M := list) (fmap (M := list) (drop p))) t.
Proof.
  unfold slice_dim. apply list_fmap_ext. intros i th _.
  apply list_fmap_ext. intros j m _. apply list_fmap_ext. intros q r _.
  by rewrite slice_from_nonneg, Nat2Z.id by lia.
Qed.

Lemma has_shape_zip_with (G : table A → table A → table A) b h n n' n'' d t t' :
  (∀ m m', is_table n d m → is_table n' d m' → is_table n'' d (G m m')) →
  has_shape b h n d t → has_shape b h n' d t' →
  has_shape b h n'' d (zip_with (zip_with G) t t').
Proof.
  intros HG Ht Ht'. split.
  { destruct Ht, Ht'. rewrite length_zip_with. lia. }
  apply Forall_lookup. intros i th0 Hth0.
  apply lookup_zip_with_Some in Hth0 as (th & th' & -> & Hth & Hth').
  split.
  { destruct Ht as [_ Ht], Ht' as [_ Ht']. rewrite Forall_lookup in Ht, Ht'.
    destruct (Ht _ _ Hth) as [Hl _]. destruct (Ht' _ _ Hth') as [Hl' _].
    rewrite length_zip_with. lia. }
  apply Forall_lookup. intros j m0 Hm0.
  apply lookup_zip_with_Some in Hm0 as (m & m' & -> & Hm & Hm').
  apply HG; by eapply has_shape_lookup2.
Qed.

(** The rotation of the kept keys in a shift, on a chunk length the
    cache has not seen: the correction tables are computed from the first
    [w] rows of the tables passed in, memoised, and applied to every
    block. *)
Lemma sink_rotate_kept (kc vc : list (tensor A)) memo n0
    (k old : tensor A) (cos sin : table A) (pz : option Z) (p : option nat)
    (b h len_ c d dr s w n : nat) :
  (0 < b)%nat → (0 < h)%nat → (0 < c)%nat →
  (s + c < w)%nat → (w ≤ c + len_)%nat → (w ≤ n)%nat →
  has_shape b h len_ d old → has_shape b h c d k →
  pz = Z.of_nat <$> p → from_option (λ p, p ≤ d)%nat True p → dr = default d p →
  is_table n dr cos → is_table n dr sin →
  memo !! Z.of_nat c = None →
  let self := SinkCache.mk kc vc (Z.of_nat w) (Z.of_nat s) memo n0 in
  let keys_to_keep :=
    slice_seq (Some (- SinkCache.window_length self + SinkCache.num_sink_tokens self
                     + shape_m2 k)) None old in
  let rc := spec_rerotation_cos s c (take w cos) (take w sin) in
  let rs := spec_rerotation_sin s c (take w cos) (take w sin) in
  wp ('(rerotation_cos, rerotation_sin) ←
        SinkCache._get_rerotation_cos_sin k
          (slice None (Some (SinkCache.window_length self)) cos)
          (slice None (Some (SinkCache.window_length self)) sin);
      match pz with
      | Some partial_rotation_size =>
          let keys_pass :=
            slice_dim (Some partial_rotation_size) None keys_to_keep in
          let keys_to_keep :=
            slice_dim None (Some partial_rotation_size) keys_to_keep in
          keys_to_keep ← lift (SinkCache._apply_key_rotary_pos_emb keys_to_keep
                                 rerotation_cos rerotation_sin);
          lift (cat_m1 [keys_to_keep; keys_pass])
      | None =>
          lift (SinkCache._apply_key_rotary_pos_emb keys_to_keep
                  rerotation_cos rerotation_sin)
      end)
     (λ r self', (self', r)
        = (SinkCache.mk kc vc (Z.of_nat w) (Z.of_nat s)
             (<[Z.of_nat c := ([rc], [rs])]> memo) n0,
           Ok (fmap (M := list) (fmap (M := list)
                 (λ m, spec_rotate_partial p
                         (drop (length m - (w - s - c)) m) rc rs)) old)))
     self.
Proof.
  intros Hb Hh Hc Hsc Hfull Hwn Hso Hsk -> Hp -> Hcos Hsin Hmiss self keys0 rc rs.
  pose proof (shape_m2_has_shape _ _ _ _ _ Hb Hh Hsk) as Hck.
  assert (is_table w (default d p) (take w cos)) as Hcw.
  { replace w with (w `min` n)%nat at 1 by lia. by apply is_table_take. }
  assert (is_table w (default d p) (take w sin)) as Hsw.
  { replace w with (w `min` n)%nat at 1 by lia. by apply is_table_take. }
  destruct (is_table_spec_rerotation w (default d p) s c _ _ Hcw Hsw) as [Hrc Hrs].
  fold rc in Hrc. fold rs in Hrs.
  assert (has_shape b h (w - s - c) d
            (fmap (M := list) (fmap (M := list)
               (λ m, drop (length m - (w - s - c)) m)) old)) as Hkeep.
  { eapply has_shape_fmap; [|done]. intros m Hm.
    replace (w - s - c)%nat with (len_ - (len_ - (w - s - c)))%nat at 1 by lia.
    destruct Hm as [Hlen Hw]. rewrite Hlen. by apply is_table_drop. }
  apply wp_bind. unfold wp at 1.
  subst self. cbn [SinkCache.window_length SinkCache.num_sink_tokens] in *.
  rewrite !slice_to_nonneg, !Nat2Z.id by lia.
  rewrite (rerotation_exact _ k (take w cos) (take w sin) w (default d p) s c);
    [|simpl; by rewrite Hck|done..].
  cbn [fst snd]. fold rc rs. unfold SinkCache.set_cos_sin_cache.
  cbn [SinkCache.key_cache SinkCache.value_cache SinkCache.window_length
       SinkCache.num_sink_tokens SinkCache.cos_sin_cache SinkCache.seen_tokens].
  subst keys0. rewrite Hck, slice_seq_last by done.
  destruct p as [p|]; simpl in Hp, Hrc, Hrs; cbn [fmap option_fmap option_map].
  - rewrite slice_dim_to, slice_dim_from.
    apply wp_bind, wp_lift.
    rewrite (apply_key_rotary_exact b h (w - s - c) p); try done; try lia.
    2:{ eapply has_shape_fmap; [|exact Hkeep]. intros m Hm.
        eapply is_table_fmap; [|done]. intros r Hr. rewrite length_take. lia. }
    apply wp_lift. f_equal. unfold cat_m1, cat_fold.
    rewrite <-!list_fmap_compose.
    unfold cat2_m1. rewrite zipM_fmap_same.
    rewrite (forM_fmap _ (fmap (M := list)
               (λ m, spec_rotate_partial (Some p)
                       (drop (length m - (w - s - c)) m) rc rs))); [done|].
    intros i th Hth. unfold compose. rewrite <-!list_fmap_compose.
    rewrite zipM_fmap_same. apply forM_fmap. intros j m Hm. unfold compose.
    pose proof (has_shape_lookup2 _ _ _ _ _ _ _ _ _ Hso Hth Hm) as Hmt.
    assert (is_table (w - s - c) d (drop (length m - (w - s - c)) m)) as Hdm.
    { replace (w - s - c)%nat with (len_ - (len_ - (w - s - c)))%nat at 1 by lia.
      destruct Hmt as [Hlen Hw]. rewrite Hlen. by apply is_table_drop. }
    apply zipM_zip_with; [|done].
    assert (is_table (w - s - c) p
              (spec_rotate (take p <$> drop (length m - (w - s - c)) m) rc rs))
      as [Hl1 _].
    { apply is_table_spec_rotate; try done.
      eapply is_table_fmap; [|done]. intros r Hr. rewrite length_take. lia. }
    destruct Hdm as [Hl2 _]. by rewrite Hl1, length_fmap, Hl2.
  - apply wp_lift.
    rewrite (apply_key_rotary_exact b h (w - s - c) d); try done; try lia.
    f_equal. f_equal. rewrite <-list_fmap_compose.
    apply list_fmap_ext. intros i th _. simpl.
    by rewrite <-list_fmap_compose.
Qed.

End ShiftExact.

(** ** A shift of the window *)

Section ShiftTheorems.
Context `{Scalar A}.
Implicit Types st : SinkCache.t A.
Implicit Types m : table A.

Lemma is_table_app n n' d m m' :
  is_table n d m → is_table n' d m' → is_table (n + n') d (m ++ m').
Proof.
  intros [Hn Hd] [Hn' Hd']. split; [rewrite length_app; lia|].
  by apply Forall_app.
Qed.

Lemma is_table_shift_values n c d s w m m' :
  (s + c < w)%nat → (w ≤ c + n)%nat →
  is_table n d m → is_table c d m' →
  is_table w d (spec_shift_values s (w - s - c) m m').
Proof.
  intros Hsc Hfull Hm Hm'. unfold spec_shift_values.
  replace w with ((s `min` n) + ((n - (n - (w - s - c))) + c))%nat at 1 by lia.
  apply is_table_app; [by apply is_table_take|].
  apply is_table_app; [|done].
  destruct Hm as [Hlen Hw]. rewrite Hlen. by apply is_table_drop.
Qed.

Lemma is_table_shift_keys n c d s w (p : option nat) rc rs m m' :
  (s + c < w)%nat → (w ≤ c + n)%nat →
  from_option (λ p, p ≤ d)%nat True p →
  is_table (w - s - c) (default d p) rc → is_table (w - s - c) (default d p) rs →
  is_table n d m → is_table c d m' →
  is_table w d (spec_shift_keys s (w - s - c) p rc rs m m').
Proof.
  intros Hsc Hfull Hp Hrc Hrs Hm Hm'. unfold spec_shift_keys.
  replace w with ((s `min` n) + ((w - s - c) + c))%nat at 1 by lia.
  apply is_table_app; [by apply is_table_take|].
  apply is_table_app; [|done].
  apply is_table_spec_rotate_partial; try done.
  replace (w - s - c)%nat with (n - (n - (w - s - c)))%nat at 1 by lia.
  destruct Hm as [Hlen Hw]. rewrite Hlen. by apply is_table_drop.
Qed.

Lemma sink_seq_length_insert (kc vc : list (tensor A)) W S memo seen layer t b h n d :
  (0 < b)%nat → (0 < h)%nat → (layer < length kc)%nat → has_shape b h n d t →
  SinkCache.get_seq_length
    (SinkCache.mk (<[layer:=t]> kc) vc W S memo seen) (Z.of_nat layer)
  = Ok (Z.of_nat n).
Proof.
  intros Hb Hh Hl Ht. unfold SinkCache.get_seq_length. simpl.
  rewrite bool_decide_false by (unfold len; rewrite length_insert; lia).
  rewrite (getitem_nat _ layer t) by (by apply list_lookup_insert_eq).
  simpl. by rewrite (shape_m2_has_shape b h n d).
Qed.

(** X1. A shift without rotary tables. On a layer that holds [len_]
    tokens, a chunk of [c] tokens with [s + c < w <= c + len_] makes
    [update] store and return, block by block, the first [s] tokens of the
    old tensor, its last [w - s - c] tokens and the chunk: the tokens in
    between are dropped, keys and values alike, and the layer is exactly
    [w] tokens long afterwards. *)
Theorem sink_shift_evicts_oldest st (key_states value_states old old_v : tensor A)
    (layer : nat) (kw : SinkCache.kwargs A) (b h len_ c d s w : nat) :
  (0 < b)%nat → (0 < h)%nat → (0 < c)%nat →
  SinkCache.window_length st = Z.of_nat w →
  SinkCache.num_sink_tokens st = Z.of_nat s →
  (s + c < w)%nat → (w ≤ c + len_)%nat →
  SinkCache.key_cache st !! layer = Some old →
  SinkCache.value_cache st !! layer = Some old_v →
  has_shape b h len_ d old → has_shape b h len_ d old_v →
  has_shape b h c d key_states → has_shape b h c d value_states →
  SinkCache.cos kw = None ∨ SinkCache.sin kw = None →
  let new_k := zip_with (zip_with (spec_shift_values s (w - s - c))) old key_states in
  let new_v :=
    zip_with (zip_with (spec_shift_values s (w - s - c))) old_v value_states in
  let st' :=
    SinkCache.mk (<[layer:=new_k]> (SinkCache.key_cache st))
      (<[layer:=new_v]> (SinkCache.value_cache st))
      (SinkCache.window_length st) (SinkCache.num_sink_tokens st)
      (SinkCache.cos_sin_cache st)
      (if bool_decide (Z.of_nat layer = 0)
       then SinkCache.seen_tokens st + Z.of_nat c else SinkCache.seen_tokens st) in
  SinkCache.update key_states value_states (Z.of_nat layer) (Some kw) st
  = (st', Ok (new_k, new_v)) ∧
  has_shape b h w d new_k ∧ has_shape b h w d new_v ∧
  SinkCache.get_seq_length st' (Z.of_nat layer) = Ok (Z.of_nat w).
Proof.
  intros Hb Hh Hc HW HS Hsc Hfull Hold Holdv Hso Hsov Hsk Hsv Hrope.
  destruct st as [kc vc W S memo seen]. simpl in *. subst W S.
  assert (has_shape b h w d
            (zip_with (zip_with (spec_shift_values s (w - s - c))) old key_states))
    as Hnk.
  { eapply has_shape_zip_with; [|done..]. intros m m'.
    by apply is_table_shift_values. }
  assert (has_shape b h w d
            (zip_with (zip_with (spec_shift_values s (w - s - c))) old_v value_states))
    as Hnv.
  { eapply has_shape_zip_with; [|done..]. intros m m'.
    by apply is_table_shift_values. }
  split_and!; try done.
  - apply (sink_shift_with kc vc memo seen key_states value_states old old_v layer kw
             b h len_ c d s w (λ m, drop (length m - (w - s - c)) m)
             (λ m, drop (length m - (w - s - c)) m) memo);
      try done.
    + intros t. by apply slice_seq_last.
    + intros m [_ Hm]. by apply Forall_drop.
    + intros m [_ Hm]. by apply Forall_drop.
    + intros n. simpl.
      pose proof (shape_m2_has_shape _ _ _ _ _ Hb Hh Hsk) as Hck.
      rewrite Hck, slice_seq_last by done.
      destruct (SinkCache.cos kw), (SinkCache.sin kw); try by apply wp_ret.
      by destruct Hrope.
  - apply (sink_seq_length_insert _ _ _ _ _ _ _ _ b h w d); try done.
    by eapply lookup_lt_Some.
Qed.

(** X2. A shift with rotary tables, on a chunk length the cache has not
    seen. With tables of [n >= w] rows, [update] computes the correction
    tables from their first [w] rows,
    [rerotation_cos = original_cos*shifted_cos + original_sin*shifted_sin]
    and
    [rerotation_sin = -original_sin*shifted_cos + original_cos*shifted_sin],
    memoises them under the chunk length and stores and returns, block by
    block, the first [s] keys, the last [w - s - c] keys rotated as
    [key*rerotation_cos + rotate_half(key)*rerotation_sin] (on the leading
    [p] entries of the head dimension only when [partial_rotation_size] is
    [p]) and the chunk; the values are shifted without rotation. *)
Theorem sink_shift_rerotates_keys st (key_states value_states old old_v : tensor A)
    (layer : nat) (kw : SinkCache.kwargs A) (cos sin : table A) (p : option nat)
    (b h len_ c d s w n : nat) :
  (0 < b)%nat → (0 < h)%nat → (0 < c)%nat →
  SinkCache.window_length st = Z.of_nat w →
  SinkCache.num_sink_tokens st = Z.of_nat s →
  (s + c < w)%nat → (w ≤ c + len_)%nat → (w ≤ n)%nat →
  SinkCache.key_cache st !! layer = Some old →
  SinkCache.value_cache st !! layer = Some old_v →
  has_shape b h len_ d old → has_shape b h len_ d old_v →
  has_shape b h c d key_states → has_shape b h c d value_states →
  SinkCache.cos kw = Some cos → SinkCache.sin kw = Some sin →
  SinkCache.partial_rotation_size kw = Z.of_nat <$> p →
  from_option (λ p, p ≤ d)%nat True p →
  is_table n (default d p) cos → is_table n (default d p) sin →
  SinkCache.cos_sin_cache st !! Z.of_nat c = None →
  let rc := spec_rerotation_cos s c (take w cos) (take w sin) in
  let rs := spec_rerotation_sin s c (take w cos) (take w sin) in
  let new_k :=
    zip_with (zip_with (spec_shift_keys s (w - s - c) p rc rs)) old key_states in
  let new_v :=
    zip_with (zip_with (spec_shift_values s (w - s - c))) old_v value_states in
  SinkCache.update key_states value_states (Z.of_nat layer) (Some kw) st
  = (SinkCache.mk (<[layer:=new_k]> (SinkCache.key_cache st))
       (<[layer:=new_v]> (SinkCache.value_cache st))
       (SinkCache.window_length st) (SinkCache.num_sink_tokens st)
       (<[Z.of_nat c:=([rc], [rs])]> (SinkCache.cos_sin_cache st))
       (if bool_decide (Z.of_nat layer = 0)
        then SinkCache.seen_tokens st + Z.of_nat c else SinkCache.seen_tokens st),
     Ok (new_k, new_v)) ∧
  has_shape b h w d new_k ∧ has_shape b h w d new_v.
Proof.
  intros Hb Hh Hc HW HS Hsc Hfull Hwn Hold Holdv Hso Hsov Hsk Hsv Hcos Hsin Hpz Hp
    Htc Hts Hmiss.
  destruct st as [kc vc W S memo seen]. simpl in *. subst W S.
  assert (is_table w (default d p) (take w cos)) as Hcw.
  { replace w with (w `min` n)%nat at 1 by lia. by apply is_table_take. }
  assert (is_table w (default d p) (take w sin)) as Hsw.
  { replace w with (w `min` n)%nat at 1 by lia. by apply is_table_take. }
  destruct (is_table_spec_rerotation w (default d p) s c _ _ Hcw Hsw) as [Hrc Hrs].
  split_and!.
  - apply (sink_shift_with kc vc memo seen key_states value_states old old_v layer kw
             b h len_ c d s w (λ m, drop (length m - (w - s - c)) m)
             (λ m, spec_rotate_partial p (drop (length m - (w - s - c)) m)
                     (spec_rerotation_cos s c (take w cos) (take w sin))
                     (spec_rerotation_sin s c (take w cos) (take w sin)))
             (<[Z.of_nat c:=([spec_rerotation_cos s c (take w cos) (take w sin)],
                             [spec_rerotation_sin s c (take w cos) (take w sin)])]>
                memo));
      try done.
    + intros t. by apply slice_seq_last.
    + intros m [_ Hm]. by apply Forall_drop.
    + intros m Hm.
      eapply (is_table_spec_rotate_partial (w - s - c) d p); try done.
      replace (w - s - c)%nat with (len_ - (len_ - (w - s - c)))%nat at 1 by lia.
      destruct Hm as [Hlen Hw]. rewrite Hlen. by apply is_table_drop.
    + intros n0. rewrite Hcos, Hsin.
      exact (sink_rotate_kept kc vc memo n0 key_states old cos sin
               (SinkCache.partial_rotation_size kw) p b h len_ c d (default d p)
               s w n Hb Hh Hc Hsc Hfull Hwn Hso Hsk Hpz Hp eq_refl Htc Hts Hmiss).
  - eapply has_shape_zip_with; [|done..]. intros m m'.
    by apply is_table_shift_keys.
  - eapply has_shape_zip_with; [|done..]. intros m m'.
    by apply is_table_shift_values.
Qed.

End ShiftTheorems.

Lemma sink_shift_evicts_oldest_witness :
  SinkCache.update (chunk 300 1) (chunk 400 1) 0 (Some no_rope) eight_of_eight
  = (SinkCache.mk
       [[[[[100]; [101]; [103]; [104]; [105]; [106]; [107]; [300]]]]]
       [[[[[200]; [201]; [203]; [204]; [205]; [206]; [207]; [400]]]]] 8 2 ∅ 9,
     Ok ([[[[100]; [101]; [103]; [104]; [105]; [106]; [107]; [300]]]],
         [[[[200]; [201]; [203]; [204]; [205]; [206]; [207]; [400]]]])) ∧
  has_shape 1 1 8 1 [[[[100]; [101]; [103]; [104]; [105]; [106]; [107]; [300]]]] ∧
  has_shape 1 1 8 1 [[[[200]; [201]; [203]; [204]; [205]; [206]; [207]; [400]]]] ∧
  SinkCache.get_seq_length
    (SinkCache.mk
       [[[[[100]; [101]; [103]; [104]; [105]; [106]; [107]; [300]]]]]
       [[[[[200]; [201]; [203]; [204]; [205]; [206]; [207]; [400]]]]] 8 2 ∅ 9) 0
  = Ok 8.
Proof.
  apply (sink_shift_evicts_oldest eight_of_eight (chunk 300 1) (chunk 400 1)
           (chunk 100 8) (chunk 200 8) 0 no_rope 1 1 8 1 1 2 8).
  all: try lia; try reflexivity.
  all: try (repeat (split || constructor)).
Defined.

Lemma sink_shift_rerotates_keys_witness :
  let rc := spec_rerotation_cos 2 1 (take 8 ((λ i, [Z.of_nat i + 1]) <$> seq 0 8))
              (take 8 ((λ i, [Z.of_nat i]) <$> seq 0 8)) in
  let rs := spec_rerotation_sin 2 1 (take 8 ((λ i, [Z.of_nat i + 1]) <$> seq 0 8))
              (take 8 ((λ i, [Z.of_nat i]) <$> seq 0 8)) in
  rc = [[18]; [32]; [50]; [72]; [98]] ∧ rs = [[-1]; [-1]; [-1]; [-1]; [-1]] ∧
  SinkCache.update (chunk 300 1) (chunk 400 1) 0 (Some with_rope) eight_of_eight
  = (SinkCache.mk
       [[[[[100]; [101]; [1957]; [3432]; [5355]; [7738]; [10593]; [300]]]]]
       [[[[[200]; [201]; [203]; [204]; [205]; [206]; [207]; [400]]]]] 8 2
       {[ 1 := ([rc], [rs]) ]} 9,
     Ok ([[[[100]; [101]; [1957]; [3432]; [5355]; [7738]; [10593]; [300]]]],
         [[[[200]; [201]; [203]; [204]; [205]; [206]; [207]; [400]]]])).
Proof.
  intros rc rs. split; [reflexivity|]. split; [reflexivity|].
  refine (proj1 (sink_shift_rerotates_keys eight_of_eight (chunk 300 1) (chunk 400 1)
           (chunk 100 8) (chunk 200 8) 0 with_rope
           ((λ i, [Z.of_nat i + 1]) <$> seq 0 8) ((λ i, [Z.of_nat i]) <$> seq 0 8)
           None 1 1 8 1 1 2 8 8 _ _ _ _ _ _ _ _ _ _ _ _ _ _ _ _ _ _ _ _ _)).
  all: try lia; try reflexivity; try done.
  all: try (repeat (split || constructor)).
Defined.

(** ** More on DynamicCache *)

Section DynamicMore.
Context {A : Type}.
Implicit Types st : DynamicCache.t A.
Implicit Types k v : tensor A.

Lemma getitem_ge {X} (l : list X) i : len l ≤ i → getitem l i = Raise IndexError.
Proof. intros Hi. unfold getitem. by rewrite norm_index_ge. Qed.

Lemma getitem_lt_neg {X} (l : list X) i : i < - len l → getitem l i = Raise IndexError.
Proof.
  intros Hi. unfold getitem, norm_index, len in *.
  by rewrite !bool_decide_false by lia.
Qed.

Lemma getitem_neg {X} (l : list X) i :
  - len l ≤ i < 0 → getitem l i = getitem l (len l + i).
Proof.
  intros Hi. unfold getitem, norm_index, len in *.
  rewrite (bool_decide_false (0 ≤ i < _)) by lia.
  rewrite (bool_decide_true (- _ ≤ i < 0)) by lia.
  by rewrite (bool_decide_true (0 ≤ Z.of_nat (length l) + i < _)) by lia.
Qed.

(** X3. [cache[layer_idx]]: the pair of layer [layer_idx] for an index
    from 0 up to the number of layers; [KeyError] for an index from the
    number of layers on; a negative index is not rejected by the guard
    and counts from the last layer, down to [IndexError] below
    [-len(cache)]. Running the iterator gives the same pairs in layer
    order. *)
Theorem dynamic_getitem_layers st :
  length (DynamicCache.key_cache st) = length (DynamicCache.value_cache st) →
  (∀ (i : nat) k v,
     DynamicCache.key_cache st !! i = Some k →
     DynamicCache.value_cache st !! i = Some v →
     DynamicCache.__getitem__ st (Z.of_nat i) = Ok (k, v)) ∧
  (∀ idx, DynamicCache.__len__ st ≤ idx →
          DynamicCache.__getitem__ st idx = Raise KeyError) ∧
  (∀ idx, - DynamicCache.__len__ st ≤ idx < 0 →
          DynamicCache.__getitem__ st idx
          = DynamicCache.__getitem__ st (DynamicCache.__len__ st + idx)) ∧
  (∀ idx, idx < - DynamicCache.__len__ st →
          DynamicCache.__getitem__ st idx = Raise IndexError) ∧
  DynamicCache.__iter__ st
  = Ok (zip (DynamicCache.key_cache st) (DynamicCache.value_cache st)) ∧
  (∀ idx, 0 ≤ idx < DynamicCache.__len__ st →
          DynamicCache.__getitem__ st idx
          = getitem (zip (DynamicCache.key_cache st) (DynamicCache.value_cache st))
              idx).
Proof.
  intros Hlen. unfold DynamicCache.__getitem__, DynamicCache.__len__.
  split_and!.
  - intros i k v Hk Hv. pose proof (lookup_lt_Some _ _ _ Hk).
    rewrite bool_decide_true by (unfold len; lia).
    by rewrite (getitem_nat _ _ _ Hk), (getitem_nat _ _ _ Hv).
  - intros idx Hidx. by rewrite bool_decide_false by lia.
  - intros idx Hidx. pose proof (len_nonneg (DynamicCache.key_cache st)).
    rewrite !bool_decide_true by lia.
    rewrite (getitem_neg (DynamicCache.key_cache st)) by done.
    rewrite (getitem_neg (DynamicCache.value_cache st)) by (unfold len in *; lia).
    unfold len. by rewrite Hlen.
  - intros idx Hidx. pose proof (len_nonneg (DynamicCache.key_cache st)).
    rewrite bool_decide_true by lia.
    rewrite (getitem_lt_neg _ _ Hidx). reflexivity.
  - by apply dynamic_to_legacy.
  - intros idx Hidx. rewrite bool_decide_true by lia.
    unfold len in Hidx.
    destruct (lookup_lt_is_Some_2 (DynamicCache.key_cache st) (Z.to_nat idx))
      as [k Hk]; [lia|].
    destruct (lookup_lt_is_Some_2 (DynamicCache.value_cache st) (Z.to_nat idx))
      as [v Hv]; [lia|].
    replace idx with (Z.of_nat (Z.to_nat idx)) by lia.
    rewrite (getitem_nat _ _ _ Hk), (getitem_nat _ _ _ Hv). simpl.
    symmetry. apply getitem_nat. apply lookup_zip_with_Some. eauto.
Qed.

(** X4. A call of [update] for a layer beyond the next free one, on a
    cache of [n] layers with [layer_idx > n]: the states are appended as
    layer [n], and the call then raises [IndexError] on reading layer
    [layer_idx]; [seen_tokens] is as before. *)
Theorem dynamic_update_beyond_next_layer {K} st k v (layer_idx : Z) (kw : option K) :
  len (DynamicCache.key_cache st) < layer_idx →
  DynamicCache.update k v layer_idx kw st
  = (DynamicCache.mk (DynamicCache.key_cache st ++ [k])
       (DynamicCache.value_cache st ++ [v]) (DynamicCache.seen_tokens st),
     Raise IndexError).
Proof.
  intros Hidx. pose proof (len_nonneg (DynamicCache.key_cache st)).
  destruct st as [kc vc seen]. simpl in *.
  unfold DynamicCache.update, when.
  rewrite bool_decide_false by lia.
  unfold mbind, M_bind, mret, M_ret, get, modify, lift; simpl.
  rewrite bool_decide_true by lia. simpl.
  rewrite getitem_ge; [done|]. unfold len in *. rewrite length_app. simpl. lia.
Qed.

(** X5. [update] is not atomic: on a layer that is there, when the keys
    concatenate and the values do not, the call raises the error of the
    value concatenation with the key tensor of the layer already
    replaced and [seen_tokens] already counted. *)
Theorem dynamic_update_keys_before_values {K} st k v (layer : nat) (kw : option K)
    old_k old_v new_k e :
  DynamicCache.key_cache st !! layer = Some old_k →
  DynamicCache.value_cache st !! layer = Some old_v →
  cat_m2 [old_k; k] = Ok new_k →
  cat_m2 [old_v; v] = Raise e →
  DynamicCache.update k v (Z.of_nat layer) kw st
  = (DynamicCache.mk (<[layer:=new_k]> (DynamicCache.key_cache st))
       (DynamicCache.value_cache st)
       (if bool_decide (Z.of_nat layer = 0)
        then DynamicCache.seen_tokens st + shape_m2 k
        else DynamicCache.seen_tokens st),
     Raise e).
Proof.
  intros Hk Hv Hnk Hnv. pose proof (lookup_lt_Some _ _ _ Hk) as Hl.
  destruct st as [kc vc seen]. simpl in *.
  unfold DynamicCache.update, when.
  case_bool_decide; unfold mbind, M_bind, mret, M_ret, get, modify, lift; simpl.
  all: rewrite bool_decide_false by (unfold len; lia).
  all: rewrite (getitem_nat _ _ _ Hk); simpl; rewrite Hnk; simpl.
  all: unfold setitem; rewrite norm_index_nat by done; simpl.
  all: rewrite (getitem_nat _ _ _ Hv); simpl; by rewrite Hnv.
Qed.

End DynamicMore.

Lemma dynamic_getitem_layers_witness :
  DynamicCache.__getitem__ two_layers 1 = Ok (chunk 5 3, chunk 15 3) ∧
  DynamicCache.__getitem__ two_layers 2 = Raise KeyError ∧
  DynamicCache.__getitem__ two_layers (-1) = DynamicCache.__getitem__ two_layers 1 ∧
  DynamicCache.__getitem__ two_layers (-3) = Raise IndexError.
Proof.
  destruct (dynamic_getitem_layers two_layers eq_refl)
    as (Hin & Hge & Hneg & Hlow & _).
  split; [exact (Hin 1%nat _ _ eq_refl eq_refl)|].
  split; [apply (Hge 2); by vm_compute|].
  split; [apply (Hneg (-1)); by vm_compute|].
  apply (Hlow (-3)). by vm_compute.
Defined.

Lemma dynamic_update_beyond_next_layer_witness :
  DynamicCache.update (chunk 1 2) (chunk 11 2) 1 (@None unit) DynamicCache.__init__
  = (DynamicCache.mk [chunk 1 2] [chunk 11 2] 0, Raise IndexError).
Proof.
  apply (dynamic_update_beyond_next_layer (K := unit) DynamicCache.__init__
           (chunk 1 2) (chunk 11 2) 1 None).
  by vm_compute.
Defined.

Lemma dynamic_update_keys_before_values_witness :
  DynamicCache.update (chunk 3 1) [[[[17; 18]]]] 0 (@None unit) two_layers
  = (DynamicCache.mk [chunk 1 3; chunk 5 3] [chunk 11 2; chunk 15 3] 3,
     Raise ShapeError).
Proof.
  exact (dynamic_update_keys_before_values (K := unit) two_layers (chunk 3 1)
           [[[[17; 18]]]] 0 None (chunk 1 2) (chunk 11 2) (chunk 1 3) ShapeError
           eq_refl eq_refl eq_refl eq_refl).
Defined.

(** ** The legacy format, decoded and encoded again *)

Section LegacyDecode.
Context {A : Type}.
Implicit Types st : DynamicCache.t A.

Lemma dynamic_from_legacy_loop_seen (pre rest : list (tensor A * tensor A)) st :
  DynamicCache.key_cache st = pre.*1 →
  DynamicCache.value_cache st = pre.*2 →
  for_ (Z.of_nat <$> seq (length pre) (length rest))
    (λ layer_idx,
       '(key_states, value_states) ← lift (getitem (pre ++ rest) layer_idx);
       DynamicCache.update key_states value_states layer_idx (@None unit);;
       mret tt) st
  = (DynamicCache.mk (pre ++ rest).*1 (pre ++ rest).*2
       (DynamicCache.seen_tokens st
        + match pre, rest with
          | [], kv :: _ => shape_m2 kv.1
          | _, _ => 0
          end), Ok tt).
Proof.
  revert pre st. induction rest as [|[k v] rest IH]; intros pre st Hk Hv.
  - simpl. rewrite app_nil_r. destruct st, pre; simpl in *; subst;
      by rewrite Z.add_0_r.
  - simpl. unfold mbind at 1, M_bind at 1. unfold mbind at 1, M_bind at 1.
    unfold lift at 1.
    rewrite (getitem_nat _ _ (k, v)) by (by rewrite lookup_app_r, Nat.sub_diag).
    unfold mbind at 1, M_bind at 1.
    assert (Z.of_nat (length pre) = len (DynamicCache.key_cache st)) as ->.
    { unfold len. by rewrite Hk, length_fmap. }
    rewrite dynamic_update_append by (by rewrite Hk, Hv, !length_fmap).
    unfold mret at 1, M_ret at 1.
    set (st1 := DynamicCache.mk _ _ _).
    pose proof (IH (pre ++ [(k, v)]) st1) as Hn.
    rewrite length_app in Hn. simpl in Hn.
    rewrite Nat.add_1_r, <-app_assoc in Hn. simpl in Hn.
    etrans; [apply Hn; simpl; [by rewrite Hk, fmap_app|by rewrite Hv, fmap_app]|].
    f_equal. f_equal. unfold len. rewrite Hk.
    destruct pre as [|p0 pre]; simpl; repeat case_bool_decide; simpl in *; lia.
Qed.

(** X6. [from_legacy_cache] never raises: of a tuple of (key, value)
    pairs it makes the cache whose layers are the pairs in order, with
    [seen_tokens] the sequence length of the first key (0 for no pairs),
    whatever the shapes of the tensors; [to_legacy_cache] of that cache
    is the tuple again; and [from_legacy_cache(None)] is the empty
    cache. *)
Theorem dynamic_legacy_decode_encode (past_key_values : list (tensor A * tensor A)) :
  let cache :=
    DynamicCache.mk past_key_values.*1 past_key_values.*2
      match past_key_values with
      | kv :: _ => shape_m2 kv.1
      | [] => 0
      end in
  DynamicCache.from_legacy_cache (Some past_key_values) = Ok cache ∧
  DynamicCache.to_legacy_cache cache = Ok past_key_values ∧
  DynamicCache.from_legacy_cache (A := A) None = Ok DynamicCache.__init__.
Proof.
  intros cache. split_and!; [| |done].
  - unfold DynamicCache.from_legacy_cache. rewrite range_len.
    pose proof (dynamic_from_legacy_loop_seen [] past_key_values
                  DynamicCache.__init__ eq_refl eq_refl) as Hloop.
    simpl in Hloop. rewrite Hloop. by destruct past_key_values.
  - rewrite dynamic_to_legacy by (simpl; by rewrite !length_fmap).
    simpl. f_equal. apply zip_fst_snd.
Qed.

End LegacyDecode.

(** ** Selection along the batch axis *)

Section IndexSelect.
Context {X : Type}.
Implicit Types t : list X.
Implicit Types index : list Z.

Lemma index_select0_Ok t index t' :
  index_select0 t index = Ok t' ↔
  Forall2 (λ i x, 0 ≤ i ∧ t !! Z.to_nat i = Some x) index t'.
Proof.
  unfold index_select0. rewrite forM_Forall2.
  split; intros HF; (eapply Forall2_impl; [exact HF|]); clear HF; intros i x; cbv beta.
  - case_bool_decide as Hi; [|done].
    intros (k & Hk & Hx)%getitem_Ok.
    apply norm_index_nonneg in Hk as ->; [|lia].
    rewrite Nat2Z.id. split; [lia|done].
  - intros [Hi Hx]. pose proof (lookup_lt_Some _ _ _ Hx).
    rewrite bool_decide_true by (unfold len; lia).
    replace i with (Z.of_nat (Z.to_nat i)) by lia. by apply getitem_nat.
Qed.

Lemma index_select0_length t index t' :
  index_select0 t index = Ok t' → length t' = length index.
Proof. intros HF%index_select0_Ok. symmetry. by eapply Forall2_length. Qed.

End IndexSelect.

Section IndexSelectCompose.
Context {X : Type}.
Implicit Types t : list X.

(** Selecting by [b1] and then by [b2] is selecting by [b1[b2]]. *)
Lemma index_select0_compose t (b1 b2 b12 : list Z) t1 :
  index_select0 t b1 = Ok t1 → index_select0 b1 b2 = Ok b12 →
  ∃ t2, index_select0 t1 b2 = Ok t2 ∧ index_select0 t b12 = Ok t2.
Proof.
  intros H1%index_select0_Ok H12%index_select0_Ok.
  assert (∃ t2, Forall2 (λ i x, 0 ≤ i ∧ t1 !! Z.to_nat i = Some x) b2 t2 ∧
                Forall2 (λ i x, 0 ≤ i ∧ t !! Z.to_nat i = Some x) b12 t2)
    as (t2 & H2 & H3).
  { clear -H1 H12. induction H12 as [|i j b2 b12 [Hi Hj] _ (t2 & IH2 & IH3)].
    - exists []. split; constructor.
    - destruct (Forall2_lookup_l _ _ _ _ _ H1 Hj) as (x & Hx & Hj0 & Htx).
      exists (x :: t2). split; constructor; done. }
  exists t2. by rewrite !index_select0_Ok.
Qed.

(** Selecting every index in order changes nothing. *)
Lemma index_select0_range t : index_select0 t (range (len t)) = Ok t.
Proof.
  apply index_select0_Ok. rewrite range_len.
  apply Forall2_fmap_l, Forall2_same_length_lookup. split.
  - by rewrite length_seq.
  - intros i j x Hj Hx. apply lookup_seq in Hj as [-> _]. simpl.
    split; [lia|]. by rewrite Nat2Z.id.
Qed.

End IndexSelectCompose.

(** ** Running a method body from its head *)

Section BindFacts.
Context {S : Type}.
Implicit Types s : S.

Lemma bind_get {Y} (f : S → M S Y) s : (get ≫= f) s = f s s.
Proof. done. Qed.

Lemma bind_lift {X Y} (r : result X) (f : X → M S Y) s :
  (lift r ≫= f) s = match r with Ok x => f x s | Raise e => (s, Raise e) end.
Proof. by destruct r. Qed.

Lemma bind_modify {Y} (g : S → S) (f : unit → M S Y) s :
  (modify g ≫= f) s = f tt (g s).
Proof. done. Qed.

Lemma bind_ret {X Y} (x : X) (f : X → M S Y) s : (mret x ≫= f) s = f x s.
Proof. done. Qed.

Lemma bind_assoc {X Y Z} (m : M S X) (g : X → M S Y) (f : Y → M S Z) s :
  ((m ≫= g) ≫= f) s = (m ≫= λ x, g x ≫= f) s.
Proof.
  unfold mbind, M_bind. destruct (m s) as [s1 [x|e]]; [|done].
  by destruct (g x s1) as [s2 [y|e]].
Qed.

Lemma bind_when_modify {Y} (b : bool) (g : S → S) (f : unit → M S Y) s :
  (when b (modify g) ≫= f) s = f tt (if b then g s else s).
Proof. by destruct b. Qed.

End BindFacts.

(** ** The reordering loop of DynamicCache and SinkCache

    Both classes run the same loop over their two lists of layers; it is
    analysed once, over a state with a key list and a value list. *)

Section ReorderLoop.
Context {S X : Type}.
Context (gk gv : S → list (list X)) (sk sv : list (list X) → S → S).
Hypothesis gk_sk : ∀ l s, gk (sk l s) = l.
Hypothesis gv_sk : ∀ l s, gv (sk l s) = gv s.
Hypothesis gk_sv : ∀ l s, gk (sv l s) = gk s.
Hypothesis gv_sv : ∀ l s, gv (sv l s) = l.
Hypothesis sk_sk : ∀ l l' s, sk l (sk l' s) = sk l s.
Hypothesis sv_sv : ∀ l l' s, sv l (sv l' s) = sv l s.
Hypothesis sk_sv : ∀ l l' s, sk l (sv l' s) = sv l' (sk l s).
Hypothesis sk_sv_id : ∀ s, sv (gv s) (sk (gk s) s) = s.

Lemma reorder_loop beam_idx (rk : list (list X)) :
  ∀ (rv dk dv : list (list X)) (s s' : S),
  length dk = length dv → length rk = length rv →
  gk s = dk ++ rk → gv s = dv ++ rv →
  for_ (Z.of_nat <$> seq (length dk) (length rk)) (λ layer_idx,
    self ← get;
    k ← lift (getitem (gk self) layer_idx);
    k ← lift (index_select0 k beam_idx);
    kc ← lift (setitem (gk self) layer_idx k);
    modify (sk kc);;
    self ← get;
    v ← lift (getitem (gv self) layer_idx);
    v ← lift (index_select0 v beam_idx);
    vc ← lift (setitem (gv self) layer_idx v);
    modify (sv vc)) s = (s', Ok tt) ↔
  ∃ rk' rv',
    Forall2 (λ t t', index_select0 t beam_idx = Ok t') rk rk' ∧
    Forall2 (λ t t', index_select0 t beam_idx = Ok t') rv rv' ∧
    s' = sv (dv ++ rv') (sk (dk ++ rk') s).
Proof.
  induction rk as [|t rk IH]; intros rv dk dv s s' Hd Hr Hk Hv.
  - destruct rv; [|done]. simpl. split.
    + intros [= <-]. exists [], []. split_and!; [constructor..|].
      by rewrite <-Hk, <-Hv, sk_sv_id.
    + intros (rk' & rv' & ->%Forall2_nil_inv_l & ->%Forall2_nil_inv_l & ->).
      by rewrite <-Hk, <-Hv, sk_sv_id.
  - destruct rv as [|u rv]; [done|]. simpl in Hr.
    assert (gk s !! length dk = Some t) as Hkt
      by (by rewrite Hk, lookup_app_r, Nat.sub_diag).
    assert (gv s !! length dk = Some u) as Hvu
      by (by rewrite Hv, Hd, lookup_app_r, Nat.sub_diag).
    cbn [length seq fmap list_fmap for_].
    rewrite ?bind_assoc, bind_get. cbv beta.
    rewrite ?bind_assoc, bind_lift, (getitem_nat _ _ _ Hkt).
    rewrite ?bind_assoc, bind_lift.
    destruct (index_select0 t beam_idx) as [t'|e] eqn:Ht.
    2:{ split; [done|]. intros (rk' & rv' & HF & _).
        apply Forall2_cons_inv_l in HF as (? & ? & ? & _). congruence. }
    rewrite ?bind_assoc, bind_lift, setitem_nat by (by eapply lookup_lt_Some).
    rewrite ?bind_assoc, bind_modify.
    rewrite ?bind_assoc, bind_get. cbv beta.
    rewrite ?bind_assoc, bind_lift, gv_sk, (getitem_nat _ _ _ Hvu).
    rewrite ?bind_assoc, bind_lift.
    destruct (index_select0 u beam_idx) as [u'|e] eqn:Hu.
    2:{ split; [done|]. intros (rk' & rv' & _ & HF & _).
        apply Forall2_cons_inv_l in HF as (? & ? & ? & _). congruence. }
    rewrite ?bind_assoc, bind_lift, setitem_nat by (by eapply lookup_lt_Some).
    rewrite bind_modify.
    set (s1 := sv _ (sk _ s)).
    assert (gk s1 = (dk ++ [t']) ++ rk) as Hk1.
    { subst s1. rewrite gk_sv, gk_sk, Hk, <-app_assoc.
      rewrite insert_app_r_alt by done. by rewrite Nat.sub_diag. }
    assert (gv s1 = (dv ++ [u']) ++ rv) as Hv1.
    { subst s1. rewrite gv_sv, Hv, Hd, <-app_assoc.
      rewrite insert_app_r_alt by done. by rewrite Nat.sub_diag. }
    specialize (IH rv (dk ++ [t']) (dv ++ [u']) s1 s').
    rewrite !length_app in IH. simpl in IH. rewrite Nat.add_1_r in IH.
    rewrite IH by (try done; lia). clear IH.
    split.
    + intros (rk' & rv' & HFk & HFv & ->).
      exists (t' :: rk'), (u' :: rv'). split_and!; [by constructor..|].
      subst s1. rewrite <-!app_assoc. simpl.
      by rewrite sk_sv, sk_sk, sv_sv.
    + intros (rk' & rv' & HFk & HFv & ->).
      apply Forall2_cons_inv_l in HFk as (t0 & rk0 & Ht0 & HFk & ->).
      apply Forall2_cons_inv_l in HFv as (u0 & rv0 & Hu0 & HFv & ->).
      rewrite Ht in Ht0. rewrite Hu in Hu0. simplify_eq.
      exists rk0, rv0. split_and!; [done..|].
      subst s1. rewrite <-!app_assoc. simpl.
      by rewrite sk_sv, sk_sk, sv_sv.
Qed.

End ReorderLoop.

(** ** reorder_cache *)

Section Reorder.
Context {A : Type}.

Lemma dynamic_reorder_Ok beam_idx (st st' : DynamicCache.t A) :
  length (DynamicCache.key_cache st) = length (DynamicCache.value_cache st) →
  DynamicCache.reorder_cache beam_idx st = (st', Ok tt) ↔
  ∃ kc' vc',
    Forall2 (λ t t', index_select0 t beam_idx = Ok t') (DynamicCache.key_cache st) kc' ∧
    Forall2 (λ t t', index_select0 t beam_idx = Ok t') (DynamicCache.value_cache st) vc' ∧
    st' = DynamicCache.mk kc' vc' (DynamicCache.seen_tokens st).
Proof.
  intros Hlen. unfold DynamicCache.reorder_cache.
  rewrite bind_get, range_len.
  pose proof (reorder_loop (S := DynamicCache.t A) (X := tensor3 A)
                DynamicCache.key_cache DynamicCache.value_cache
                DynamicCache.set_key_cache DynamicCache.set_value_cache) as Hloop.
  specialize (Hloop ltac:(done) ltac:(done) ltac:(done) ltac:(done)
                ltac:(done) ltac:(done) ltac:(done) ltac:(by intros [])).
  specialize (Hloop beam_idx (DynamicCache.key_cache st)
                (DynamicCache.value_cache st) [] [] st st'
                eq_refl Hlen eq_refl eq_refl).
  exact Hloop.
Qed.

Lemma sink_reorder_Ok beam_idx (st st' : SinkCache.t A) :
  length (SinkCache.key_cache st) = length (SinkCache.value_cache st) →
  SinkCache.reorder_cache beam_idx st = (st', Ok tt) ↔
  ∃ kc' vc',
    Forall2 (λ t t', index_select0 t beam_idx = Ok t') (SinkCache.key_cache st) kc' ∧
    Forall2 (λ t t', index_select0 t beam_idx = Ok t') (SinkCache.value_cache st) vc' ∧
    st' = SinkCache.mk kc' vc' (SinkCache.window_length st)
            (SinkCache.num_sink_tokens st) (SinkCache.cos_sin_cache st)
            (SinkCache.seen_tokens st).
Proof.
  intros Hlen. unfold SinkCache.reorder_cache.
  rewrite bind_get, range_len.
  pose proof (reorder_loop (S := SinkCache.t A) (X := tensor3 A)
                SinkCache.key_cache SinkCache.value_cache
                SinkCache.set_key_cache SinkCache.set_value_cache) as Hloop.
  specialize (Hloop ltac:(done) ltac:(done) ltac:(done) ltac:(done)
                ltac:(done) ltac:(done) ltac:(done) ltac:(by intros [])).
  specialize (Hloop beam_idx (SinkCache.key_cache st)
                (SinkCache.value_cache st) [] [] st st'
                eq_refl Hlen eq_refl eq_refl).
  exact Hloop.
Qed.

Lemma static_reorder_Ok beam_idx (st st' : StaticCache.t A) :
  StaticCache.reorder_cache beam_idx st = (st', Ok tt) ↔
  ∃ k' v',
    index_select0 (StaticCache.key_cache st) beam_idx = Ok k' ∧
    index_select0 (StaticCache.value_cache st) beam_idx = Ok v' ∧
    st' = StaticCache.mk (StaticCache.max_batch_size st) (StaticCache.max_cache_len st)
            (StaticCache.head_dim st) (StaticCache.num_key_value_heads st) k' v'.
Proof.
  unfold StaticCache.reorder_cache.
  rewrite bind_get, bind_lift.
  destruct (index_select0 (StaticCache.key_cache st) beam_idx) as [k'|e].
  2:{ split; [done|]. by intros (? & ? & ? & _). }
  rewrite bind_modify, bind_get, bind_lift. simpl.
  destruct (index_select0 (StaticCache.value_cache st) beam_idx) as [v'|e].
  2:{ split; [done|]. by intros (? & ? & _ & ? & _). }
  unfold modify. split.
  - intros [= <-]. by exists k', v'.
  - by intros (? & ? & [= <-] & [= <-] & ->).
Qed.

Lemma Forall2_select_compose {X} (b1 b2 b12 : list Z) (l l1 : list (list X)) :
  Forall2 (λ t t', index_select0 t b1 = Ok t') l l1 →
  index_select0 b1 b2 = Ok b12 →
  ∃ l2, Forall2 (λ t t', index_select0 t b2 = Ok t') l1 l2 ∧
        Forall2 (λ t t', index_select0 t b12 = Ok t') l l2.
Proof.
  intros HF H12. induction HF as [|t t1 l l1 Ht _ (l2 & IH1 & IH2)].
  - exists []. split; constructor.
  - destruct (index_select0_compose _ _ _ _ _ Ht H12) as (t2 & H2 & H3).
    exists (t2 :: l2). split; by constructor.
Qed.

Lemma Forall2_select_range {X} (n : nat) (l : list (list X)) :
  Forall (λ t, length t = n) l →
  Forall2 (λ t t', index_select0 t (range (Z.of_nat n)) = Ok t') l l.
Proof.
  intros Hl. apply Forall_Forall2_diag. eapply Forall_impl; [done|].
  intros t <-. apply index_select0_range.
Qed.

Lemma Forall2_length_l {X Y} (P : X → Y → Prop) l k :
  Forall2 P l k → length k = length l.
Proof. intros HF. symmetry. by eapply Forall2_length. Qed.

(** X7. Reordering composes: when [reorder_cache(b1)] has returned and
    [b2] selects within [b1], a second [reorder_cache(b2)] returns and
    leaves the cache that a single [reorder_cache(b1[b2])] makes of the
    first one. This holds for the three cache classes. *)
Theorem reorder_cache_compose (self self1 : cache A) (b1 b2 b12 : list Z) :
  layers_paired self →
  reorder_cache b1 self = (self1, Ok tt) →
  index_select0 b1 b2 = Ok b12 →
  ∃ self2,
    reorder_cache b2 self1 = (self2, Ok tt) ∧
    reorder_cache b12 self = (self2, Ok tt).
Proof.
  intros Hp H1 H12.
  destruct self as [st|st|st]; unfold reorder_cache in *;
    cbn [layers_paired] in *.
  - destruct (DynamicCache.reorder_cache b1 st) as [st1 r] eqn:Hr.
    injection H1 as <- ->.
    apply dynamic_reorder_Ok in Hr as (kc1 & vc1 & Hk & Hv & ->); [|done].
    destruct (Forall2_select_compose _ _ _ _ _ Hk H12) as (kc2 & Hk2 & Hk12).
    destruct (Forall2_select_compose _ _ _ _ _ Hv H12) as (vc2 & Hv2 & Hv12).
    exists (Dynamic (DynamicCache.mk kc2 vc2 (DynamicCache.seen_tokens st))).
    split.
    + assert (length kc1 = length vc1) as Hp1.
      { by rewrite (Forall2_length_l _ _ _ Hk), (Forall2_length_l _ _ _ Hv). }
      rewrite (proj2 (dynamic_reorder_Ok b2
                 (DynamicCache.mk kc1 vc1 (DynamicCache.seen_tokens st))
                 (DynamicCache.mk kc2 vc2 (DynamicCache.seen_tokens st)) Hp1));
        [done|]. by exists kc2, vc2.
    + rewrite (proj2 (dynamic_reorder_Ok b12 st
                 (DynamicCache.mk kc2 vc2 (DynamicCache.seen_tokens st)) Hp));
        [done|]. by exists kc2, vc2.
  - destruct (SinkCache.reorder_cache b1 st) as [st1 r] eqn:Hr.
    injection H1 as <- ->.
    apply sink_reorder_Ok in Hr as (kc1 & vc1 & Hk & Hv & ->); [|done].
    destruct (Forall2_select_compose _ _ _ _ _ Hk H12) as (kc2 & Hk2 & Hk12).
    destruct (Forall2_select_compose _ _ _ _ _ Hv H12) as (vc2 & Hv2 & Hv12).
    exists (Sink (SinkCache.mk kc2 vc2 (SinkCache.window_length st)
                    (SinkCache.num_sink_tokens st) (SinkCache.cos_sin_cache st)
                    (SinkCache.seen_tokens st))).
    split.
    + assert (length kc1 = length vc1) as Hp1.
      { by rewrite (Forall2_length_l _ _ _ Hk), (Forall2_length_l _ _ _ Hv). }
      rewrite (proj2 (sink_reorder_Ok b2
                 (SinkCache.mk kc1 vc1 (SinkCache.window_length st)
                    (SinkCache.num_sink_tokens st) (SinkCache.cos_sin_cache st)
                    (SinkCache.seen_tokens st))
                 (SinkCache.mk kc2 vc2 (SinkCache.window_length st)
                    (SinkCache.num_sink_tokens st) (SinkCache.cos_sin_cache st)
                    (SinkCache.seen_tokens st)) Hp1));
        [done|]. by exists kc2, vc2.
    + rewrite (proj2 (sink_reorder_Ok b12 st
                 (SinkCache.mk kc2 vc2 (SinkCache.window_length st)
                    (SinkCache.num_sink_tokens st) (SinkCache.cos_sin_cache st)
                    (SinkCache.seen_tokens st)) Hp));
        [done|]. by exists kc2, vc2.
  - destruct (StaticCache.reorder_cache b1 st) as [st1 r] eqn:Hr.
    injection H1 as <- ->.
    apply static_reorder_Ok in Hr as (k1 & v1 & Hk & Hv & ->).
    destruct (index_select0_compose _ _ _ _ _ Hk H12) as (k2 & Hk2 & Hk12).
    destruct (index_select0_compose _ _ _ _ _ Hv H12) as (v2 & Hv2 & Hv12).
    exists (Static (StaticCache.mk (StaticCache.max_batch_size st)
                      (StaticCache.max_cache_len st) (StaticCache.head_dim st)
                      (StaticCache.num_key_value_heads st) k2 v2)).
    split.
    + rewrite (proj2 (static_reorder_Ok b2 _
                 (StaticCache.mk (StaticCache.max_batch_size st)
                    (StaticCache.max_cache_len st) (StaticCache.head_dim st)
                    (StaticCache.num_key_value_heads st) k2 v2))); [done|].
      by exists k2, v2.
    + rewrite (proj2 (static_reorder_Ok b12 st
                 (StaticCache.mk (StaticCache.max_batch_size st)
                    (StaticCache.max_cache_len st) (StaticCache.head_dim st)
                    (StaticCache.num_key_value_heads st) k2 v2))); [done|].
      by exists k2, v2.
Qed.

(** X8. Reordering by the indices [0, 1, ..., n - 1] of a cache whose
    tensors all have batch extent [n] returns and changes nothing. *)
Theorem reorder_cache_identity (self : cache A) (n : nat) :
  layers_paired self → batch_extent n self →
  reorder_cache (range (Z.of_nat n)) self = (self, Ok tt).
Proof.
  intros Hp Hn.
  destruct self as [st|st|st]; unfold reorder_cache;
    cbn [layers_paired batch_extent] in *.
  - rewrite (proj2 (dynamic_reorder_Ok _ st st Hp)); [done|].
    destruct Hn as [Hk Hv].
    exists (DynamicCache.key_cache st), (DynamicCache.value_cache st).
    split_and!; [by apply Forall2_select_range..|by destruct st].
  - rewrite (proj2 (sink_reorder_Ok _ st st Hp)); [done|].
    destruct Hn as [Hk Hv].
    exists (SinkCache.key_cache st), (SinkCache.value_cache st).
    split_and!; [by apply Forall2_select_range..|by destruct st].
  - rewrite (proj2 (static_reorder_Ok _ st st)); [done|].
    destruct Hn as [Hk Hv].
    exists (StaticCache.key_cache st), (StaticCache.value_cache st).
    split_and!; [| |by destruct st].
    + rewrite <-Hk. apply index_select0_range.
    + rewrite <-Hv. apply index_select0_range.
Qed.

End Reorder.

Lemma reorder_cache_compose_witness :
  reorder_cache [1; 0; 1] (Dynamic two_beams)
  = (Dynamic (DynamicCache.mk [[[[[2]]]; [[[1]]]; [[[2]]]]]
                [[[[[12]]]; [[[11]]]; [[[12]]]]] 1), Ok tt) ∧
  ∃ self2,
    reorder_cache [2; 0]
      (Dynamic (DynamicCache.mk [[[[[2]]]; [[[1]]]; [[[2]]]]]
                  [[[[[12]]]; [[[11]]]; [[[12]]]]] 1))
    = (self2, Ok tt) ∧
    reorder_cache [1; 1] (Dynamic two_beams) = (self2, Ok tt).
Proof.
  split; [reflexivity|].
  exact (reorder_cache_compose (Dynamic two_beams)
           (Dynamic (DynamicCache.mk [[[[[2]]]; [[[1]]]; [[[2]]]]]
                       [[[[[12]]]; [[[11]]]; [[[12]]]]] 1))
           [1; 0; 1] [2; 0] [1; 1] eq_refl eq_refl eq_refl).
Defined.

Lemma reorder_cache_identity_witness :
  reorder_cache [0; 1] (Dynamic two_beams) = (Dynamic two_beams, Ok tt).
Proof.
  apply (reorder_cache_identity (Dynamic two_beams) 2); [reflexivity|].
  split; repeat constructor.
Defined.

(** ** Index assignment, position by position *)

Section IndexPutPointwise.
Context {A : Type}.
Implicit Types m : table A.
Implicit Types t v : tensor A.

#[local] Instance names_dec n positions p : Decision (names n positions p).
Proof.
  refine (cast_if (decide (Exists (λ q, norm_index n q = Some p) positions)));
    unfold names; rewrite Exists_exists in *; done.
Defined.

(** The last index that names a position. *)
Lemma names_last n positions p :
  names n positions p →
  ∃ j q, positions !! j = Some q ∧ norm_index n q = Some p ∧
         ¬ names n (drop (S j) positions) p.
Proof.
  induction positions as [|q0 positions IH].
  - by intros (q & Hq%elem_of_nil & _).
  - intros Hn. destruct (decide (names n positions p)) as [Hlater|Hlater].
    + destruct (IH Hlater) as (j & q & Hj & Hq & Hl). by exists (S j), q.
    + apply names_cons in Hn as [Hq|Hn]; [|done]. by exists 0%nat, q0.
Qed.

(** Two tensors of one shape with the same rows are the same tensor. *)
Lemma tensor_ext bb hh n d t t' :
  has_shape bb hh n d t → has_shape bb hh n d t' →
  (∀ b h p, tok t b h p = tok t' b h p) → t = t'.
Proof.
  intros [Hb Ht] [Hb' Ht'] Htok.
  apply list_eq_same_length with bb; try done.
  intros b th th' Hlt Hth Hth'.
  rewrite Forall_lookup in Ht, Ht'.
  destruct (Ht _ _ Hth) as [Hh Hm], (Ht' _ _ Hth') as [Hh' Hm'].
  apply list_eq_same_length with hh; try done.
  intros h m m' Hlth Hmm Hmm'.
  rewrite Forall_lookup in Hm, Hm'.
  destruct (Hm _ _ Hmm) as [Hn _], (Hm' _ _ Hmm') as [Hn' _].
  apply list_eq. intros p. specialize (Htok b h p).
  unfold tok, slab in Htok. by rewrite Hth, Hth', Hmm, Hmm' in Htok.
Qed.

Context (bb hh n d k : nat).

(** A later assignment at the same indices replaces an earlier one. *)
Lemma index_put_overwrite t positions v1 v2 t1 :
  has_shape bb hh n d t → has_shape bb hh k d v1 → has_shape bb hh k d v2 →
  length positions = k →
  Forall (λ q, is_Some (norm_index n q)) positions →
  index_put t positions v1 = Ok t1 →
  index_put t1 positions v2 = index_put t positions v2.
Proof.
  intros Ht Hv1 Hv2 Hpos Hq H1.
  destruct (index_put_ok _ _ _ _ _ _ _ _ Ht Hv1 Hpos Hq) as (t1' & H1' & Ht1 & _).
  rewrite H1 in H1'. injection H1' as <-.
  destruct (index_put_ok _ _ _ _ _ _ _ _ Ht1 Hv2 Hpos Hq) as (t2 & H2 & Ht2 & _).
  destruct (index_put_ok _ _ _ _ _ _ _ _ Ht Hv2 Hpos Hq) as (t2' & H2' & Ht2' & _).
  rewrite H2, H2'. f_equal. apply (tensor_ext bb hh n d); try done.
  intros b h p. destruct (decide (names n positions p)) as [Hn|Hn].
  - destruct (names_last _ _ _ Hn) as (j & q & Hj & Hp & Hlast).
    rewrite (index_put_written bb hh n d k t1 positions v2 t2 b h j q p); try done.
    by rewrite (index_put_written bb hh n d k t positions v2 t2' b h j q p).
  - rewrite (index_put_frame _ _ _ _ b h p H2).
    2:{ intros m Hm. by destruct (has_shape_slab _ _ _ _ _ _ _ _ Ht1 Hm) as [-> _]. }
    rewrite (index_put_frame _ _ _ _ b h p H1).
    2:{ intros m Hm. by destruct (has_shape_slab _ _ _ _ _ _ _ _ Ht Hm) as [-> _]. }
    rewrite (index_put_frame _ _ _ _ b h p H2'); [done|].
    intros m Hm. by destruct (has_shape_slab _ _ _ _ _ _ _ _ Ht Hm) as [-> _].
Qed.

(** Assignments at indices that name no common position commute. *)
Lemma index_put_commute (k' : nat) t pa pb va vb ta tb :
  has_shape bb hh n d t → has_shape bb hh k d va → has_shape bb hh k' d vb →
  length pa = k → length pb = k' →
  Forall (λ q, is_Some (norm_index n q)) pa →
  Forall (λ q, is_Some (norm_index n q)) pb →
  (∀ p, names n pa p → names n pb p → False) →
  index_put t pa va = Ok ta → index_put t pb vb = Ok tb →
  index_put ta pb vb = index_put tb pa va.
Proof.
  intros Ht Hva Hvb Hpa Hpb Hqa Hqb Hdis Ha Hb.
  destruct (index_put_ok _ _ _ _ _ _ _ _ Ht Hva Hpa Hqa) as (ta' & Ha' & Hta & _).
  rewrite Ha in Ha'. injection Ha' as <-.
  destruct (index_put_ok _ _ _ _ _ _ _ _ Ht Hvb Hpb Hqb) as (tb' & Hb' & Htb & _).
  rewrite Hb in Hb'. injection Hb' as <-.
  destruct (index_put_ok _ _ _ _ _ _ _ _ Hta Hvb Hpb Hqb) as (tab & Hab & Htab & _).
  destruct (index_put_ok _ _ _ _ _ _ _ _ Htb Hva Hpa Hqa) as (tba & Hba & Htba & _).
  rewrite Hab, Hba. f_equal. apply (tensor_ext bb hh n d); try done.
  assert (∀ t0 ps v0 t0' b h p, has_shape bb hh n d t0 →
            index_put t0 ps v0 = Ok t0' → ¬ names n ps p →
            tok t0' b h p = tok t0 b h p) as Hframe.
  { intros t0 ps v0 t0' b h p Ht0 Hput Hp.
    apply (index_put_frame _ _ _ _ b h p Hput).
    intros m Hm. by destruct (has_shape_slab _ _ _ _ _ _ _ _ Ht0 Hm) as [-> _]. }
  intros b h p. destruct (decide (names n pa p)) as [Hna|Hna].
  - assert (¬ names n pb p) as Hnb by (intros Hnb; by eapply Hdis).
    destruct (names_last _ _ _ Hna) as (j & q & Hj & Hp & Hlast).
    rewrite (Hframe ta pb vb tab) by done.
    rewrite (index_put_written bb hh n d k t pa va ta b h j q p); try done.
    by rewrite (index_put_written bb hh n d k tb pa va tba b h j q p).
  - rewrite (Hframe tb pa va tba) by done.
    destruct (decide (names n pb p)) as [Hnb|Hnb].
    + destruct (names_last _ _ _ Hnb) as (j & q & Hj & Hp & Hlast).
      rewrite (index_put_written bb hh n d k' ta pb vb tab b h j q p); try done.
      by rewrite (index_put_written bb hh n d k' t pb vb tb b h j q p).
    + rewrite (Hframe ta pb vb tab), (Hframe t pa va ta), (Hframe t pb vb tb);
        done.
Qed.

End IndexPutPointwise.

(** ** StaticCache: writes that meet and writes that do not *)

Section StaticWrites.
Context `{Scalar A}.
Implicit Types self : StaticCache.t A.

Lemma static_update_exact self key_states value_states layer_idx kw k_out v_out :
  index_put (StaticCache.key_cache self) (StaticCache.cache_position kw) key_states
  = Ok k_out →
  index_put (StaticCache.value_cache self) (StaticCache.cache_position kw) value_states
  = Ok v_out →
  StaticCache.update key_states value_states layer_idx (Some kw) self
  = (StaticCache.mk (StaticCache.max_batch_size self) (StaticCache.max_cache_len self)
       (StaticCache.head_dim self) (StaticCache.num_key_value_heads self) k_out v_out,
     Ok (k_out, v_out)).
Proof.
  intros Hk Hv. unfold StaticCache.update.
  rewrite bind_lift. cbv beta iota.
  rewrite bind_get, bind_lift, Hk, bind_modify, bind_lift. simpl.
  by rewrite Hv.
Qed.

(** X10. A second [update] at the same [cache_position] replaces the
    first: on buffers of shape [(bb, hh, n, d)], with states of shape
    [(bb, hh, k, d)] and [k] indices in range, the cache and the returned
    buffers after the two calls are those of the second call alone. In
    particular a repeated call changes nothing. *)
Theorem static_update_overwrites self (k1 v1 k2 v2 : tensor A) (l1 l2 : Z)
    (kw : StaticCache.kwargs) (bb hh n d k : nat) :
  has_shape bb hh n d (StaticCache.key_cache self) →
  has_shape bb hh n d (StaticCache.value_cache self) →
  has_shape bb hh k d k1 → has_shape bb hh k d v1 →
  has_shape bb hh k d k2 → has_shape bb hh k d v2 →
  length (StaticCache.cache_position kw) = k →
  Forall (λ q, is_Some (norm_index n q)) (StaticCache.cache_position kw) →
  StaticCache.update k2 v2 l2 (Some kw)
    (StaticCache.update k1 v1 l1 (Some kw) self).1
  = StaticCache.update k2 v2 l2 (Some kw) self.
Proof.
  intros Hk Hv Hk1 Hv1 Hk2 Hv2 Hpos Hq.
  destruct (index_put_ok _ _ _ _ _ _ _ _ Hk Hk1 Hpos Hq) as (ko1 & Hko1 & Hks1 & _).
  destruct (index_put_ok _ _ _ _ _ _ _ _ Hv Hv1 Hpos Hq) as (vo1 & Hvo1 & Hvs1 & _).
  destruct (index_put_ok _ _ _ _ _ _ _ _ Hk Hk2 Hpos Hq) as (ko2 & Hko2 & _).
  destruct (index_put_ok _ _ _ _ _ _ _ _ Hv Hv2 Hpos Hq) as (vo2 & Hvo2 & _).
  rewrite (static_update_exact self k1 v1 l1 kw ko1 vo1 Hko1 Hvo1).
  rewrite (static_update_exact self k2 v2 l2 kw ko2 vo2 Hko2 Hvo2).
  cbn [fst].
  rewrite (static_update_exact _ k2 v2 l2 kw ko2 vo2); [done| |]; simpl.
  - by rewrite (index_put_overwrite bb hh n d k (StaticCache.key_cache self)
                  (StaticCache.cache_position kw) k1 k2 ko1).
  - by rewrite (index_put_overwrite bb hh n d k (StaticCache.value_cache self)
                  (StaticCache.cache_position kw) v1 v2 vo1).
Qed.

(** X11. Two calls of [update] whose index vectors name no common position
    leave the same cache in either order. *)
Theorem static_updates_commute self (ka va kb vb : tensor A) (la lb : Z)
    (kwa kwb : StaticCache.kwargs) (bb hh n d k k' : nat) :
  has_shape bb hh n d (StaticCache.key_cache self) →
  has_shape bb hh n d (StaticCache.value_cache self) →
  has_shape bb hh k d ka → has_shape bb hh k d va →
  has_shape bb hh k' d kb → has_shape bb hh k' d vb →
  length (StaticCache.cache_position kwa) = k →
  length (StaticCache.cache_position kwb) = k' →
  Forall (λ q, is_Some (norm_index n q)) (StaticCache.cache_position kwa) →
  Forall (λ q, is_Some (norm_index n q)) (StaticCache.cache_position kwb) →
  (∀ p, names n (StaticCache.cache_position kwa) p →
        names n (StaticCache.cache_position kwb) p → False) →
  run_all [StaticCache.update ka va la (Some kwa);
           StaticCache.update kb vb lb (Some kwb)] self
  = run_all [StaticCache.update kb vb lb (Some kwb);
             StaticCache.update ka va la (Some kwa)] self.
Proof.
  intros Hk Hv Hka Hva Hkb Hvb Hpa Hpb Hqa Hqb Hdis. unfold run_all. simpl.
  destruct (index_put_ok _ _ _ _ _ _ _ _ Hk Hka Hpa Hqa) as (koa & Hkoa & Hksa & _).
  destruct (index_put_ok _ _ _ _ _ _ _ _ Hv Hva Hpa Hqa) as (voa & Hvoa & Hvsa & _).
  destruct (index_put_ok _ _ _ _ _ _ _ _ Hk Hkb Hpb Hqb) as (kob & Hkob & Hksb & _).
  destruct (index_put_ok _ _ _ _ _ _ _ _ Hv Hvb Hpb Hqb) as (vob & Hvob & Hvsb & _).
  destruct (index_put_ok _ _ _ _ _ _ _ _ Hksa Hkb Hpb Hqb) as (kab & Hkab & _).
  destruct (index_put_ok _ _ _ _ _ _ _ _ Hvsa Hvb Hpb Hqb) as (vab & Hvab & _).
  pose proof (index_put_commute bb hh n d k k' _ _ _ ka kb koa kob
                Hk Hka Hkb Hpa Hpb Hqa Hqb Hdis Hkoa Hkob) as Hkc.
  pose proof (index_put_commute bb hh n d k k' _ _ _ va vb voa vob
                Hv Hva Hvb Hpa Hpb Hqa Hqb Hdis Hvoa Hvob) as Hvc.
  rewrite Hkab in Hkc. rewrite Hvab in Hvc.
  rewrite (static_update_exact self ka va la kwa koa voa Hkoa Hvoa).
  rewrite (static_update_exact self kb vb lb kwb kob vob Hkob Hvob).
  cbn [fst].
  rewrite (static_update_exact _ kb vb lb kwb kab vab) by done.
  by rewrite (static_update_exact _ ka va la kwa kab vab) by done.
Qed.

End StaticWrites.

Lemma static_update_overwrites_witness :
  StaticCache.update (chunk 30 3) (chunk 40 3) 0 (Some at_5_6_7)
    (StaticCache.update (chunk 10 3) (chunk 20 3) 4 (Some at_5_6_7) eight_slots).1
  = StaticCache.update (chunk 30 3) (chunk 40 3) 0 (Some at_5_6_7) eight_slots.
Proof.
  apply (static_update_overwrites eight_slots (chunk 10 3) (chunk 20 3)
           (chunk 30 3) (chunk 40 3) 4 0 at_5_6_7 1 1 8 1 3).
  all: try reflexivity.
  all: try (repeat (split || constructor)).
  all: repeat constructor; by eexists.
Defined.

Lemma static_updates_commute_witness :
  run_all [StaticCache.update (chunk 10 3) (chunk 20 3) 0 (Some at_5_6_7);
           StaticCache.update (chunk 30 2) (chunk 40 2) 0
             (Some {| StaticCache.cache_position := [0; 1] |})] eight_slots
  = run_all [StaticCache.update (chunk 30 2) (chunk 40 2) 0
               (Some {| StaticCache.cache_position := [0; 1] |});
             StaticCache.update (chunk 10 3) (chunk 20 3) 0 (Some at_5_6_7)]
      eight_slots.
Proof.
  apply (static_updates_commute eight_slots (chunk 10 3) (chunk 20 3)
           (chunk 30 2) (chunk 40 2) 0 0 at_5_6_7
           {| StaticCache.cache_position := [0; 1] |} 1 1 8 1 3 2).
  all: try reflexivity.
  all: try (repeat (split || constructor); fail).
  all: try (repeat constructor; by eexists).
  intros p (qa & Hqa & Hpa) (qb & Hqb & Hpb).
  repeat (apply elem_of_cons in Hqa as [->|Hqa]);
    try (by apply elem_of_nil in Hqa);
    repeat (apply elem_of_cons in Hqb as [->|Hqb]);
    try (by apply elem_of_nil in Hqb);
    vm_compute in Hpa, Hpb; congruence.
Defined.


(** ** rotate_half, twice *)

Section RotateHalfTwice.
Context `{Scalar A}.

Lemma spec_rotate_half_twice (r : list A) (d : nat) :
  length r = (2 * d)%nat →
  spec_rotate_half (spec_rotate_half r) = neg <$> r.
Proof.
  intros Hr.
  assert (((2 * d) `div` 2)%nat = d) as Hdiv
    by (rewrite Nat.mul_comm; by apply Nat.div_mul).
  unfold spec_rotate_half at 1. rewrite length_spec_rotate_half, Hr, Hdiv.
  unfold spec_rotate_half. rewrite Hr, Hdiv.
  assert (length (neg <$> drop d r) = d) as Hl
    by (rewrite length_fmap, length_drop; lia).
  rewrite drop_app_length' by done.
  rewrite take_app_length' by done.
  by rewrite <-fmap_app, take_drop.
Qed.

(** X12. On a tensor of shape [(b, h, n, 2d)], an even head dimension,
    [_rotate_half] applied twice negates every entry. *)
Theorem rotate_half_twice_negates (b h n d : nat) (x : tensor A) :
  (0 < b)%nat → (0 < h)%nat → (0 < n)%nat →
  has_shape b h n (2 * d) x →
  (y ← SinkCache._rotate_half x; SinkCache._rotate_half y) = Ok (map4d neg x).
Proof.
  intros Hb Hh Hn Hx.
  rewrite (rotate_half_exact b h n (2 * d)) by done. simpl.
  rewrite (rotate_half_exact b h n (2 * d)); try done.
  2:{ eapply has_shape_fmap; [|done]. intros m Hm.
      eapply is_table_fmap; [|done]. intros r <-. apply length_spec_rotate_half. }
  f_equal. unfold map4d, map2d. rewrite <-list_fmap_compose.
  apply list_fmap_ext. intros i th Hth. simpl. rewrite <-list_fmap_compose.
  apply list_fmap_ext. intros j m Hm. simpl. rewrite <-list_fmap_compose.
  apply list_fmap_ext. intros q r Hr. simpl.
  apply (spec_rotate_half_twice r d).
  eapply is_table_lookup; [|done]. by eapply has_shape_lookup2.
Qed.

End RotateHalfTwice.

Lemma rotate_half_twice_negates_witness :
  (y ← SinkCache._rotate_half [[[[1; 2; 3; 4]]]]; SinkCache._rotate_half y)
  = Ok [[[[-1; -2; -3; -4]]]].
Proof.
  refine (rotate_half_twice_negates 1 1 1 2 [[[[1; 2; 3; 4]]]] _ _ _ _); try lia.
  repeat (split || constructor).
Defined.

(** ** The usable length of a SinkCache *)

Section SinkUsable.
Context {A : Type}.

(** X13. Where [get_seq_length] returns [L], [get_usable_length] of a
    [SinkCache] with window [W] returns a length [u] with [u <= L] and
    [u + c <= W]; it is [L] exactly when the chunk fits beside the cached
    tokens, and it is negative exactly when the chunk alone is longer
    than the window. *)
Theorem sink_usable_length_bounds (st : SinkCache.t A) (c layer_idx L : Z) :
  SinkCache.get_seq_length st layer_idx = Ok L →
  0 ≤ L ∧
  ∃ u, get_usable_length (Sink st) c layer_idx = Ok u ∧
       u ≤ L ∧ u + c ≤ SinkCache.window_length st ∧
       (u = L ↔ L + c ≤ SinkCache.window_length st) ∧
       (u < 0 ↔ SinkCache.window_length st < c).
Proof.
  intros HL.
  assert (0 ≤ L) as HL0.
  { unfold SinkCache.get_seq_length in HL. case_bool_decide.
    - by injection HL as <-.
    - destruct (getitem _ _) as [k|]; simpl in HL; [|done].
      injection HL as <-. apply shape_m2_nonneg. }
  split; [done|]. simpl. unfold Cache.get_usable_length. simpl.
  rewrite HL. simpl. case_bool_decide; eexists; (split; [done|]); lia.
Qed.

End SinkUsable.

Lemma sink_usable_length_bounds_witness :
  0 ≤ 8 ∧
  ∃ u, get_usable_length (Sink eight_of_eight) 9 0 = Ok u ∧
       u ≤ 8 ∧ u + 9 ≤ SinkCache.window_length eight_of_eight ∧
       (u = 8 ↔ 8 + 9 ≤ SinkCache.window_length eight_of_eight) ∧
       (u < 0 ↔ SinkCache.window_length eight_of_eight < 9).
Proof. exact (sink_usable_length_bounds eight_of_eight 9 0 8 eq_refl). Defined.

(** ** What every call of update keeps *)

Section UpdateInvariants.
Context `{Scalar A}.

Lemma dynamic_update_paired {K} (st : DynamicCache.t A) k v idx (kw : option K) :
  length (DynamicCache.key_cache st) = length (DynamicCache.value_cache st) →
  wp (DynamicCache.update k v idx kw)
     (λ _ st', length (DynamicCache.key_cache st')
               = length (DynamicCache.value_cache st')) st.
Proof.
  intros Hlen. unfold DynamicCache.update. wp_go; simpl in *; try done.
  all: rewrite ?length_app; simpl; try lia.
  all: repeat match goal with
         | Hs : setitem _ _ _ = Ok _ |- _ =>
             apply setitem_length in Hs; unfold len in Hs
         end; lia.
Qed.

(** The rotation of the kept keys changes the memo by at most one new
    entry and nothing else. *)
Lemma sink_rerotation_memo_grows (st : SinkCache.t A) k cos sin :
  wp (SinkCache._get_rerotation_cos_sin k cos sin)
     (λ _ st', ∃ m, st' = SinkCache.set_cos_sin_cache m st ∧
                    SinkCache.cos_sin_cache st ⊆ m) st.
Proof.
  destruct (sink_memo_id st) as [m0 Hst].
  unfold SinkCache._get_rerotation_cos_sin. wp_go; simpl.
  all: try (exists (SinkCache.cos_sin_cache st); split; [by destruct st|done]).
  all: eexists; (split; [reflexivity|]); by apply insert_subseteq.
Qed.

Lemma sink_update_keeps (st : SinkCache.t A) k v idx kw :
  wp (SinkCache.update k v idx kw)
     (λ _ st',
        (length (SinkCache.key_cache st) = length (SinkCache.value_cache st) →
         length (SinkCache.key_cache st') = length (SinkCache.value_cache st')) ∧
        SinkCache.cos_sin_cache st ⊆ SinkCache.cos_sin_cache st' ∧
        SinkCache.window_length st' = SinkCache.window_length st ∧
        SinkCache.num_sink_tokens st' = SinkCache.num_sink_tokens st) st.
Proof.
  unfold SinkCache.update.
  destruct kw as [kw|]; [|done].
  apply wp_bind, wp_lift, wp_bind.
  eapply wp_mono; [apply sink_count_tokens|].
  intros r st1 [-> [n ->]].
  apply wp_bind, wp_get. cbv beta. simpl. apply wp_bind.
  assert (∀ (l l' : list (tensor A)) i x,
            setitem l i x = Ok l' → length l' = length l) as Hset.
  { intros l l' i x Hs. apply setitem_length in Hs. unfold len in Hs. lia. }
  case_bool_decide.
  { (* Empty cache *)
    wp_go; simpl; rewrite ?length_app; simpl; split_and!; try done; lia. }
  apply wp_bind, wp_lift.
  destruct (SinkCache.get_seq_length _ idx) as [seq_length|]; [|done].
  case_bool_decide.
  { (* Growing cache *)
    wp_go; simpl in *; split_and!; try done.
    all: repeat match goal with
           | Hs : setitem _ _ _ = Ok _ |- _ => apply Hset in Hs
           end; lia. }
  (* Shifting cache *)
  apply wp_bind, wp_lift.
  destruct (getitem _ idx) as [old|] eqn:Hold; [|done].
  apply wp_bind.
  eapply (wp_mono _ (λ _ st', ∃ m,
    st' = SinkCache.set_cos_sin_cache m (SinkCache.set_seen_tokens n st) ∧
    SinkCache.cos_sin_cache st ⊆ m)).
  { destruct (SinkCache.cos kw), (SinkCache.sin kw);
      try (apply wp_ret; exists (SinkCache.cos_sin_cache st);
           split; [by destruct st|done]).
    apply wp_bind. eapply wp_mono; [apply sink_rerotation_memo_grows|].
    intros [[rc rs]|] st2 (m & -> & Hm); [|by exists m].
    destruct (SinkCache.partial_rotation_size kw); wp_go; by exists m. }
  intros [keys_to_keep|] st2 (m & -> & Hm); [|done].
  wp_go; simpl in *; split_and!; try done.
  all: repeat match goal with
         | Hs : setitem _ _ _ = Ok _ |- _ => apply Hset in Hs
         end; lia.
Qed.

(** X14. Through any calls of [update], returning or raising,
    a [DynamicCache] and a [SinkCache] that hold one value tensor per key
    tensor go on doing so. *)
Theorem update_keeps_layers_paired {K} (dyn : DynamicCache.t A) (sink : SinkCache.t A)
    (dyn_calls : list (tensor A * tensor A * Z * option K))
    (sink_calls : list (tensor A * tensor A * Z * option (SinkCache.kwargs A))) :
  layers_paired (Dynamic dyn) → layers_paired (Sink sink) →
  layers_paired
    (Dynamic (run_all ((λ c, DynamicCache.update c.1.1.1 c.1.1.2 c.1.2 c.2)
                         <$> dyn_calls) dyn)) ∧
  layers_paired
    (Sink (run_all ((λ c, SinkCache.update c.1.1.1 c.1.1.2 c.1.2 c.2)
                      <$> sink_calls) sink)).
Proof.
  simpl. unfold run_all. intros Hd Hs. split.
  - revert dyn Hd. induction dyn_calls as [|c calls IH]; intros st Hst; [done|].
    simpl. apply IH.
    exact (dynamic_update_paired st c.1.1.1 c.1.1.2 c.1.2 c.2 Hst).
  - revert sink Hs. induction sink_calls as [|c calls IH]; intros st Hst; [done|].
    simpl. apply IH.
    exact (proj1 (sink_update_keeps st c.1.1.1 c.1.1.2 c.1.2 c.2) Hst).
Qed.

(** X15. Through any calls of [update] on a [SinkCache], returning or
    raising, the window length and the number of sink tokens stay as they
    are and an entry of the memo of correction tables is never replaced
    or removed. *)
Theorem sink_memo_entries_persist (st : SinkCache.t A)
    (calls : list (tensor A * tensor A * Z * option (SinkCache.kwargs A)))
    (c : Z) (tables : tensor3 A * tensor3 A) :
  SinkCache.cos_sin_cache st !! c = Some tables →
  let st' := run_all ((λ c, SinkCache.update c.1.1.1 c.1.1.2 c.1.2 c.2) <$> calls) st in
  SinkCache.cos_sin_cache st' !! c = Some tables ∧
  SinkCache.window_length st' = SinkCache.window_length st ∧
  SinkCache.num_sink_tokens st' = SinkCache.num_sink_tokens st.
Proof.
  simpl. unfold run_all. revert st.
  induction calls as [|call calls IH]; intros st Hc; [done|]. simpl.
  pose proof (sink_update_keeps st call.1.1.1 call.1.1.2 call.1.2 call.2) as Hwp.
  unfold wp in Hwp. destruct Hwp as (_ & Hm & HW & HS).
  rewrite <-HW, <-HS. apply IH. by eapply lookup_weaken.
Qed.

End UpdateInvariants.

Lemma update_keeps_layers_paired_witness :
  layers_paired
    (Dynamic (run_all ((λ c, DynamicCache.update c.1.1.1 c.1.1.2 c.1.2 c.2)
                         <$> [(chunk 3 1, chunk 13 1, 0, @None unit);
                              (chunk 9 1, [[[[19; 20]]]], 1, None)])
                two_layers)) ∧
  layers_paired
    (Sink (run_all ((λ c, SinkCache.update c.1.1.1 c.1.1.2 c.1.2 c.2)
                      <$> four_steps) six_of_eight)).
Proof.
  apply (update_keeps_layers_paired two_layers six_of_eight); reflexivity.
Defined.

Lemma sink_memo_entries_persist_witness :
  let st :=
    (SinkCache.update (chunk 300 1) (chunk 400 1) 0 (Some with_rope) eight_of_eight).1 in
  let st' :=
    run_all ((λ c, SinkCache.update c.1.1.1 c.1.1.2 c.1.2 c.2) <$> four_steps) st in
  SinkCache.cos_sin_cache st' !! 1
  = Some ([[[18]; [32]; [50]; [72]; [98]]], [[[-1]; [-1]; [-1]; [-1]; [-1]]]) ∧
  SinkCache.window_length st' = SinkCache.window_length st ∧
  SinkCache.num_sink_tokens st' = SinkCache.num_sink_tokens st.
Proof.
  exact (sink_memo_entries_persist
           (SinkCache.update (chunk 300 1) (chunk 400 1) 0 (Some with_rope)
              eight_of_eight).1
           four_steps 1
           ([[[18]; [32]; [50]; [72]; [98]]], [[[-1]; [-1]; [-1]; [-1]; [-1]]])
           eq_refl).
Defined.

(** ** The memo of correction tables is keyed by the chunk length only *)

Section Stale.
Context `{Scalar A}.
Implicit Types st : SinkCache.t A.

Lemma rerotation_hit st (k : tensor A) (cos sin : table A) tables :
  SinkCache.cos_sin_cache st !! shape_m2 k = Some tables →
  SinkCache._get_rerotation_cos_sin k cos sin st = (st, Ok tables).
Proof.
  intros Hhit. unfold SinkCache._get_rerotation_cos_sin.
  rewrite bind_get, Hhit, bind_ret, bind_get. by rewrite Hhit.
Qed.

Lemma bind_rerotation_hit {Y} st (k : tensor A) (cos sin : table A) tables
    (f : tensor3 A * tensor3 A → M (SinkCache.t A) Y) :
  SinkCache.cos_sin_cache st !! shape_m2 k = Some tables →
  (SinkCache._get_rerotation_cos_sin k cos sin ≫= f) st = f tables st.
Proof.
  intros Hhit. unfold mbind at 1, M_bind at 1. by rewrite (rerotation_hit _ _ _ _ tables).
Qed.

(** X16. Once correction tables are memoised for a chunk length, [update]
    with that chunk length never reads the [cos] and [sin] it is given:
    two options maps that both carry tables and agree on
    [partial_rotation_size] give the same state and the same result,
    whatever their tables hold. *)
Theorem sink_update_ignores_tables_once_memoised st (key_states value_states : tensor A)
    (layer_idx : Z) (kw kw' : SinkCache.kwargs A) :
  is_Some (SinkCache.cos_sin_cache st !! shape_m2 key_states) →
  is_Some (SinkCache.cos kw) → is_Some (SinkCache.sin kw) →
  is_Some (SinkCache.cos kw') → is_Some (SinkCache.sin kw') →
  SinkCache.partial_rotation_size kw = SinkCache.partial_rotation_size kw' →
  SinkCache.update key_states value_states layer_idx (Some kw) st
  = SinkCache.update key_states value_states layer_idx (Some kw') st.
Proof.
  intros [tables Hhit] [cos Hcos] [sin Hsin] [cos' Hcos'] [sin' Hsin'] Hp.
  unfold SinkCache.update.
  rewrite !bind_lift. cbv beta iota zeta.
  rewrite !bind_when_modify. rewrite !bind_get. cbv beta.
  rewrite Hp, Hcos, Hsin, Hcos', Hsin'.
  set (st1 := if bool_decide (layer_idx = 0) then _ else st).
  assert (SinkCache.cos_sin_cache st1 !! shape_m2 key_states = Some tables) as Hhit1.
  { subst st1. by case_bool_decide. }
  clearbody st1. clear Hhit.
  case_bool_decide; [done|].
  rewrite !bind_assoc, !bind_lift.
  destruct (SinkCache.get_seq_length st1 layer_idx) as [seq_length|]; [|done].
  case_bool_decide; [done|].
  rewrite !bind_assoc, !bind_lift.
  destruct (getitem (SinkCache.key_cache st1) layer_idx) as [old|]; [|done].
  rewrite !bind_assoc.
  by rewrite !(bind_rerotation_hit st1 key_states _ _ tables).
Qed.

End Stale.

Lemma sink_update_ignores_tables_once_memoised_witness :
  let st :=
    (SinkCache.update (chunk 300 1) (chunk 400 1) 0 (Some with_rope) eight_of_eight).1 in
  SinkCache.update (chunk 301 1) (chunk 401 1) 0 (Some with_rope) st
  = SinkCache.update (chunk 301 1) (chunk 401 1) 0
      (Some {| SinkCache.sin := Some [[7]; [7]];
               SinkCache.cos := Some [];
               SinkCache.partial_rotation_size := None |}) st.
Proof.
  apply (sink_update_ignores_tables_once_memoised
           (SinkCache.update (chunk 300 1) (chunk 400 1) 0 (Some with_rope)
              eight_of_eight).1
           (chunk 301 1) (chunk 401 1) 0 with_rope
           {| SinkCache.sin := Some [[7]; [7]];
              SinkCache.cos := Some [];
              SinkCache.partial_rotation_size := None |}).
  all: try reflexivity.
  all: by eexists.
Defined.

(** ** Below its window a SinkCache is a DynamicCache *)

Section BelowWindow.
Context `{Scalar A}.

Ltac run_head :=
  repeat (rewrite ?bind_assoc;
          first [rewrite bind_get | rewrite bind_lift | rewrite bind_modify
                | rewrite bind_when_modify | rewrite bind_ret];
          cbv beta iota zeta).

(** X17. On a layer the cache does not hold yet, and on a layer whose
    length [L] leaves room for the chunk ([c + L < window_length]),
    [SinkCache.update] does what [DynamicCache.update] does on the same
    lists of tensors and the same counter, with the same result, value or
    exception; the options map, the window, the sink tokens and the memo
    play no part. *)
Theorem sink_update_below_window_as_dynamic (st : SinkCache.t A)
    (key_states value_states : tensor A) (layer_idx L : Z) (kw : SinkCache.kwargs A) :
  SinkCache.get_seq_length st layer_idx = Ok L →
  len (SinkCache.key_cache st) ≤ layer_idx ∨
  shape_m2 key_states + L < SinkCache.window_length st →
  let dyn :=
    DynamicCache.update key_states value_states layer_idx (Some kw)
      (DynamicCache.mk (SinkCache.key_cache st) (SinkCache.value_cache st)
         (SinkCache.seen_tokens st)) in
  SinkCache.update key_states value_states layer_idx (Some kw) st
  = (SinkCache.mk (DynamicCache.key_cache dyn.1) (DynamicCache.value_cache dyn.1)
       (SinkCache.window_length st) (SinkCache.num_sink_tokens st)
       (SinkCache.cos_sin_cache st) (DynamicCache.seen_tokens dyn.1),
     dyn.2).
Proof.
  intros HL Hroom dyn. subst dyn.
  destruct st as [kc vc W S memo seen]. simpl in Hroom.
  unfold SinkCache.update, DynamicCache.update.
  run_head. simpl.
  destruct (bool_decide (layer_idx = 0)); simpl.
  all: case_bool_decide as Hlen.
  all: try (run_head; simpl;
            destruct (getitem (kc ++ [key_states]) layer_idx); [|done];
            run_head; simpl;
            by destruct (getitem (vc ++ [value_states]) layer_idx)).
  all: destruct Hroom as [?|Hroom]; [contradiction|].
  all: unfold SinkCache.get_seq_length in *; simpl in *.
  all: rewrite bool_decide_false in HL by done.
  all: rewrite ?(bool_decide_false (len kc ≤ layer_idx)) by done.
  all: run_head.
  all: destruct (getitem kc layer_idx) as [old|]; simpl in HL; [|done].
  all: injection HL as <-; simpl.
  all: rewrite (bool_decide_true (shape_m2 key_states + shape_m2 old < W)) by done.
  all: run_head.
  all: destruct (cat_m2 [old; key_states]) as [new|]; [|done].
  all: run_head.
  all: destruct (setitem kc layer_idx new) as [kc'|]; [|done].
  all: run_head; simpl.
  all: destruct (getitem vc layer_idx) as [oldv|]; [|done].
  all: run_head.
  all: destruct (cat_m2 [oldv; value_states]) as [newv|]; [|done].
  all: run_head.
  all: destruct (setitem vc layer_idx newv) as [vc'|]; [|done].
  all: run_head; simpl.
  all: destruct (getitem kc' layer_idx); [|done].
  all: run_head; simpl.
  all: by destruct (getitem vc' layer_idx).
Qed.

End BelowWindow.


Lemma sink_update_below_window_as_dynamic_witness :
  SinkCache.update (chunk 300 1) (chunk 400 1) 0 (Some with_rope) six_of_eight
  = (SinkCache.mk
       [[[[[100]; [101]; [102]; [103]; [104]; [105]; [300]]]]]
       [[[[[200]; [201]; [202]; [203]; [204]; [205]; [400]]]]] 8 2 ∅ 7,
     Ok ([[[[100]; [101]; [102]; [103]; [104]; [105]; [300]]]],
         [[[[200]; [201]; [202]; [203]; [204]; [205]; [400]]]])) ∧
  DynamicCache.update (chunk 300 1) (chunk 400 1) 0 (Some with_rope)
    (DynamicCache.mk [chunk 100 6] [chunk 200 6] 6)
  = (DynamicCache.mk
       [[[[[100]; [101]; [102]; [103]; [104]; [105]; [300]]]]]
       [[[[[200]; [201]; [202]; [203]; [204]; [205]; [400]]]]] 7,
     Ok ([[[[100]; [101]; [102]; [103]; [104]; [105]; [300]]]],
         [[[[200]; [201]; [202]; [203]; [204]; [205]; [400]]]])).
Proof.
  split; [|reflexivity].
  assert (shape_m2 (chunk 300 1) + 6 < SinkCache.window_length six_of_eight) as Hroom
    by (by vm_compute).
  exact (sink_update_below_window_as_dynamic six_of_eight (chunk 300 1) (chunk 400 1)
           0 6 with_rope eq_refl (or_intror Hroom)).
Defined.

(** ** The counter of seen tokens, over many calls *)

Section SeenTotals.
Context `{Scalar A}.

(** The tokens of the calls on layer 0. *)
Lemma seen_tokens_run {S C} (upd : C → M S (tensor A * tensor A)) (seen : S → Z)
    (count : C → Z) (calls : list C) (s : S) :
  (∀ c s, seen (upd c s).1 = seen s + count c) →
  seen (run_all (upd <$> calls) s) = seen s + foldr Z.add 0 (count <$> calls).
Proof.
  intros Hstep. unfold run_all. revert s.
  induction calls as [|c calls IH]; intros s; [simpl; lia|].
  rewrite !fmap_cons. cbn [fold_left foldr]. rewrite IH, Hstep. lia.
Qed.

(** X18. After any calls of [update], returning or raising,
    [seen_tokens] of a [DynamicCache] is its value before plus the chunk
    lengths of all the calls made for layer 0; for a [SinkCache] the
    same holds with the calls that carry an options map, so the counter
    goes on growing when tokens are evicted. *)
Theorem seen_tokens_totals :
  (∀ K (st : DynamicCache.t A)
     (calls : list (tensor A * tensor A * Z * option K)),
     DynamicCache.seen_tokens
       (run_all ((λ c, DynamicCache.update c.1.1.1 c.1.1.2 c.1.2 c.2) <$> calls) st)
     = DynamicCache.seen_tokens st
       + foldr Z.add 0
           ((λ c, if bool_decide (c.1.2 = 0) then shape_m2 c.1.1.1 else 0)
              <$> calls)) ∧
  (∀ (st : SinkCache.t A)
     (calls : list (tensor A * tensor A * Z * option (SinkCache.kwargs A))),
     SinkCache.seen_tokens
       (run_all ((λ c, SinkCache.update c.1.1.1 c.1.1.2 c.1.2 c.2) <$> calls) st)
     = SinkCache.seen_tokens st
       + foldr Z.add 0
           ((λ c, if bool_decide (c.1.2 = 0 ∧ is_Some c.2)
                  then shape_m2 c.1.1.1 else 0) <$> calls)).
Proof.
  split.
  - intros K st calls.
    apply (seen_tokens_run
             (λ c, DynamicCache.update c.1.1.1 c.1.1.2 c.1.2 c.2)
             DynamicCache.seen_tokens).
    intros c s.
    exact (dynamic_update_seen_tokens s c.1.1.1 c.1.1.2 c.1.2 c.2).
  - intros st calls.
    apply (seen_tokens_run
             (λ c, SinkCache.update c.1.1.1 c.1.1.2 c.1.2 c.2)
             SinkCache.seen_tokens).
    intros [[[k v] idx] [kw|]] s; simpl.
    + pose proof (sink_update_seen_tokens s k v idx kw) as Hwp.
      unfold wp in Hwp. rewrite Hwp.
      destruct (decide (idx = 0)) as [->|Hne].
      * rewrite (bool_decide_true (0 = 0)), (bool_decide_true (_ ∧ _));
          by eauto.
      * rewrite (bool_decide_false (idx = 0)), (bool_decide_false (_ ∧ _));
          try done. by intros [? _].
    + rewrite bool_decide_false; [lia|]. intros [_ [? ?]]. done.
Qed.

End SeenTotals.

(** ** A chunk that the window cannot take beside the sink tokens *)

Section LongChunk.
Context `{Scalar A}.
Implicit Types st : SinkCache.t A.
Implicit Types m : table A.

Lemma slice_seq_from (a : nat) (t : tensor A) :
  slice_seq (Some (Z.of_nat a)) None t
  = fmap (M := list) (fmap (M := list) (drop a)) t.
Proof.
  unfold slice_seq. apply list_fmap_ext. intros i th _.
  apply list_fmap_ext. intros j m _.
  by rewrite slice_from_nonneg, Nat2Z.id by lia.
Qed.

(** X19. A chunk of [c >= w - s] tokens on a layer that is there, without
    rotary tables. The slice of the tokens to keep starts at
    [-w + s + c >= 0], so it drops the first [s + c - w] tokens of the
    old tensor and keeps the rest: [update] stores and returns the first
    [s] old tokens, the old tokens from position [s + c - w] on, and the
    chunk. On a layer that holds at least [s] tokens and at least one,
    the layer is longer than the window afterwards. *)
Theorem sink_shift_chunk_fills_window st (key_states value_states old old_v : tensor A)
    (layer : nat) (kw : SinkCache.kwargs A) (b h len_ c d s w : nat) :
  (0 < b)%nat → (0 < h)%nat → (0 < c)%nat →
  SinkCache.window_length st = Z.of_nat w →
  SinkCache.num_sink_tokens st = Z.of_nat s →
  (w ≤ s + c)%nat → (w ≤ c + len_)%nat →
  SinkCache.key_cache st !! layer = Some old →
  SinkCache.value_cache st !! layer = Some old_v →
  has_shape b h len_ d old → has_shape b h len_ d old_v →
  has_shape b h c d key_states → has_shape b h c d value_states →
  SinkCache.cos kw = None ∨ SinkCache.sin kw = None →
  let new_k :=
    zip_with (zip_with (λ m m', take s m ++ drop (s + c - w) m ++ m'))
      old key_states in
  let new_v :=
    zip_with (zip_with (λ m m', take s m ++ drop (s + c - w) m ++ m'))
      old_v value_states in
  let st' :=
    SinkCache.mk (<[layer:=new_k]> (SinkCache.key_cache st))
      (<[layer:=new_v]> (SinkCache.value_cache st))
      (SinkCache.window_length st) (SinkCache.num_sink_tokens st)
      (SinkCache.cos_sin_cache st)
      (if bool_decide (Z.of_nat layer = 0)
       then SinkCache.seen_tokens st + Z.of_nat c else SinkCache.seen_tokens st) in
  SinkCache.update key_states value_states (Z.of_nat layer) (Some kw) st
  = (st', Ok (new_k, new_v)) ∧
  SinkCache.get_seq_length st' (Z.of_nat layer)
  = Ok (Z.of_nat (s `min` len_ + (len_ - (s + c - w)) + c)) ∧
  ((s ≤ len_)%nat → (0 < len_)%nat →
   (w < s `min` len_ + (len_ - (s + c - w)) + c)%nat).
Proof.
  intros Hb Hh Hc HW HS Hsc Hfull Hold Holdv Hso Hsov Hsk Hsv Hrope.
  destruct st as [kc vc W S memo seen]. simpl in *. subst W S.
  assert (∀ t : tensor A,
            slice_seq (Some (- Z.of_nat w + Z.of_nat s + Z.of_nat c)) None t
            = fmap (M := list) (fmap (M := list) (drop (s + c - w))) t) as HD.
  { intros t. rewrite <-slice_seq_from. do 2 f_equal. lia. }
  split_and!.
  - apply (sink_shift_with kc vc memo seen key_states value_states old old_v layer kw
             b h len_ c d s w (drop (s + c - w)) (drop (s + c - w)) memo);
      try done.
    + intros m [_ Hm]. by apply Forall_drop.
    + intros m [_ Hm]. by apply Forall_drop.
    + intros n. simpl.
      pose proof (shape_m2_has_shape _ _ _ _ _ Hb Hh Hsk) as Hck.
      rewrite Hck, HD.
      destruct (SinkCache.cos kw), (SinkCache.sin kw); try by apply wp_ret.
      by destruct Hrope.
  - apply (sink_seq_length_insert _ _ _ _ _ _ _ _ b h _ d); try done.
    { by eapply lookup_lt_Some. }
    eapply has_shape_zip_with; [|done..]. intros m m' Hm Hm'.
    replace (s `min` len_ + (len_ - (s + c - w)) + c)%nat
      with (s `min` len_ + ((len_ - (s + c - w)) + c))%nat by lia.
    apply is_table_app; [by apply is_table_take|].
    apply is_table_app; [|done]. by apply is_table_drop.
  - lia.
Qed.

End LongChunk.

Lemma sink_shift_chunk_fills_window_witness :
  SinkCache.update (chunk 300 6) (chunk 400 6) 0 (Some no_rope) six_of_eight
  = (SinkCache.mk
       [[[[[100]; [101]; [100]; [101]; [102]; [103]; [104]; [105];
           [300]; [301]; [302]; [303]; [304]; [305]]]]]
       [[[[[200]; [201]; [200]; [201]; [202]; [203]; [204]; [205];
           [400]; [401]; [402]; [403]; [404]; [405]]]]] 8 2 ∅ 12,
     Ok ([[[[100]; [101]; [100]; [101]; [102]; [103]; [104]; [105];
            [300]; [301]; [302]; [303]; [304]; [305]]]],
         [[[[200]; [201]; [200]; [201]; [202]; [203]; [204]; [205];
            [400]; [401]; [402]; [403]; [404]; [405]]]])) ∧
  SinkCache.get_seq_length
    (SinkCache.mk
       [[[[[100]; [101]; [100]; [101]; [102]; [103]; [104]; [105];
           [300]; [301]; [302]; [303]; [304]; [305]]]]]
       [[[[[200]; [201]; [200]; [201]; [202]; [203]; [204]; [205];
           [400]; [401]; [402]; [403]; [404]; [405]]]]] 8 2 ∅ 12) 0
  = Ok 14 ∧
  ((2 ≤ 6)%nat → (0 < 6)%nat → (8 < 14)%nat).
Proof.
  refine (sink_shift_chunk_fills_window six_of_eight (chunk 300 6) (chunk 400 6)
            (chunk 100 6) (chunk 200 6) 0 no_rope 1 1 6 6 1 2 8
            _ _ _ _ _ _ _ _ _ _ _ _ _ _).
  all: try lia; try reflexivity.
  all: try (repeat (split || constructor)).
Defined.

(** ** A shift on a chunk length the cache has seen *)

Section ShiftMemoised.
Context `{Scalar A}.
Implicit Types st : SinkCache.t A.
Implicit Types m : table A.

Lemma sink_rotate_kept_hit (kc vc : list (tensor A)) memo n0
    (k old : tensor A) (cos sin rc rs : table A) (pz : option Z) (p : option nat)
    (b h len_ c d dr s w : nat) :
  (0 < b)%nat → (0 < h)%nat →
  (s + c < w)%nat → (w ≤ c + len_)%nat →
  has_shape b h len_ d old → has_shape b h c d k →
  pz = Z.of_nat <$> p → from_option (λ p, p ≤ d)%nat True p → dr = default d p →
  is_table (w - s - c) dr rc → is_table (w - s - c) dr rs →
  memo !! Z.of_nat c = Some ([rc], [rs]) →
  let self := SinkCache.mk kc vc (Z.of_nat w) (Z.of_nat s) memo n0 in
  let keys_to_keep :=
    slice_seq (Some (- SinkCache.window_length self + SinkCache.num_sink_tokens self
                     + shape_m2 k)) None old in
  wp ('(rerotation_cos, rerotation_sin) ←
        SinkCache._get_rerotation_cos_sin k
          (slice None (Some (SinkCache.window_length self)) cos)
          (slice None (Some (SinkCache.window_length self)) sin);
      match pz with
      | Some partial_rotation_size =>
          let keys_pass :=
            slice_dim (Some partial_rotation_size) None keys_to_keep in
          let keys_to_keep :=
            slice_dim None (Some partial_rotation_size) keys_to_keep in
          keys_to_keep ← lift (SinkCache._apply_key_rotary_pos_emb keys_to_keep
                                 rerotation_cos rerotation_sin);
          lift (cat_m1 [keys_to_keep; keys_pass])
      | None =>
          lift (SinkCache._apply_key_rotary_pos_emb keys_to_keep
                  rerotation_cos rerotation_sin)
      end)
     (λ r self', (self', r)
        = (SinkCache.mk kc vc (Z.of_nat w) (Z.of_nat s) memo n0,
           Ok (fmap (M := list) (fmap (M := list)
                 (λ m, spec_rotate_partial p
                         (drop (length m - (w - s - c)) m) rc rs)) old)))
     self.
Proof.
  intros Hb Hh Hsc Hfull Hso Hsk -> Hp -> Hrc Hrs Hhit self keys0.
  pose proof (shape_m2_has_shape _ _ _ _ _ Hb Hh Hsk) as Hck.
  assert (has_shape b h (w - s - c) d
            (fmap (M := list) (fmap (M := list)
               (λ m, drop (length m - (w - s - c)) m)) old)) as Hkeep.
  { eapply has_shape_fmap; [|done]. intros m Hm.
    replace (w - s - c)%nat with (len_ - (len_ - (w - s - c)))%nat at 1 by lia.
    destruct Hm as [Hlen Hw]. rewrite Hlen. by apply is_table_drop. }
  apply wp_bind. unfold wp at 1.
  rewrite (rerotation_hit self k _ _ ([rc], [rs])) by (simpl; by rewrite Hck).
  cbn [fst snd].
  subst keys0 self. cbn [SinkCache.window_length SinkCache.num_sink_tokens].
  rewrite Hck, slice_seq_last by done.
  destruct p as [p|]; simpl in Hp, Hrc, Hrs; cbn [fmap option_fmap option_map].
  - rewrite slice_dim_to, slice_dim_from.
    apply wp_bind, wp_lift.
    rewrite (apply_key_rotary_exact b h (w - s - c) p); try done; try lia.
    2:{ eapply has_shape_fmap; [|exact Hkeep]. intros m Hm.
        eapply is_table_fmap; [|done]. intros r Hr. rewrite length_take. lia. }
    apply wp_lift. f_equal. unfold cat_m1, cat_fold.
    rewrite <-!list_fmap_compose.
    unfold cat2_m1. rewrite zipM_fmap_same.
    rewrite (forM_fmap _ (fmap (M := list)
               (λ m, spec_rotate_partial (Some p)
                       (drop (length m - (w - s - c)) m) rc rs))); [done|].
    intros i th Hth. unfold compose. rewrite <-!list_fmap_compose.
    rewrite zipM_fmap_same. apply forM_fmap. intros j m Hm. unfold compose.
    pose proof (has_shape_lookup2 _ _ _ _ _ _ _ _ _ Hso Hth Hm) as Hmt.
    assert (is_table (w - s - c) d (drop (length m - (w - s - c)) m)) as Hdm.
    { replace (w - s - c)%nat with (len_ - (len_ - (w - s - c)))%nat at 1 by lia.
      destruct Hmt as [Hlen Hw]. rewrite Hlen. by apply is_table_drop. }
    apply zipM_zip_with; [|done].
    assert (is_table (w - s - c) p
              (spec_rotate (take p <$> drop (length m - (w - s - c)) m) rc rs))
      as [Hl1 _].
    { apply is_table_spec_rotate; try done.
      eapply is_table_fmap; [|done]. intros r Hr. rewrite length_take. lia. }
    destruct Hdm as [Hl2 _]. by rewrite Hl1, length_fmap, Hl2.
  - apply wp_lift.
    rewrite (apply_key_rotary_exact b h (w - s - c) d); try done; try lia.
    f_equal. f_equal. rewrite <-list_fmap_compose.
    apply list_fmap_ext. intros i th _. simpl.
    by rewrite <-list_fmap_compose.
Qed.

(** X20. A shift with rotary tables on a chunk length whose correction
    tables are memoised: the kept keys are rotated with the memoised
    tables, [key*rerotation_cos + rotate_half(key)*rerotation_sin], the
    tables passed in are not read, and the memo stays as it is. *)
Theorem sink_shift_rotates_with_memo st (key_states value_states old old_v : tensor A)
    (layer : nat) (kw : SinkCache.kwargs A) (rc rs : table A) (p : option nat)
    (b h len_ c d s w : nat) :
  (0 < b)%nat → (0 < h)%nat → (0 < c)%nat →
  SinkCache.window_length st = Z.of_nat w →
  SinkCache.num_sink_tokens st = Z.of_nat s →
  (s + c < w)%nat → (w ≤ c + len_)%nat →
  SinkCache.key_cache st !! layer = Some old →
  SinkCache.value_cache st !! layer = Some old_v →
  has_shape b h len_ d old → has_shape b h len_ d old_v →
  has_shape b h c d key_states → has_shape b h c d value_states →
  is_Some (SinkCache.cos kw) → is_Some (SinkCache.sin kw) →
  SinkCache.partial_rotation_size kw = Z.of_nat <$> p →
  from_option (λ p, p ≤ d)%nat True p →
  SinkCache.cos_sin_cache st !! Z.of_nat c = Some ([rc], [rs]) →
  is_table (w - s - c) (default d p) rc → is_table (w - s - c) (default d p) rs →
  let new_k :=
    zip_with (zip_with (spec_shift_keys s (w - s - c) p rc rs)) old key_states in
  let new_v :=
    zip_with (zip_with (spec_shift_values s (w - s - c))) old_v value_states in
  SinkCache.update key_states value_states (Z.of_nat layer) (Some kw) st
  = (SinkCache.mk (<[layer:=new_k]> (SinkCache.key_cache st))
       (<[layer:=new_v]> (SinkCache.value_cache st))
       (SinkCache.window_length st) (SinkCache.num_sink_tokens st)
       (SinkCache.cos_sin_cache st)
       (if bool_decide (Z.of_nat layer = 0)
        then SinkCache.seen_tokens st + Z.of_nat c else SinkCache.seen_tokens st),
     Ok (new_k, new_v)) ∧
  has_shape b h w d new_k ∧ has_shape b h w d new_v.
Proof.
  intros Hb Hh Hc HW HS Hsc Hfull Hold Holdv Hso Hsov Hsk Hsv [cos Hcos] [sin Hsin]
    Hpz Hp Hhit Hrc Hrs.
  destruct st as [kc vc W S memo seen]. simpl in *. subst W S.
  split_and!.
  - apply (sink_shift_with kc vc memo seen key_states value_states old old_v layer kw
             b h len_ c d s w (λ m, drop (length m - (w - s - c)) m)
             (λ m, spec_rotate_partial p (drop (length m - (w - s - c)) m) rc rs)
             memo);
      try done.
    + intros t. by apply slice_seq_last.
    + intros m [_ Hm]. by apply Forall_drop.
    + intros m Hm.
      eapply (is_table_spec_rotate_partial (w - s - c) d p); try done.
      replace (w - s - c)%nat with (len_ - (len_ - (w - s - c)))%nat at 1 by lia.
      destruct Hm as [Hlen Hw]. rewrite Hlen. by apply is_table_drop.
    + intros n0. rewrite Hcos, Hsin.
      exact (sink_rotate_kept_hit kc vc memo n0 key_states old cos sin rc rs
               (SinkCache.partial_rotation_size kw) p b h len_ c d (default d p)
               s w Hb Hh Hsc Hfull Hso Hsk Hpz Hp eq_refl Hrc Hrs Hhit).
  - eapply has_shape_zip_with; [|done..]. intros m m'.
    by apply is_table_shift_keys.
  - eapply has_shape_zip_with; [|done..]. intros m m'.
    by apply is_table_shift_values.
Qed.

End ShiftMemoised.

Lemma sink_shift_rotates_with_memo_witness :
  let st :=
    (SinkCache.update (chunk 300 1) (chunk 400 1) 0 (Some with_rope) eight_of_eight).1 in
  let rc := [[18]; [32]; [50]; [72]; [98]] in
  let rs := [[-1]; [-1]; [-1]; [-1]; [-1]] in
  (SinkCache.update (chunk 301 1) (chunk 401 1) 0 (Some with_rope) st).2
  = Ok (zip_with (zip_with (spec_shift_keys 2 5 None rc rs))
          [[[[100]; [101]; [1957]; [3432]; [5355]; [7738]; [10593]; [300]]]]
          (chunk 301 1),
        zip_with (zip_with (spec_shift_values 2 5))
          [[[[200]; [201]; [203]; [204]; [205]; [206]; [207]; [400]]]]
          (chunk 401 1)).
Proof.
  intros st rc rs.
  refine (f_equal snd (proj1 (sink_shift_rotates_with_memo st (chunk 301 1) (chunk 401 1)
            [[[[100]; [101]; [1957]; [3432]; [5355]; [7738]; [10593]; [300]]]]
            [[[[200]; [201]; [203]; [204]; [205]; [206]; [207]; [400]]]]
            0 with_rope rc rs None 1 1 8 1 1 2 8
            _ _ _ _ _ _ _ _ _ _ _ _ _ _ _ _ _ _ _ _))).
  all: try lia; try reflexivity.
  all: try (by eexists).
  all: try (repeat (split || constructor)).
Defined.

(** ** Reordering and updating a DynamicCache *)

Section ReorderUpdate.
Context {A : Type}.
Implicit Types st : DynamicCache.t A.
Implicit Types k v : tensor A.

Ltac run_head :=
  repeat (rewrite ?bind_assoc;
          first [rewrite bind_get | rewrite bind_lift | rewrite bind_modify
                | rewrite bind_when_modify | rewrite bind_ret];
          cbv beta iota zeta).

Lemma cat_m2_pair (a b : tensor A) : cat_m2 [a; b] = cat2_m2 a b.
Proof. unfold cat_m2, cat_fold. by destruct (cat2_m2 a b). Qed.

(** What a call of [update] that returns has done, on a cache with one
    value tensor per key tensor. *)
Lemma dynamic_update_Ok_inv {K} st k v idx (kw : option K) st1 k1 v1 :
  length (DynamicCache.key_cache st) = length (DynamicCache.value_cache st) →
  DynamicCache.update k v idx kw st = (st1, Ok (k1, v1)) →
  let seen' := if bool_decide (idx = 0)
               then DynamicCache.seen_tokens st + shape_m2 k
               else DynamicCache.seen_tokens st in
  (idx = len (DynamicCache.key_cache st) ∧ k1 = k ∧ v1 = v ∧
   st1 = DynamicCache.mk (DynamicCache.key_cache st ++ [k])
           (DynamicCache.value_cache st ++ [v]) seen') ∨
  (∃ n old_k old_v,
     ¬ len (DynamicCache.key_cache st) ≤ idx ∧
     norm_index (length (DynamicCache.key_cache st)) idx = Some n ∧
     DynamicCache.key_cache st !! n = Some old_k ∧
     DynamicCache.value_cache st !! n = Some old_v ∧
     cat2_m2 old_k k = Ok k1 ∧ cat2_m2 old_v v = Ok v1 ∧
     st1 = DynamicCache.mk (<[n:=k1]> (DynamicCache.key_cache st))
             (<[n:=v1]> (DynamicCache.value_cache st)) seen').
Proof.
  intros Hlen Hup seen'. destruct st as [kc vc seen]. simpl in *.
  unfold DynamicCache.update in Hup. revert Hup. run_head. simpl.
  fold seen'.
  assert ((if bool_decide (idx = 0)
           then DynamicCache.set_seen_tokens (seen + shape_m2 k)
                  (DynamicCache.mk kc vc seen)
           else DynamicCache.mk kc vc seen) = DynamicCache.mk kc vc seen') as ->.
  { subst seen'. by case_bool_decide. }
  simpl. case_bool_decide as Hidx.
  - run_head. simpl.
    destruct (getitem (kc ++ [k]) idx) as [k'|] eqn:Hk; [|done].
    apply (getitem_app_Ok _ _ _ _ Hidx) in Hk as [-> ->].
    run_head. simpl. unfold len. rewrite Hlen. fold (len vc).
    rewrite (getitem_app_len vc v). intros [= <- <- <-]. left.
    by split_and!.
  - run_head.
    destruct (getitem kc idx) as [old_k|] eqn:Hgk; [|done].
    run_head. rewrite cat_m2_pair.
    destruct (cat2_m2 old_k k) as [k1'|] eqn:Hck; [|done].
    run_head.
    destruct (setitem kc idx k1') as [kc'|] eqn:Hsk; [|done].
    run_head. simpl.
    destruct (getitem vc idx) as [old_v|] eqn:Hgv; [|done].
    run_head. rewrite cat_m2_pair.
    destruct (cat2_m2 old_v v) as [v1'|] eqn:Hcv; [|done].
    run_head.
    destruct (setitem vc idx v1') as [vc'|] eqn:Hsv; [|done].
    run_head. simpl.
    rewrite (getitem_setitem _ _ _ _ Hsk). run_head. simpl.
    rewrite (getitem_setitem _ _ _ _ Hsv). intros [= <- <- <-]. right.
    apply getitem_Ok in Hgk as (n & Hn & Hkn).
    apply getitem_Ok in Hgv as (n' & Hn' & Hvn).
    rewrite <-Hlen, Hn in Hn'. injection Hn' as <-.
    apply setitem_Ok in Hsk as (n1 & Hn1 & ->).
    apply setitem_Ok in Hsv as (n2 & Hn2 & ->).
    rewrite Hn in Hn1. injection Hn1 as <-.
    rewrite <-Hlen, Hn in Hn2. injection Hn2 as <-.
    exists n, old_k, old_v. by split_and!.
Qed.

(** Selecting batches of a tensor made batch by batch from two others
    is making it from their selections. *)
Lemma index_select0_zipM {X Y Z} (f : X → Y → result Z) xs ys zs beam zs' ys' :
  zipM f xs ys = Ok zs →
  index_select0 zs beam = Ok zs' → index_select0 ys beam = Ok ys' →
  ∃ xs', index_select0 xs beam = Ok xs' ∧ zipM f xs' ys' = Ok zs'.
Proof.
  intros HF%zipM_Forall3 Hz%index_select0_Ok Hy%index_select0_Ok.
  assert (∃ xs', Forall2 (λ i x, 0 ≤ i ∧ xs !! Z.to_nat i = Some x) beam xs' ∧
                 Forall3 (λ x y z, f x y = Ok z) xs' ys' zs') as (xs' & Hx & HF').
  { clear -HF Hz Hy. revert ys' Hy.
    induction Hz as [|i z beam zs' [Hi Hz] _ IH]; intros ys' Hy.
    - apply Forall2_nil_inv_l in Hy as ->. exists []. split; constructor.
    - apply Forall2_cons_inv_l in Hy as (y & ys0 & [_ Hy] & Hys & ->).
      destruct (IH _ Hys) as (xs0 & Hx0 & HF0).
      destruct (Forall3_lookup_r _ _ _ _ _ _ HF Hz) as (x & y' & Hx & Hy' & Hf).
      rewrite Hy in Hy'. injection Hy' as <-.
      exists (x :: xs0). split; by constructor. }
  exists xs'. split; [by apply index_select0_Ok|by apply zipM_Forall3].
Qed.

Lemma index_select0_det {X} (t : list X) beam t1 t2 :
  index_select0 t beam = Ok t1 → index_select0 t beam = Ok t2 → t1 = t2.
Proof. congruence. Qed.

End ReorderUpdate.

Section ReorderUpdateMain.
Context {A : Type}.
Implicit Types st : DynamicCache.t A.
Implicit Types k v : tensor A.

Ltac run_head :=
  repeat (rewrite ?bind_assoc;
          first [rewrite bind_get | rewrite bind_lift | rewrite bind_modify
                | rewrite bind_when_modify | rewrite bind_ret];
          cbv beta iota zeta).

(** A call of [update] on a layer that is there, when both
    concatenations succeed. *)
Lemma dynamic_update_cat {K} st k v idx (kw : option K) n old_k old_v k1 v1 :
  length (DynamicCache.key_cache st) = length (DynamicCache.value_cache st) →
  ¬ len (DynamicCache.key_cache st) ≤ idx →
  norm_index (length (DynamicCache.key_cache st)) idx = Some n →
  DynamicCache.key_cache st !! n = Some old_k →
  DynamicCache.value_cache st !! n = Some old_v →
  cat2_m2 old_k k = Ok k1 → cat2_m2 old_v v = Ok v1 →
  DynamicCache.update k v idx kw st
  = (DynamicCache.mk (<[n:=k1]> (DynamicCache.key_cache st))
       (<[n:=v1]> (DynamicCache.value_cache st))
       (if bool_decide (idx = 0)
        then DynamicCache.seen_tokens st + shape_m2 k
        else DynamicCache.seen_tokens st),
     Ok (k1, v1)).
Proof.
  intros Hlen Hidx Hn Hk Hv Hck Hcv. destruct st as [kc vc seen]. simpl in *.
  pose proof (norm_index_lt _ _ _ Hn) as Hlt.
  assert (getitem kc idx = Ok old_k) as Hgk by (apply getitem_Ok; eauto).
  assert (getitem vc idx = Ok old_v) as Hgv
    by (apply getitem_Ok; exists n; by rewrite <-Hlen).
  assert (setitem kc idx k1 = Ok (<[n:=k1]> kc)) as Hsk
    by (apply setitem_Ok; eauto).
  assert (setitem vc idx v1 = Ok (<[n:=v1]> vc)) as Hsv
    by (apply setitem_Ok; exists n; by rewrite <-Hlen).
  unfold DynamicCache.update. run_head. simpl.
  destruct (bool_decide (idx = 0)); simpl.
  all: rewrite bool_decide_false by done.
  all: run_head; rewrite Hgk; run_head; rewrite cat_m2_pair, Hck; run_head.
  all: rewrite Hsk; run_head; simpl; rewrite Hgv; run_head.
  all: rewrite cat_m2_pair, Hcv; run_head; rewrite Hsv; run_head; simpl.
  all: rewrite (getitem_setitem _ _ _ _ Hsk); run_head; simpl.
  all: by rewrite (getitem_setitem _ _ _ _ Hsv).
Qed.

(** X21. Reordering the beams commutes with appending tokens: if
    [update] returned and a following [reorder_cache(beam_idx)]
    returned, then [reorder_cache(beam_idx)] first and [update] with the
    selected beams of the states after it returns and gives the same
    cache, and returns the selected beams of what the first [update]
    returned. The selection is to keep the chunk length of the key
    states, as every non-empty selection does. *)
Theorem dynamic_reorder_commutes_with_update {K} st k v (layer_idx : Z)
    (kw : option K) (beam_idx : list Z) kb vb st1 k1 v1 st2 :
  length (DynamicCache.key_cache st) = length (DynamicCache.value_cache st) →
  DynamicCache.update k v layer_idx kw st = (st1, Ok (k1, v1)) →
  DynamicCache.reorder_cache beam_idx st1 = (st2, Ok tt) →
  index_select0 k beam_idx = Ok kb → index_select0 v beam_idx = Ok vb →
  shape_m2 kb = shape_m2 k →
  ∃ st3 k3 v3,
    DynamicCache.reorder_cache beam_idx st = (st3, Ok tt) ∧
    DynamicCache.update kb vb layer_idx kw st3 = (st2, Ok (k3, v3)) ∧
    index_select0 k1 beam_idx = Ok k3 ∧ index_select0 v1 beam_idx = Ok v3.
Proof.
  intros Hlen Hup Hre Hkb Hvb Hshape.
  destruct (dynamic_update_Ok_inv _ _ _ _ _ _ _ _ Hlen Hup)
    as [(-> & -> & -> & ->)|(n & old_k & old_v & Hidx & Hn & Hk & Hv & Hck & Hcv & ->)].
  - apply dynamic_reorder_Ok in Hre as (kc2 & vc2 & HFk & HFv & ->);
      [|simpl; rewrite !length_app; simpl; lia].
    simpl in HFk, HFv.
    apply Forall2_app_inv_l in HFk as (kc3 & kb' & HFk & HFkb & ->).
    apply Forall2_app_inv_l in HFv as (vc3 & vb' & HFv & HFvb & ->).
    apply Forall2_cons_inv_l in HFkb as (kb0 & ? & Hkb0 & ->%Forall2_nil_inv_l & ->).
    apply Forall2_cons_inv_l in HFvb as (vb0 & ? & Hvb0 & ->%Forall2_nil_inv_l & ->).
    rewrite Hkb in Hkb0. injection Hkb0 as <-.
    rewrite Hvb in Hvb0. injection Hvb0 as <-.
    pose proof (Forall2_length _ _ _ HFk) as Hlk.
    pose proof (Forall2_length _ _ _ HFv) as Hlv.
    exists (DynamicCache.mk kc3 vc3 (DynamicCache.seen_tokens st)), kb, vb.
    split_and!; try done.
    + apply dynamic_reorder_Ok; [done|]. by exists kc3, vc3.
    + replace (len (DynamicCache.key_cache st))
        with (len (DynamicCache.key_cache
                     (DynamicCache.mk kc3 vc3 (DynamicCache.seen_tokens st))))
        by (unfold len; simpl; by rewrite Hlk).
      rewrite dynamic_update_append by (simpl; lia).
      simpl. by rewrite Hshape.
  - pose proof (norm_index_lt _ _ _ Hn) as Hlt.
    apply dynamic_reorder_Ok in Hre as (kc2 & vc2 & HFk & HFv & ->);
      [|simpl; by rewrite !length_insert].
    simpl in HFk, HFv.
    destruct (Forall2_lookup_l _ _ _ n k1 HFk) as (k3 & Hk3 & Hsk3);
      [by apply list_lookup_insert_eq|].
    destruct (Forall2_lookup_l _ _ _ n v1 HFv) as (v3 & Hv3 & Hsv3);
      [apply list_lookup_insert_eq; lia|].
    destruct (index_select0_zipM _ _ _ _ _ _ _ Hck Hsk3 Hkb) as (ok3 & Hok3 & Hck3).
    destruct (index_select0_zipM _ _ _ _ _ _ _ Hcv Hsv3 Hvb) as (ov3 & Hov3 & Hcv3).
    pose proof (Forall2_length _ _ _ HFk) as Hlk.
    pose proof (Forall2_length _ _ _ HFv) as Hlv.
    rewrite length_insert in Hlk, Hlv.
    exists (DynamicCache.mk (<[n:=ok3]> kc2) (<[n:=ov3]> vc2)
              (DynamicCache.seen_tokens st)), k3, v3.
    split_and!; try done.
    + apply dynamic_reorder_Ok; [done|].
      exists (<[n:=ok3]> kc2), (<[n:=ov3]> vc2). split_and!; [| |done].
      * rewrite <-(list_insert_id _ _ _ Hk),
          <-(list_insert_insert_eq _ n old_k k1).
        by apply Forall2_insert.
      * rewrite <-(list_insert_id _ _ _ Hv),
          <-(list_insert_insert_eq _ n old_v v1).
        by apply Forall2_insert.
    + rewrite (dynamic_update_cat _ kb vb layer_idx kw n ok3 ov3 k3 v3); simpl.
      * rewrite !list_insert_insert_eq, (list_insert_id _ _ _ Hk3),
          (list_insert_id _ _ _ Hv3). by rewrite Hshape.
      * rewrite !length_insert. lia.
      * unfold len in *. rewrite length_insert. lia.
      * rewrite length_insert. by rewrite <-Hlk.
      * apply list_lookup_insert_eq. lia.
      * apply list_lookup_insert_eq. lia.
      * done.
      * done.
Qed.

End ReorderUpdateMain.

Lemma dynamic_reorder_commutes_with_update_witness :
  ∃ st3 k3 v3,
    DynamicCache.reorder_cache [1; 0] two_beams = (st3, Ok tt) ∧
    DynamicCache.update [[[[4]]]; [[[3]]]] [[[[14]]]; [[[13]]]] 0 (@None unit) st3
    = (DynamicCache.mk [[[[[2]; [4]]]; [[[1]; [3]]]]]
         [[[[[12]; [14]]]; [[[11]; [13]]]]] 2, Ok (k3, v3)) ∧
    index_select0 [[[[1]; [3]]]; [[[2]; [4]]]] [1; 0] = Ok k3 ∧
    index_select0 [[[[11]; [13]]]; [[[12]; [14]]]] [1; 0] = Ok v3.
Proof.
  exact (dynamic_reorder_commutes_with_update (K := unit) two_beams
           [[[[3]]]; [[[4]]]] [[[[13]]]; [[[14]]]] 0 None [1; 0]
           [[[[4]]]; [[[3]]]] [[[[14]]]; [[[13]]]]
           (DynamicCache.mk [[[[[1]; [3]]]; [[[2]; [4]]]]]
              [[[[[11]; [13]]]; [[[12]; [14]]]]] 2)
           [[[[1]; [3]]]; [[[2]; [4]]]] [[[[11]; [13]]]; [[[12]; [14]]]]
           (DynamicCache.mk [[[[[2]; [4]]]; [[[1]; [3]]]]]
              [[[[[12]; [14]]]; [[[11]; [13]]]]] 2)
           eq_refl eq_refl eq_refl eq_refl eq_refl eq_refl).
Defined.

(** ** What a full SinkCache holds *)

Section SinkStream.
Context `{Scalar A}.
Implicit Types st : SinkCache.t A.
Implicit Types m : table A.

Lemma slab_zip_with (G : table A → table A → table A) (t t' : tensor A) i j :
  slab (zip_with (zip_with G) t t') i j
  = m ← slab t i j; m' ← slab t' i j; Some (G m m').
Proof.
  unfold slab. rewrite lookup_zip_with.
  destruct (t !! i) as [th|]; simpl; [|done].
  destruct (t' !! i) as [th'|]; simpl.
  - rewrite lookup_zip_with. by destruct (th !! j).
  - by destruct (th !! j).
Qed.

Lemma has_shape_slab_Some b h n d (t : tensor A) i j :
  has_shape b h n d t → (i < b)%nat → (j < h)%nat → is_Some (slab t i j).
Proof.
  intros [Hb Ht] Hi Hj. unfold slab.
  destruct (lookup_lt_is_Some_2 t i) as [th Hth]; [lia|]. rewrite Hth.
  rewrite Forall_lookup in Ht. destruct (Ht _ _ Hth) as [Hh _].
  apply lookup_lt_is_Some_2. lia.
Qed.

Lemma slab_Some_lt b h n d (t : tensor A) i j m :
  has_shape b h n d t → slab t i j = Some m → (i < b)%nat ∧ (j < h)%nat.
Proof.
  intros [Hb Ht]. unfold slab. destruct (t !! i) as [th|] eqn:Hth; [|done].
  intros Hm. rewrite Forall_lookup in Ht. destruct (Ht _ _ Hth) as [Hh _].
  apply lookup_lt_Some in Hth, Hm. lia.
Qed.

(** The last [n] entries of a list are those of any of its suffixes that
    has them. *)
Lemma drop_app_suffix {X} (n : nat) (x y : list X) :
  (n ≤ length y)%nat →
  drop (length (x ++ y) - n) (x ++ y) = drop (length y - n) y.
Proof.
  intros Hn. rewrite length_app.
  replace (length x + length y - n)%nat with (length x + (length y - n))%nat by lia.
  by rewrite drop_app_add.
Qed.

(** One shift without rotary tables. *)
Lemma sink_shift_plain (kc vc : list (tensor A)) memo seen
    (k v old oldv : tensor A) (l : nat) kw (b h len_ c d s w : nat) :
  (0 < b)%nat → (0 < h)%nat → (0 < c)%nat →
  (s + c < w)%nat → (w ≤ c + len_)%nat →
  kc !! l = Some old → vc !! l = Some oldv →
  has_shape b h len_ d old → has_shape b h len_ d oldv →
  has_shape b h c d k → has_shape b h c d v →
  SinkCache.cos kw = None ∨ SinkCache.sin kw = None →
  let new_k := zip_with (zip_with (spec_shift_values s (w - s - c))) old k in
  let new_v := zip_with (zip_with (spec_shift_values s (w - s - c))) oldv v in
  SinkCache.update k v (Z.of_nat l) (Some kw)
    (SinkCache.mk kc vc (Z.of_nat w) (Z.of_nat s) memo seen)
  = (SinkCache.mk (<[l:=new_k]> kc) (<[l:=new_v]> vc) (Z.of_nat w) (Z.of_nat s) memo
       (if bool_decide (Z.of_nat l = 0) then seen + Z.of_nat c else seen),
     Ok (new_k, new_v)) ∧
  has_shape b h w d new_k ∧ has_shape b h w d new_v.
Proof.
  intros Hb Hh Hc Hsc Hfull Hold Holdv Hso Hsov Hsk Hsv Hrope.
  split_and!.
  - apply (sink_shift_with kc vc memo seen k v old oldv l kw
             b h len_ c d s w (λ m, drop (length m - (w - s - c)) m)
             (λ m, drop (length m - (w - s - c)) m) memo);
      try done.
    + intros t. by apply slice_seq_last.
    + intros m [_ Hm]. by apply Forall_drop.
    + intros m [_ Hm]. by apply Forall_drop.
    + intros n. simpl.
      pose proof (shape_m2_has_shape _ _ _ _ _ Hb Hh Hsk) as Hck.
      rewrite Hck, slice_seq_last by done.
      destruct (SinkCache.cos kw), (SinkCache.sin kw); try by apply wp_ret.
      by destruct Hrope.
  - eapply has_shape_zip_with; [|done..]. intros m m'.
    by apply is_table_shift_values.
  - eapply has_shape_zip_with; [|done..]. intros m m'.
    by apply is_table_shift_values.
Qed.

(** One block of a full layer after a shift, as a window on the stream
    of tokens. *)
Lemma shift_values_stream (s w c : nat) (m mk rest : table A) :
  (s + c < w)%nat → length m = w → length mk = c →
  let m1 := spec_shift_values s (w - s - c) m mk in
  take s m1 = take s m ∧
  drop (length (m1 ++ rest) - (w - s)) (m1 ++ rest)
  = drop (length (m ++ mk ++ rest) - (w - s)) (m ++ mk ++ rest).
Proof.
  intros Hsc Hm Hmk m1. subst m1. unfold spec_shift_values. rewrite Hm.
  replace (w - (w - s - c))%nat with (s + c)%nat by lia.
  split.
  - rewrite take_app_le by (rewrite length_take; lia).
    rewrite take_take. f_equal. lia.
  - set (y := drop (s + c) m ++ mk ++ rest).
    assert ((take s m ++ drop (s + c) m ++ mk) ++ rest = take s m ++ y) as ->
      by (subst y; by rewrite <-!app_assoc).
    assert (m ++ mk ++ rest = take (s + c) m ++ y) as ->
      by (subst y; by rewrite (app_assoc (take (s + c) m)), take_drop).
    assert (w - s ≤ length y)%nat
      by (subst y; rewrite !length_app, length_drop; lia).
    by rewrite !drop_app_suffix.
Qed.

Lemma run_all_cons {S X} (m : M S X) (ms : list (M S X)) (s : S) :
  run_all (m :: ms) s = run_all ms (m s).1.
Proof. done. Qed.

Lemma sink_stream_run (layer : nat) kw (b h d s w : nat)
    (chunks : list (tensor A * tensor A)) :
  (0 < b)%nat → (0 < h)%nat → (s ≤ w)%nat →
  SinkCache.cos kw = None ∨ SinkCache.sin kw = None →
  Forall (λ kv, ∃ c, (0 < c)%nat ∧ (s + c < w)%nat ∧
                     has_shape b h c d kv.1 ∧ has_shape b h c d kv.2) chunks →
  ∀ kc vc memo seen old old_v,
  kc !! layer = Some old → vc !! layer = Some old_v →
  has_shape b h w d old → has_shape b h w d old_v →
  let st' :=
    run_all ((λ kv, SinkCache.update kv.1 kv.2 (Z.of_nat layer) (Some kw)) <$> chunks)
      (SinkCache.mk kc vc (Z.of_nat w) (Z.of_nat s) memo seen) in
  ∃ new_k new_v,
    SinkCache.key_cache st' !! layer = Some new_k ∧
    SinkCache.value_cache st' !! layer = Some new_v ∧
    has_shape b h w d new_k ∧ has_shape b h w d new_v ∧
    (∀ i j m, slab old i j = Some m →
       let stream := m ++ concat ((λ kv, default [] (slab kv.1 i j)) <$> chunks) in
       slab new_k i j
       = Some (take s m ++ drop (length stream - (w - s)) stream)) ∧
    (∀ i j m, slab old_v i j = Some m →
       let stream := m ++ concat ((λ kv, default [] (slab kv.2 i j)) <$> chunks) in
       slab new_v i j
       = Some (take s m ++ drop (length stream - (w - s)) stream)).
Proof.
  intros Hb Hh Hsw Hrope Hchunks.
  induction Hchunks as [|[k v] chunks (c & Hc & Hsc & Hsk & Hsv) _ IH];
    intros kc vc memo seen old old_v Hold Holdv Hso Hsov.
  - exists old, old_v. simpl. split_and!; try done.
    + intros i j m Hm. destruct (has_shape_slab _ _ _ _ _ _ _ _ Hso Hm) as [Hl _].
      rewrite app_nil_r, Hl. f_equal.
      replace (w - (w - s))%nat with s by lia. by rewrite take_drop.
    + intros i j m Hm. destruct (has_shape_slab _ _ _ _ _ _ _ _ Hsov Hm) as [Hl _].
      rewrite app_nil_r, Hl. f_equal.
      replace (w - (w - s))%nat with s by lia. by rewrite take_drop.
  - simpl in Hsk, Hsv.
    destruct (sink_shift_plain kc vc memo seen k v old old_v layer kw
                b h w c d s w Hb Hh Hc Hsc ltac:(lia) Hold Holdv Hso Hsov Hsk Hsv
                Hrope) as (Hup & Hnk & Hnv).
    rewrite fmap_cons, run_all_cons. cbn [fst snd]. rewrite Hup. cbn [fst].
    set (nk := zip_with (zip_with (spec_shift_values s (w - s - c))) old k) in *.
    set (nv := zip_with (zip_with (spec_shift_values s (w - s - c))) old_v v) in *.
    edestruct (IH (<[layer:=nk]> kc) (<[layer:=nv]> vc) memo) as
      (new_k & new_v & Hk' & Hv' & Hsk' & Hsv' & Hks & Hvs);
      [apply list_lookup_insert_eq; by eapply lookup_lt_Some
      |apply list_lookup_insert_eq; by eapply lookup_lt_Some
      |exact Hnk|exact Hnv|].
    exists new_k, new_v. split_and!; try done.
    + intros i j m Hm.
      destruct (slab_Some_lt _ _ _ _ _ _ _ _ Hso Hm) as [Hi Hj].
      destruct (has_shape_slab_Some _ _ _ _ _ i j Hsk Hi Hj) as [mk Hmk].
      destruct (has_shape_slab _ _ _ _ _ _ _ _ Hso Hm) as [Hl _].
      destruct (has_shape_slab _ _ _ _ _ _ _ _ Hsk Hmk) as [Hlk _].
      assert (slab nk i j = Some (spec_shift_values s (w - s - c) m mk)) as Hnkm.
      { subst nk. by rewrite slab_zip_with, Hm, Hmk. }
      rewrite (Hks i j _ Hnkm). rewrite fmap_cons. simpl. rewrite Hmk. simpl.
      destruct (shift_values_stream s w c m mk
                  (concat ((λ kv, default [] (slab kv.1 i j)) <$> chunks))
                  Hsc Hl Hlk) as [-> ->].
      done.
    + intros i j m Hm.
      destruct (slab_Some_lt _ _ _ _ _ _ _ _ Hsov Hm) as [Hi Hj].
      destruct (has_shape_slab_Some _ _ _ _ _ i j Hsv Hi Hj) as [mk Hmk].
      destruct (has_shape_slab _ _ _ _ _ _ _ _ Hsov Hm) as [Hl _].
      destruct (has_shape_slab _ _ _ _ _ _ _ _ Hsv Hmk) as [Hlk _].
      assert (slab nv i j = Some (spec_shift_values s (w - s - c) m mk)) as Hnvm.
      { subst nv. by rewrite slab_zip_with, Hm, Hmk. }
      rewrite (Hvs i j _ Hnvm). rewrite fmap_cons. simpl. rewrite Hmk. simpl.
      destruct (shift_values_stream s w c m mk
                  (concat ((λ kv, default [] (slab kv.2 i j)) <$> chunks))
                  Hsc Hl Hlk) as [-> ->].
      done.
Qed.

(** X22. What a full [SinkCache] holds. A layer with [w] tokens, fed any
    number of chunks shorter than [w - s] without rotary tables, holds
    after every call, block by block, the first [s] tokens it started
    with followed by the last [w - s] tokens of the stream made of its
    old tokens and all the chunks in order; keys and values alike, and
    always exactly [w] tokens. *)
Theorem sink_holds_sinks_and_latest st (layer : nat) (kw : SinkCache.kwargs A)
    (chunks : list (tensor A * tensor A)) (old old_v : tensor A) (b h d s w : nat) :
  (0 < b)%nat → (0 < h)%nat → (s ≤ w)%nat →
  SinkCache.window_length st = Z.of_nat w →
  SinkCache.num_sink_tokens st = Z.of_nat s →
  SinkCache.key_cache st !! layer = Some old →
  SinkCache.value_cache st !! layer = Some old_v →
  has_shape b h w d old → has_shape b h w d old_v →
  SinkCache.cos kw = None ∨ SinkCache.sin kw = None →
  Forall (λ kv, ∃ c, (0 < c)%nat ∧ (s + c < w)%nat ∧
                     has_shape b h c d kv.1 ∧ has_shape b h c d kv.2) chunks →
  let st' :=
    run_all ((λ kv, SinkCache.update kv.1 kv.2 (Z.of_nat layer) (Some kw)) <$> chunks)
      st in
  ∃ new_k new_v,
    SinkCache.key_cache st' !! layer = Some new_k ∧
    SinkCache.value_cache st' !! layer = Some new_v ∧
    has_shape b h w d new_k ∧ has_shape b h w d new_v ∧
    (∀ i j m, slab old i j = Some m →
       let stream := m ++ concat ((λ kv, default [] (slab kv.1 i j)) <$> chunks) in
       slab new_k i j
       = Some (take s m ++ drop (length stream - (w - s)) stream)) ∧
    (∀ i j m, slab old_v i j = Some m →
       let stream := m ++ concat ((λ kv, default [] (slab kv.2 i j)) <$> chunks) in
       slab new_v i j
       = Some (take s m ++ drop (length stream - (w - s)) stream)).
Proof.
  intros Hb Hh Hsw HW HS Hold Holdv Hso Hsov Hrope Hchunks.
  destruct st as [kc vc W S memo seen]. simpl in HW, HS, Hold, Holdv. subst W S.
  by apply (sink_stream_run layer kw b h d s w chunks).
Qed.

End SinkStream.

Lemma sink_holds_sinks_and_latest_witness :
  let chunks := [(chunk 300 1, chunk 400 1); (chunk 301 2, chunk 401 2)] in
  let st' :=
    run_all ((λ kv, SinkCache.update kv.1 kv.2 0 (Some no_rope)) <$> chunks)
      eight_of_eight in
  SinkCache.key_cache st'
  = [[[[[100]; [101]; [105]; [106]; [107]; [300]; [301]; [302]]]]] ∧
  ∃ new_k new_v,
    SinkCache.key_cache st' !! 0%nat = Some new_k ∧
    SinkCache.value_cache st' !! 0%nat = Some new_v ∧
    has_shape 1 1 8 1 new_k ∧ has_shape 1 1 8 1 new_v ∧
    (∀ i j m, slab (chunk 100 8) i j = Some m →
       let stream := m ++ concat ((λ kv, default [] (slab kv.1 i j)) <$> chunks) in
       slab new_k i j
       = Some (take 2 m ++ drop (length stream - (8 - 2)) stream)) ∧
    (∀ i j m, slab (chunk 200 8) i j = Some m →
       let stream := m ++ concat ((λ kv, default [] (slab kv.2 i j)) <$> chunks) in
       slab new_v i j
       = Some (take 2 m ++ drop (length stream - (8 - 2)) stream)).
Proof.
  intros chunks st'. split; [reflexivity|].
  apply (sink_holds_sinks_and_latest eight_of_eight 0 no_rope chunks
           (chunk 100 8) (chunk 200 8) 1 1 1 2 8).
  all: try lia; try reflexivity.
  all: try (repeat (split || constructor); fail).
  all: try (by left).
  subst chunks. apply Forall_cons. split; [|apply Forall_cons; split; [|constructor]].
  - exists 1%nat. split; [lia|]. split; [lia|]. repeat (split || constructor).
  - exists 2%nat. split; [lia|]. split; [lia|]. repeat (split || constructor).
Defined.

(** ** What a DynamicCache holds *)

Section DynamicStream.
Context {A : Type}.
Implicit Types st : DynamicCache.t A.
Implicit Types m : list (list A).

(** Concatenation along the sequence axis of tensors that agree on the
    other axes. *)
Lemma cat2_m2_exact (b h n n' d : nat) (t t' : tensor A) :
  has_shape b h n d t → has_shape b h n' d t' →
  cat2_m2 t t' = Ok (zip_with (zip_with app) t t') ∧
  has_shape b h (n + n') d (zip_with (zip_with app) t t').
Proof.
  intros Ht Ht'. split.
  - unfold cat2_m2. apply zipM_zip_with.
    { destruct Ht, Ht'. congruence. }
    intros i th th' Hth Hth'. apply zipM_zip_with.
    { destruct Ht as [_ Ht], Ht' as [_ Ht']. rewrite Forall_lookup in Ht, Ht'.
      destruct (Ht _ _ Hth) as [Hl _]. destruct (Ht' _ _ Hth') as [Hl' _].
      congruence. }
    intros j m m' Hm Hm'. unfold cat_rows.
    destruct m as [|r m], m' as [|r' m']; try done.
    rewrite bool_decide_true; [done|].
    assert (slab t i j = Some (r :: m)) as Hs by (unfold slab; by rewrite Hth).
    assert (slab t' i j = Some (r' :: m')) as Hs' by (unfold slab; by rewrite Hth').
    destruct (has_shape_slab _ _ _ _ _ _ _ _ Ht Hs) as [_ Hw].
    destruct (has_shape_slab _ _ _ _ _ _ _ _ Ht' Hs') as [_ Hw'].
    apply Forall_cons in Hw as [-> _]. by apply Forall_cons in Hw' as [-> _].
  - destruct Ht as [Hb Ht], Ht' as [Hb' Ht']. split.
    { rewrite length_zip_with. lia. }
    rewrite Forall_lookup in Ht, Ht'.
    apply Forall_lookup. intros i th0 Hth0.
    apply lookup_zip_with_Some in Hth0 as (th & th' & -> & Hth & Hth').
    destruct (Ht _ _ Hth) as [Hh Hm], (Ht' _ _ Hth') as [Hh' Hm'].
    split; [rewrite length_zip_with; lia|].
    rewrite Forall_lookup in Hm, Hm'.
    apply Forall_lookup. intros j m0 Hm0.
    apply lookup_zip_with_Some in Hm0 as (m & m' & -> & Hmm & Hmm').
    destruct (Hm _ _ Hmm) as [Hn Hr], (Hm' _ _ Hmm') as [Hn' Hr'].
    split; [rewrite length_app; lia|]. by apply Forall_app.
Qed.

Lemma slab_zip_with_app (t t' : tensor A) i j :
  slab (zip_with (zip_with app) t t') i j
  = m ← slab t i j; m' ← slab t' i j; Some (m ++ m').
Proof.
  unfold slab. rewrite lookup_zip_with.
  destruct (t !! i) as [th|]; simpl; [|done].
  destruct (t' !! i) as [th'|]; simpl.
  - rewrite lookup_zip_with. by destruct (th !! j).
  - by destruct (th !! j).
Qed.

Lemma dynamic_stream_run {K} (layer : nat) (kw : option K) (b h d : nat)
    (chunks : list (tensor A * tensor A)) :
  Forall (λ kv, ∃ c, has_shape b h c d kv.1 ∧ has_shape b h c d kv.2) chunks →
  ∀ st old old_v n,
  length (DynamicCache.key_cache st) = length (DynamicCache.value_cache st) →
  DynamicCache.key_cache st !! layer = Some old →
  DynamicCache.value_cache st !! layer = Some old_v →
  has_shape b h n d old → has_shape b h n d old_v →
  let st' :=
    run_all ((λ kv, DynamicCache.update kv.1 kv.2 (Z.of_nat layer) kw) <$> chunks)
      st in
  ∃ new_k new_v n',
    DynamicCache.key_cache st' !! layer = Some new_k ∧
    DynamicCache.value_cache st' !! layer = Some new_v ∧
    has_shape b h n' d new_k ∧ has_shape b h n' d new_v ∧
    (∀ i j m, slab old i j = Some m →
       slab new_k i j
       = Some (m ++ concat ((λ kv, default [] (slab kv.1 i j)) <$> chunks))) ∧
    (∀ i j m, slab old_v i j = Some m →
       slab new_v i j
       = Some (m ++ concat ((λ kv, default [] (slab kv.2 i j)) <$> chunks))).
Proof.
  intros Hchunks.
  induction Hchunks as [|[k v] chunks (c & Hsk & Hsv) _ IH];
    intros st old old_v n Hlen Hold Holdv Hso Hsov.
  - exists old, old_v, n. simpl. split_and!; try done.
    all: intros i j m Hm; by rewrite app_nil_r.
  - simpl in Hsk, Hsv.
    pose proof (lookup_lt_Some _ _ _ Hold) as Hl.
    destruct (cat2_m2_exact b h n c d old k Hso Hsk) as [Hck Hnk].
    destruct (cat2_m2_exact b h n c d old_v v Hsov Hsv) as [Hcv Hnv].
    rewrite fmap_cons, run_all_cons. cbn [fst snd].
    rewrite (dynamic_update_cat st k v (Z.of_nat layer) kw layer old old_v _ _
               Hlen ltac:(unfold len; lia) (norm_index_nat _ _ Hl) Hold Holdv
               Hck Hcv).
    cbn [fst].
    match goal with
    | |- context [run_all _ ?st0] => set (st1 := st0)
    end.
    destruct (IH st1 _ _ (n + c)%nat
                ltac:(subst st1; simpl; by rewrite !length_insert)
                ltac:(subst st1; simpl; by apply list_lookup_insert_eq)
                ltac:(subst st1; simpl; apply list_lookup_insert_eq; lia)
                Hnk Hnv)
      as (new_k & new_v & n' & Hk' & Hv' & Hsk' & Hsv' & Hks & Hvs).
    exists new_k, new_v, n'. split_and!; try done.
    + intros i j m Hm.
      destruct (slab_Some_lt _ _ _ _ _ _ _ _ Hso Hm) as [Hi Hj].
      destruct (has_shape_slab_Some _ _ _ _ _ i j Hsk Hi Hj) as [mk Hmk].
      rewrite (Hks i j (m ++ mk)) by (by rewrite slab_zip_with_app, Hm, Hmk).
      rewrite fmap_cons. simpl. rewrite Hmk. simpl. by rewrite app_assoc.
    + intros i j m Hm.
      destruct (slab_Some_lt _ _ _ _ _ _ _ _ Hsov Hm) as [Hi Hj].
      destruct (has_shape_slab_Some _ _ _ _ _ i j Hsv Hi Hj) as [mk Hmk].
      rewrite (Hvs i j (m ++ mk)) by (by rewrite slab_zip_with_app, Hm, Hmk).
      rewrite fmap_cons. simpl. rewrite Hmk. simpl. by rewrite app_assoc.
Qed.

(** X23. What a [DynamicCache] layer holds. A layer that already holds a
    tensor, fed any number of chunks that agree with it on the batch,
    head and feature axes, holds after the calls, block by block, the
    tokens it started with followed by all the chunks in the order they
    were given; keys and values alike. Nothing is dropped, reordered or
    rewritten. *)
Theorem dynamic_holds_whole_stream {K} st (layer : nat) (kw : option K)
    (chunks : list (tensor A * tensor A)) (old old_v : tensor A)
    (b h n d : nat) :
  length (DynamicCache.key_cache st) = length (DynamicCache.value_cache st) →
  DynamicCache.key_cache st !! layer = Some old →
  DynamicCache.value_cache st !! layer = Some old_v →
  has_shape b h n d old → has_shape b h n d old_v →
  Forall (λ kv, ∃ c, has_shape b h c d kv.1 ∧ has_shape b h c d kv.2) chunks →
  let st' :=
    run_all ((λ kv, DynamicCache.update kv.1 kv.2 (Z.of_nat layer) kw) <$> chunks)
      st in
  ∃ new_k new_v n',
    DynamicCache.key_cache st' !! layer = Some new_k ∧
    DynamicCache.value_cache st' !! layer = Some new_v ∧
    has_shape b h n' d new_k ∧ has_shape b h n' d new_v ∧
    (∀ i j m, slab old i j = Some m →
       slab new_k i j
       = Some (m ++ concat ((λ kv, default [] (slab kv.1 i j)) <$> chunks))) ∧
    (∀ i j m, slab old_v i j = Some m →
       slab new_v i j
       = Some (m ++ concat ((λ kv, default [] (slab kv.2 i j)) <$> chunks))).
Proof.
  intros Hlen Hold Holdv Hso Hsov Hchunks.
  by apply (dynamic_stream_run layer kw b h d chunks Hchunks st old old_v n).
Qed.

End DynamicStream.

Lemma dynamic_holds_whole_stream_witness :
  let st' :=
    run_all ((λ kv, DynamicCache.update kv.1 kv.2 1 (@None unit)) <$> two_chunks)
      two_layers in
  DynamicCache.key_cache st'
  = [chunk 1 2;
     [[[[5]; [6]; [7]; [10]; [11]; [12]; [13]; [14]]]]] ∧
  ∃ new_k new_v n',
    DynamicCache.key_cache st' !! 1%nat = Some new_k ∧
    DynamicCache.value_cache st' !! 1%nat = Some new_v ∧
    has_shape 1 1 n' 1 new_k ∧ has_shape 1 1 n' 1 new_v ∧
    (∀ i j m, slab (chunk 5 3) i j = Some m →
       slab new_k i j
       = Some (m ++ concat ((λ kv, default [] (slab kv.1 i j)) <$> two_chunks))) ∧
    (∀ i j m, slab (chunk 15 3) i j = Some m →
       slab new_v i j
       = Some (m ++ concat ((λ kv, default [] (slab kv.2 i j)) <$> two_chunks))).
Proof.
  intros st'. split; [reflexivity|].
  apply (dynamic_holds_whole_stream two_layers 1 (@None unit) two_chunks
           (chunk 5 3) (chunk 15 3) 1 1 3 1).
  all: try reflexivity.
  all: try (repeat (split || constructor); fail).
  unfold two_chunks. apply Forall_cons. split; [|apply Forall_cons; split; [|constructor]].
  - exists 2%nat. repeat (split || constructor).
  - exists 3%nat. repeat (split || constructor).
Defined.
